(** * vttcompressor: the image-reference graph of a Foundry world

    A shallow embedding of [vttcompressor.py]: the document store, the
    [ImageReference] objects with their resolution facts, the [WorldRefs]
    container with its indices, the repair passes, the conversion
    orchestration, the export and the trash handling.

    Conventions.
    - A Python [str] is a [string]; a file's bytes are a [string] too.
    - A [pathlib.Path] is its root flag and its list of parts.
    - An insertion-ordered [dict] is an association list, in insertion
      order; a Python [set] is a duplicate-free list.
    - The objects of [all_img_refs] are mutated in place and shared by every
      index: an index holds positions in [all_img_refs], not copies.
    - An uncaught exception ends the run: fallible code returns [result].
    - What the interpreter and third-party libraries provide (digests, image
      sniffing, HTML parsing, regular expressions, percent-encoding, the
      encoder process) is collected in the record [Externals]. *)

From Stdlib Require Import Strings.String Strings.Ascii.
From stdpp Require Import base option list strings pretty.

Open Scope string_scope.
Open Scope list_scope.

(** ** Exceptions *)

Inductive exn :=
  | TypeError | KeyError | IndexError | ValueError
  | AttributeError | FileNotFoundError | OSError.

Inductive result (A : Type) :=
  | Ok (a : A)
  | Raise (e : exn).
Arguments Ok {A} a.
Arguments Raise {A} e.

#[global] Instance result_ret : MRet result := fun A a => Ok a.
#[global] Instance result_bind : MBind result := fun A B f m =>
  match m with
  | Ok a => f a
  | Raise e => Raise e
  end.

(** [for x in xs: body], threading the state [s]. *)
Fixpoint for_each {A S : Type} (body : A -> S -> result S) (xs : list A) (s : S)
  : result S :=
  match xs with
  | [] => Ok s
  | x :: xs' => s' ← body x s; for_each body xs' s'
  end.

(** ** Python strings *)

Module Str.

Fixpoint take (n : nat) (s : string) : string :=
  match n, s with
  | S n', String a s' => String a (take n' s')
  | _, _ => EmptyString
  end.

Fixpoint drop (n : nat) (s : string) : string :=
  match n, s with
  | S n', String _ s' => drop n' s'
  | _, _ => s
  end.

(** [s.startswith(p)] *)
Fixpoint startswith (p s : string) : bool :=
  match p, s with
  | EmptyString, _ => true
  | String a p', String b s' => Ascii.eqb a b && startswith p' s'
  | String _ _, EmptyString => false
  end.

(** [needle in s] *)
Fixpoint contains (needle s : string) : bool :=
  startswith needle s ||
  match s with
  | EmptyString => false
  | String _ s' => contains needle s'
  end.

(** [s.rfind(c)], [None] for -1. *)
Fixpoint rfind (c : ascii) (s : string) : option nat :=
  match s with
  | EmptyString => None
  | String a s' =>
      match rfind c s' with
      | Some i => Some (S i)
      | None => if Ascii.eqb a c then Some 0 else None
      end
  end.

(** [s.replace(old, new)] for a non-empty [old]: the occurrences of [old]
    are replaced left to right and do not overlap. [fuel] bounds the scan
    by the length of [s]. *)
Fixpoint replace_from (fuel : nat) (old new s : string) : string :=
  match fuel with
  | 0 => s
  | S fuel' =>
      match s with
      | EmptyString => EmptyString
      | String a s' =>
          if startswith old s
          then new +:+ replace_from fuel' old new (drop (String.length old) s)
          else String a (replace_from fuel' old new s')
      end
  end.

(** [s.replace("", new)] puts [new] before every character and at the end. *)
Fixpoint interleave (new s : string) : string :=
  match s with
  | EmptyString => new
  | String a s' => new +:+ String a (interleave new s')
  end.

Definition replace (old new s : string) : string :=
  match old with
  | EmptyString => interleave new s
  | _ => replace_from (String.length s) old new s
  end.

(** [s.split(sep)] on one separator character. *)
Fixpoint split (sep : ascii) (s : string) : list string :=
  match s with
  | EmptyString => [EmptyString]
  | String a s' =>
      if Ascii.eqb a sep then EmptyString :: split sep s'
      else match split sep s' with
           | [] => [String a EmptyString]
           | w :: ws => String a w :: ws
           end
  end.

(** [sep.join(xs)] *)
Fixpoint join (sep : string) (xs : list string) : string :=
  match xs with
  | [] => EmptyString
  | [x] => x
  | x :: xs' => x +:+ sep +:+ join sep xs'
  end.

Definition lower_ascii (a : ascii) : ascii :=
  let n := nat_of_ascii a in
  if (65 <=? n)%nat && (n <=? 90)%nat then ascii_of_nat (n + 32) else a.

(** [s.lower()], on the ASCII letters. *)
Fixpoint lower (s : string) : string :=
  match s with
  | EmptyString => EmptyString
  | String a s' => String (lower_ascii a) (lower s')
  end.

(** [s.replace(" ", "-")] followed by [re.sub('-+', '-', _)] are used on
    file stems; the second collapses every run of hyphens. *)
Fixpoint collapse_hyphens (s : string) : string :=
  match s with
  | EmptyString => EmptyString
  | String a s' =>
      if Ascii.eqb a "-" && startswith "-" s' then collapse_hyphens s'
      else String a (collapse_hyphens s')
  end.

(** Truth value of a string: the empty string is false. *)
Definition truthy (s : string) : bool :=
  match s with EmptyString => false | _ => true end.

End Str.

(** ** pathlib *)

(** A pure POSIX path: whether it is rooted, and its parts. [Path("")] and
    [Path(".")] have no part. *)
Record Path := mkPath { p_root : bool; p_parts : list string }.

#[global] Instance Path_eq_dec : EqDecision Path.
Proof. solve_decision. Defined.

Module Pathlib.

(** [Path(s)]: the parts are the pieces between slashes; empty pieces and
    ["."] are dropped, [".."] is kept. *)
Definition parse (s : string) : Path :=
  mkPath (Str.startswith "/" s)
         (filter (fun x => x <> "" /\ x <> ".") (Str.split "/" s)).

(** [str(p)] *)
Definition str (p : Path) : string :=
  match p_parts p with
  | [] => if p_root p then "/" else "."
  | ps => (if p_root p then "/" else "") +:+ Str.join "/" ps
  end.

(** [a / b]: a rooted right operand replaces the left one. *)
Definition joinpath (a b : Path) : Path :=
  if p_root b then b else mkPath (p_root a) (p_parts a ++ p_parts b).

(** [a / s] for a string [s]. *)
Definition joinstr (a : Path) (s : string) : Path := joinpath a (parse s).

(** [p.name]: the last part, or the empty string. *)
Definition name (p : Path) : string := List.last (p_parts p) "".

(** [a in p.parents]: [a] is [p] cut before one of its parts. *)
Definition in_parents (a p : Path) : bool :=
  bool_decide (p_root a = p_root p) &&
  bool_decide (p_parts a `prefix_of` p_parts p) &&
  bool_decide (p_parts a <> p_parts p).

(** [p.suffix]: from the last dot of the name, unless that dot is the
    first or the last character. *)
Definition suffix (p : Path) : string :=
  let n := name p in
  match Str.rfind "." n with
  | Some i =>
      if bool_decide (0 < i) && bool_decide (i < String.length n - 1)
      then Str.drop i n else ""
  | None => ""
  end.

(** [p.stem] *)
Definition stem (p : Path) : string :=
  let n := name p in
  match Str.rfind "." n with
  | Some i =>
      if bool_decide (0 < i) && bool_decide (i < String.length n - 1)
      then Str.take i n else n
  | None => n
  end.

(** A name [with_name] accepts: one part, not ["."], no slash, not empty. *)
Definition valid_name (n : string) : bool :=
  bool_decide (n <> "") && negb (Str.contains "/" n) && bool_decide (n <> ".").

(** [p.with_name(n)] *)
Definition with_name (p : Path) (n : string) : result Path :=
  if bool_decide (name p = "") then Raise ValueError
  else if valid_name n
  then Ok (mkPath (p_root p) (removelast (p_parts p) ++ [n]))
  else Raise ValueError.

(** [p.with_stem(s)] *)
Definition with_stem (p : Path) (s : string) : result Path :=
  with_name p (s +:+ suffix p).

(** [p.with_suffix(s)]: [s] is empty or starts with a dot and is not the
    dot alone. The old suffix is cut off the name by its length. *)
Definition with_suffix (p : Path) (s : string) : result Path :=
  if Str.contains "/" s then Raise ValueError
  else if (Str.truthy s && negb (Str.startswith "." s)) || bool_decide (s = ".")
  then Raise ValueError
  else
    let n := name p in
    if bool_decide (n = "") then Raise ValueError
    else
      let old := suffix p in
      let n' := if Str.truthy old
                then Str.take (String.length n - String.length old) n +:+ s
                else n +:+ s in
      Ok (mkPath (p_root p) (removelast (p_parts p) ++ [n'])).

End Pathlib.

Notation "a // b" := (Pathlib.joinpath a b) (at level 40, left associativity).

(** ** Insertion-ordered dictionaries *)

Section adict.
Context {K V : Type} `{EqDecision K}.

(** [d.get(k)] *)
Fixpoint adict_get (d : list (K * V)) (k : K) : option V :=
  match d with
  | [] => None
  | (k', v) :: rest => if decide (k' = k) then Some v else adict_get rest k
  end.

(** [d[k] = v]: an existing key keeps its place, a new one goes last. *)
Fixpoint adict_set (d : list (K * V)) (k : K) (v : V) : list (K * V) :=
  match d with
  | [] => [(k, v)]
  | (k', v') :: rest =>
      if decide (k' = k) then (k, v) :: rest else (k', v') :: adict_set rest k v
  end.

(** [k in d] *)
Definition adict_mem (d : list (K * V)) (k : K) : bool :=
  bool_decide (is_Some (adict_get d k)).

End adict.

(** [s.add(x)] for a set kept as a duplicate-free list. *)
Definition set_add {A : Type} `{EqDecision A} (x : A) (s : list A) : list A :=
  if decide (x ∈ s) then s else s ++ [x].

(** ** Documents: JSON values and addresses *)

(** An element of an address: a dictionary key or a list position. *)
Inductive Key :=
  | KStr (s : string)
  | KInt (n : nat).

#[global] Instance Key_eq_dec : EqDecision Key.
Proof. solve_decision. Defined.

(** What [json.loads] returns. A number keeps its literal; a dictionary is
    its items in insertion order (its keys are pairwise distinct). *)
#[warnings="-register-all"]
Inductive Json :=
  | JNull
  | JBool (b : bool)
  | JNum (lit : string)
  | JStr (s : string)
  | JList (l : list Json)
  | JDict (items : list (Key * Json)).

(** [s[n]] for a string: the one-character string at [n]. *)
Fixpoint str_index (s : string) (n : nat) : option string :=
  match s, n with
  | EmptyString, _ => None
  | String a _, 0 => Some (String a EmptyString)
  | String _ s', S n' => str_index s' n'
  end.

(** [obj[k]] *)
Definition getitem (obj : Json) (k : Key) : result Json :=
  match obj, k with
  | JDict items, _ =>
      match adict_get items k with Some v => Ok v | None => Raise KeyError end
  | JList l, KInt n =>
      match l !! n with Some v => Ok v | None => Raise IndexError end
  | JStr s, KInt n =>
      match str_index s n with Some c => Ok (JStr c) | None => Raise IndexError end
  | _, _ => Raise TypeError
  end.

(** [obj[k] = v] *)
Definition setitem (obj : Json) (k : Key) (v : Json) : result Json :=
  match obj, k with
  | JDict items, _ => Ok (JDict (adict_set items k v))
  | JList l, KInt n =>
      if decide (n < length l) then Ok (JList (<[n:=v]> l)) else Raise IndexError
  | _, _ => Raise TypeError
  end.

(** [dict_walker]: the leaves of a value in document order, each with its
    full address. The source yields one list, address then leaf; here the
    pair [(item[:-1], item[-1])]. *)
Fixpoint dict_walker (in_dict : Json) (pre : list Key) : list (list Key * Json) :=
  match in_dict with
  | JDict items =>
      (fix over_items (items : list (Key * Json)) : list (list Key * Json) :=
         match items with
         | [] => []
         | (key, value) :: rest =>
             match value with
             | JDict _ => dict_walker value (pre ++ [key])
             | JList vs =>
                 (fix over_elems (vs : list Json) (i : nat) : list (list Key * Json) :=
                    match vs with
                    | [] => []
                    | v :: vs' =>
                        dict_walker v (pre ++ [key; KInt i]) ++ over_elems vs' (S i)
                    end) vs 0
             | _ => [(pre ++ [key], value)]
             end ++ over_items rest
         end) items
  | _ => [(pre, in_dict)]
  end.

(** [get_nested_dict_recursive] *)
Fixpoint get_nested_dict_recursive (in_dict : Json) (dict_address : list Key)
  : result Json :=
  match dict_address with
  | [] => Raise IndexError
  | [k] => getitem in_dict k
  | k :: rest => d ← getitem in_dict k; get_nested_dict_recursive d rest
  end.

(** [edit_nested_dict_recursive]. The source mutates the innermost container
    in place; every container on the way holds that same object, so the
    edited child is put back into its parent. *)
Fixpoint edit_nested_dict_recursive (in_dict : Json) (dict_address : list Key)
    (new_value : Json) : result Json :=
  match dict_address with
  | [] => Raise IndexError
  | [k] => setitem in_dict k new_value
  | k :: rest =>
      d ← getitem in_dict k;
      d' ← edit_nested_dict_recursive d rest new_value;
      match in_dict with
      | JDict _ | JList _ => setitem in_dict k d'
      | _ => Ok in_dict
      end
  end.

(** ** The file system and the outside world *)

(** The regular files, by path as the program names them. *)
Definition FS := Path -> option string.

(** [p.is_file()], for a path the operating system takes: whether a regular
    file is there. For a path it refuses (a name past the limit of the file
    system, a folder that may not be searched) [p.is_file()] does not
    answer, it raises [OSError]: [is_file_checked] has that case. *)
Definition is_file (fs : FS) (p : Path) : bool := bool_decide (is_Some (fs p)).

(** [p.is_file()] on a file system that refuses the paths [refused]: the
    paths for which it answers with an error other than that of a missing
    file, which [is_file] raises as [OSError]. *)
Definition is_file_checked (refused : Path -> bool) (fs : FS) (p : Path)
  : result bool :=
  if refused p then Raise OSError else Ok (is_file fs p).

Definition fs_write (fs : FS) (p : Path) (data : string) : FS :=
  fun q => if decide (q = p) then Some data else fs q.

Definition fs_remove (fs : FS) (p : Path) : FS :=
  fun q => if decide (q = p) then None else fs q.

(** [shutil.copyfile(src, dst)] *)
Definition copyfile (fs : FS) (src dst : Path) : result FS :=
  match fs src with
  | Some data => Ok (fs_write fs dst data)
  | None => Raise FileNotFoundError
  end.

(** [src.rename(dst)] *)
Definition rename (fs : FS) (src dst : Path) : result FS :=
  match fs src with
  | Some data => Ok (fs_write (fs_remove fs src) dst data)
  | None => Raise FileNotFoundError
  end.

(** Library functions and the encoder process. *)
Record Externals := {
  (** [hashlib.md5(bytes).hexdigest()] *)
  md5_hexdigest : string -> string;
  (** [hashlib.sha256(s.encode()).hexdigest()] *)
  sha256_hexdigest : string -> string;
  (** [imghdr.what], from the bytes of the file *)
  imghdr_what : string -> option string;
  (** [mimetypes.guess_type(path)[0]] *)
  guess_type : string -> option string;
  (** [urllib.parse.unquote] and [urllib.parse.quote] *)
  unquote : string -> string;
  quote : string -> string;
  (** [repr] of a [str] *)
  repr_str : string -> string;
  (** [BeautifulSoup(s, 'html.parser').find()] found an element *)
  soup_find : string -> bool;
  (** for each [img] element of [findAll("img")], its [src] attribute *)
  soup_img_srcs : string -> list (option string);
  (** [re.match(pattern, s)] matched *)
  re_match : string -> string -> bool;
  (** [json.dumps(v, separators=(',', ':'), ensure_ascii=False)] *)
  json_dumps : Json -> string;
  (** [subprocess.run(shlex.split(cmd)).returncode], and what the process
      did to the files *)
  subprocess_run : string -> FS -> result (FS * Z)
}.

(** ** ImageReference *)

Inductive FileType := json | db.

#[global] Instance FileType_eq_dec : EqDecision FileType.
Proof. solve_decision. Defined.

Definition file_type_str (t : FileType) : string :=
  match t with json => "json" | db => "db" end.

(** The attributes of an [ImageReference]. [ref_world_folder] and
    [ref_core_data_folder] are the object's own [world_folder] and
    [core_data_folder], copied from the owner when it is created. An
    attribute that may not have been assigned yet is an [option]:
    [webp_ref_path] is [None] until a resolution finds the file. The
    attribute [file_reference] is the owner's document itself and is read
    through the owner. *)
Record ImageReference := mkRef {
  ref_world_folder : Path;
  ref_core_data_folder : Path;
  ref_file_path : Path;
  ref_file_type : FileType;
  ref_file_line : option nat;
  json_address : list Key;
  ref_id : string;
  img_ref_content_is_html : bool;
  ref_path : Path;
  ref_img_in_world_folder : bool;
  img_path_on_disk : option Path;
  img_exists : bool;
  img_encoding : option string;
  img_hash : option string;
  is_webp : bool;
  webp_ref_path : option Path;
  webp_copy_exists : option bool;
  correct_extension : option bool;
  img_ref_external_web_link : bool
}.

(** Truth value of an optional string: [None] and [""] are false. *)
Definition truthy_opt (o : option string) : bool :=
  match o with Some s => Str.truthy s | None => false end.

(** The three resolution attempts of [set_editable_attributes]: the path as
    written, the path under the core data folder, the percent-decoded path. *)
Definition resolve_on_disk (E : Externals) (fs : FS) (core : Path) (p : Path)
  : option Path :=
  if is_file fs p then Some p
  else if is_file fs (core // p) then Some (core // p)
  else
    let path := Pathlib.parse (unquote E (Pathlib.str p)) in
    if is_file fs path then Some path else None.

(** [img_encoding_mime]: the part of the guessed MIME type after the slash. *)
Definition mime_subtype (E : Externals) (p : Path) : result (option string) :=
  match guess_type E (Pathlib.str p) with
  | None => Ok None
  | Some m =>
      match Str.split "/" m with
      | _ :: sub :: _ => Ok (Some (Str.lower sub))
      | _ => Raise IndexError
      end
  end.

(** The file name stem of the [.webp] copy. *)
Definition webp_stem (E : Externals) (disk : Path) : string :=
  quote E (Str.collapse_hyphens
             (Str.lower (Str.replace " " "-" (Pathlib.stem disk)))).

(** [correct_extension], from the encoding found and the file on disk. *)
Definition extension_matches (encoding : option string) (disk : Path)
  : option bool :=
  if truthy_opt encoding then
    let enc := Str.lower (default "" encoding) in
    let ext := Str.lower (Str.drop 1 (Pathlib.suffix disk)) in
    if decide (enc = "jpeg")
    then Some (bool_decide (ext = "jpeg" \/ ext = "jpg"))
    else Some (bool_decide (ext = Str.lower enc))
  else None.

(** [ImageReference.set_editable_attributes]. When no file is found, the
    attributes assigned only for an existing file ([img_hash], [is_webp],
    [webp_ref_path], [webp_copy_exists]) keep their previous values. *)
Definition set_editable_attributes (E : Externals) (fs : FS)
    (self : ImageReference) (ref_path' : Path) : result ImageReference :=
  let in_world := Pathlib.in_parents (ref_world_folder self) ref_path' in
  let link := Str.startswith "http" (Pathlib.str ref_path') in
  match resolve_on_disk E fs (ref_core_data_folder self) ref_path' with
  | None =>
      Ok (mkRef (ref_world_folder self) (ref_core_data_folder self)
            (ref_file_path self) (ref_file_type self) (ref_file_line self)
            (json_address self) (ref_id self) (img_ref_content_is_html self)
            ref_path' in_world None false None
            (img_hash self) (is_webp self) (webp_ref_path self)
            (webp_copy_exists self) None link)
  | Some disk =>
      match fs disk with
      | None => Raise FileNotFoundError
      | Some data =>
          let img_encoding_imghdr := imghdr_what E data in
          img_encoding_mime ← mime_subtype E disk;
          let encoding :=
            if truthy_opt img_encoding_imghdr then img_encoding_imghdr
            else if truthy_opt img_encoding_mime then img_encoding_mime
            else None in
          let hash :=
            if in_world then Some (md5_hexdigest E data) else None in
          let webp := bool_decide (Str.lower (Pathlib.suffix ref_path') = ".webp") in
          with_new_stem ← Pathlib.with_stem ref_path' (webp_stem E disk);
          webp_path ← Pathlib.with_suffix with_new_stem ".webp";
          let copy_exists := if webp then None else Some (is_file fs webp_path) in
          Ok (mkRef (ref_world_folder self) (ref_core_data_folder self)
                (ref_file_path self) (ref_file_type self) (ref_file_line self)
                (json_address self) (ref_id self) (img_ref_content_is_html self)
                ref_path' in_world (Some disk) true
                (if truthy_opt encoding then Str.lower <$> encoding else encoding)
                hash webp (Some webp_path) copy_exists
                (extension_matches encoding disk) link)
      end
  end.

(** ** WorldRefs *)

(** The documents of one kind: path to records. A [.json] document is a
    list of one record, as [load_data] stores it. *)
Definition Docs := list (Path * list Json).

(** [self.files = {"json": {...}, "db": {...}}] *)
Record Files := mkFiles { files_json : Docs; files_db : Docs }.

Definition files_get (f : Files) (t : FileType) : Docs :=
  match t with json => files_json f | db => files_db f end.

Definition files_set (f : Files) (t : FileType) (d : Docs) : Files :=
  match t with
  | json => mkFiles d (files_db f)
  | db => mkFiles (files_json f) d
  end.

(** An index by image path: [{path: [ref, ...]}], each reference by its
    position in [all_img_refs]. *)
Definition ImgIndex := list (Path * list nat).

Record WorldRefs := mkWorld {
  user_data_folder : Path;
  world_folder : Path;
  core_data_folder : Path;
  ffmpeg_location : string;
  trash : Path;
  files : Files;
  trash_queue : list Path;
  all_img_refs : list ImageReference;
  (** [ref_id] to the position of the object in [all_img_refs] *)
  all_img_refs_by_id : list (string * nat)
}.

Definition with_files (w : WorldRefs) (f : Files) : WorldRefs :=
  mkWorld (user_data_folder w) (world_folder w) (core_data_folder w)
    (ffmpeg_location w) (trash w) f (trash_queue w) (all_img_refs w)
    (all_img_refs_by_id w).

Definition with_trash_queue (w : WorldRefs) (q : list Path) : WorldRefs :=
  mkWorld (user_data_folder w) (world_folder w) (core_data_folder w)
    (ffmpeg_location w) (trash w) (files w) q (all_img_refs w)
    (all_img_refs_by_id w).

Definition with_refs (w : WorldRefs) (refs : list ImageReference) : WorldRefs :=
  mkWorld (user_data_folder w) (world_folder w) (core_data_folder w)
    (ffmpeg_location w) (trash w) (files w) (trash_queue w) refs
    (all_img_refs_by_id w).

Definition with_refs_by_id (w : WorldRefs) (refs : list ImageReference)
    (by_id : list (string * nat)) : WorldRefs :=
  mkWorld (user_data_folder w) (world_folder w) (core_data_folder w)
    (ffmpeg_location w) (trash w) (files w) (trash_queue w) refs by_id.

(** The object at position [i]. *)
Definition the_ref (w : WorldRefs) (i : nat) : result ImageReference :=
  match all_img_refs w !! i with Some r => Ok r | None => Raise IndexError end.

(** [str(x)] for [x] a path or [None]. *)
Definition str_opt_path (o : option Path) : string :=
  match o with Some p => Pathlib.str p | None => "None" end.

(** [str(n)] for [n] an integer or [None]. *)
Definition str_opt_nat (o : option nat) : string :=
  match o with Some n => pretty n | None => "None" end.

(** [str(address)] for a list of keys and positions. *)
Definition str_address (E : Externals) (address : list Key) : string :=
  "[" +:+ Str.join ", "
            (map (fun k => match k with
                           | KStr s => repr_str E s
                           | KInt n => pretty n
                           end) address) +:+ "]".

(** The string hashed into [ref_id]. *)
Definition string_to_hash (E : Externals) (world core ref_file : Path)
    (t : FileType) (line : option nat) (address : list Key) : Path :=
  Pathlib.joinstr
    (Pathlib.joinstr
       (Pathlib.joinstr
          (Pathlib.joinstr (world // core // ref_file) (file_type_str t))
          (str_opt_nat line))
       (str_address E address))
    "img_ref".

(** The record of a document a reference lives in: [files[type][path]],
    and for a [db] file its line. For a [json] file it is the list that
    holds the single record. *)
Definition file_record (f : Files) (t : FileType) (path : Path)
    (line : option nat) : result Json :=
  match adict_get (files_get f t) path with
  | None => Raise KeyError
  | Some records =>
      match t with
      | json => Ok (JList records)
      | db =>
          match line with
          | None => Raise TypeError
          | Some n =>
              match records !! n with
              | Some d => Ok d
              | None => Raise IndexError
              end
          end
      end
  end.

(** [ImageReference.__init__]; [full_json_address] is the address and the
    leaf, [ref_path] the path as written. *)
Definition ImageReference_init (E : Externals) (fs : FS) (w : WorldRefs)
    (ref_file_type : FileType) (ref_file_path : Path)
    (ref_file_line : option nat) (full_json_address : list Key * string)
    (ref_path : string) : result ImageReference :=
  _ ← file_record (files w) ref_file_type ref_file_path ref_file_line;
  let address := full_json_address.1 in
  let id := sha256_hexdigest E
              (Pathlib.str (string_to_hash E (world_folder w) (core_data_folder w)
                              ref_file_path ref_file_type ref_file_line address)) in
  let fresh :=
    mkRef (world_folder w) (core_data_folder w) ref_file_path ref_file_type
      ref_file_line address id (soup_find E full_json_address.2)
      (Pathlib.parse ref_path) false None false None
      None false None None None false in
  set_editable_attributes E fs fresh (Pathlib.parse ref_path).

(** [ImageReference.get_img_ref_content] *)
Definition get_img_ref_content (w : WorldRefs) (self : ImageReference)
  : result Json :=
  d ← file_record (files w) (ref_file_type self) (ref_file_path self)
        (ref_file_line self);
  get_nested_dict_recursive d (json_address self).

(** [content.replace(old, new)]: only a string has [replace]. *)
Definition content_replace (content : Json) (old new : string) : result string :=
  match content with
  | JStr s => Ok (Str.replace old new s)
  | _ => Raise AttributeError
  end.

(** [ImageReference.push_updated_content_to_world] *)
Definition push_updated_content_to_world (w : WorldRefs) (self : ImageReference)
    (updated_content : string) : result WorldRefs :=
  let t := ref_file_type self in
  let path := ref_file_path self in
  match adict_get (files_get (files w) t) path with
  | None => Raise KeyError
  | Some records =>
      match t with
      | json =>
          d' ← edit_nested_dict_recursive (JList records) (json_address self)
                 (JStr updated_content);
          match d' with
          | JList records' =>
              Ok (with_files w
                    (files_set (files w) t (adict_set (files_get (files w) t) path records')))
          | _ => Ok w
          end
      | db =>
          match ref_file_line self with
          | None => Raise TypeError
          | Some n =>
              match records !! n with
              | None => Raise IndexError
              | Some d =>
                  d' ← edit_nested_dict_recursive d (json_address self)
                         (JStr updated_content);
                  Ok (with_files w
                        (files_set (files w) t
                           (adict_set (files_get (files w) t) path (<[n:=d']> records))))
              end
          end
      end
  end.

(** *** Indices *)

(** The objects of [all_img_refs] with their positions. *)
Definition ref_objects (w : WorldRefs) : list (nat * ImageReference) :=
  imap (fun i r => (i, r)) (all_img_refs w).

(** The objects of a list of positions. *)
Definition objects_at (w : WorldRefs) (positions : list nat)
  : list (nat * ImageReference) :=
  omap (fun i => (fun r => (i, r)) <$> all_img_refs w !! i) positions.

(** [ref_list]: the given list, or every reference. *)
Definition ref_list (w : WorldRefs) (input_ref_list : option (list nat))
  : list (nat * ImageReference) :=
  match input_ref_list with
  | None => ref_objects w
  | Some l => objects_at w l
  end.

(** [if k not in idx: idx[k] = []] then [idx[k].append(i)] *)
Definition index_append {K : Type} `{EqDecision K} (idx : list (K * list nat))
    (k : K) (i : nat) : list (K * list nat) :=
  adict_set idx k (default [] (adict_get idx k) ++ [i]).

(** The loop of [get_refs_indexed_by_img] over the objects [refs]. *)
Definition index_by_img (refs : list (nat * ImageReference)) : ImgIndex :=
  foldl (fun idx x => index_append idx (ref_path x.2) x.1) [] refs.

(** [WorldRefs.get_refs_indexed_by_img] *)
Definition get_refs_indexed_by_img (w : WorldRefs)
    (input_ref_list : option (list nat)) : ImgIndex :=
  index_by_img (ref_list w input_ref_list).

(** The loop of [get_refs_indexed_by_hash_by_img] over the objects [refs]. *)
Definition index_by_hash_by_img (refs : list (nat * ImageReference))
  : list (option string * ImgIndex) :=
  foldl (fun idx x =>
           adict_set idx (img_hash x.2)
             (index_append (default [] (adict_get idx (img_hash x.2)))
                (ref_path x.2) x.1))
        [] refs.

(** [WorldRefs.get_refs_indexed_by_hash_by_img] *)
Definition get_refs_indexed_by_hash_by_img (w : WorldRefs)
    (input_ref_list : option (list nat)) : list (option string * ImgIndex) :=
  index_by_hash_by_img (ref_list w input_ref_list).

(** [WorldRefs.get_duplicated_images] *)
Definition get_duplicated_images (w : WorldRefs) : list (option string * ImgIndex) :=
  filter (fun '(obj_hash, imgs) => 1 < length imgs /\ obj_hash <> None)
         (get_refs_indexed_by_hash_by_img w None).

(** *** Broken references *)

(** [WorldRefs.get_broken_refs], as positions. *)
Definition get_broken_refs (w : WorldRefs) : list nat :=
  omap (fun '(i, ref) =>
          if (bool_decide (img_path_on_disk ref = None)
              && negb (img_ref_external_web_link ref))
             || match img_path_on_disk ref with
                | Some p => bool_decide (p ∈ trash_queue w)
                | None => false
                end
          then Some i else None)
       (ref_objects w).

(** The body shared by the repairs: assign the facts of [ref] for the new
    path, then push the new content. *)
Definition repoint (E : Externals) (fs : FS) (w : WorldRefs) (i : nat)
    (ref : ImageReference) (new_ref_path : Path) (new_content : string)
  : result WorldRefs :=
  ref' ← set_editable_attributes E fs ref new_ref_path;
  push_updated_content_to_world (with_refs w (<[i:=ref']> (all_img_refs w)))
    ref' new_content.

(** [WorldRefs.try_to_fix_one_broken_ref] *)
Definition try_to_fix_one_broken_ref (E : Externals) (fs : FS) (w : WorldRefs)
    (img_ref_to_fix : nat) : result (bool * WorldRefs) :=
  ref ← the_ref w img_ref_to_fix;
  if bool_decide (Str.take 7 (Pathlib.str (ref_path ref)) = "modules") then
    let new_ref_path :=
      Pathlib.parse (Str.replace "modules" "worlds" (Pathlib.str (ref_path ref))) in
    if is_file fs new_ref_path then
      content ← get_img_ref_content w ref;
      new_img_content ← content_replace content (Pathlib.str (ref_path ref))
                          (Pathlib.str new_ref_path);
      w' ← repoint E fs w img_ref_to_fix ref new_ref_path new_img_content;
      Ok (true, w')
    else Ok (false, w)
  else Ok (false, w).

(** [WorldRefs.try_to_fix_all_broken_refs]; the count printed is returned. *)
Definition try_to_fix_all_broken_refs (E : Externals) (fs : FS) (w : WorldRefs)
  : result (nat * WorldRefs) :=
  for_each (fun i '(n, w) =>
              '(fixed, w') ← try_to_fix_one_broken_ref E fs w i;
              Ok (if fixed : bool then S n else n, w'))
           (get_broken_refs w) (0, w).

(** *** Duplicated images *)

(** The loop body of [fix_one_set_of_duplicated_images] for one reference. *)
Definition point_ref_to_main_img (E : Externals) (fs : FS) (main_img : Path)
    (i : nat) (w : WorldRefs) : result WorldRefs :=
  ref ← the_ref w i;
  content ← get_img_ref_content w ref;
  updated_content ← content_replace content (str_opt_path (img_path_on_disk ref))
                      (Pathlib.str main_img);
  repoint E fs w i ref main_img updated_content.

(** [WorldRefs.fix_one_set_of_duplicated_images] *)
Definition fix_one_set_of_duplicated_images (E : Externals) (fs : FS)
    (duplicated_img_dict : ImgIndex) (w : WorldRefs) : result WorldRefs :=
  match duplicated_img_dict with
  | [] => Raise IndexError
  | (main_img, _) :: imgs_to_be_replaced =>
      for_each (fun '(img_to_be_replaced, refs) w =>
                  w' ← for_each (point_ref_to_main_img E fs main_img) refs w;
                  Ok (with_trash_queue w' (set_add img_to_be_replaced (trash_queue w'))))
               imgs_to_be_replaced w
  end.

(** [WorldRefs.fix_all_sets_of_duplicated_images] *)
Definition fix_all_sets_of_duplicated_images (E : Externals) (fs : FS)
    (w : WorldRefs) : result WorldRefs :=
  for_each (fun '(obj_hash, img_dict) w =>
              fix_one_set_of_duplicated_images E fs img_dict w)
           (get_duplicated_images w) w.

(** *** Conversion to webp *)

(** Reading [ref.webp_ref_path]. *)
Definition get_webp_ref_path (ref : ImageReference) : result Path :=
  match webp_ref_path ref with Some p => Ok p | None => Raise AttributeError end.

(** [ImageReference.create_webp_copy] *)
Definition create_webp_copy (E : Externals) (w : WorldRefs) (fs : FS)
    (self : ImageReference) : result (FS * Z) :=
  webp ← get_webp_ref_path self;
  let q := String "034"%char EmptyString in
  let cmd_call_str :=
    q +:+ ffmpeg_location w +:+ q +:+ " -y -i "
    +:+ q +:+ str_opt_path (img_path_on_disk self) +:+ q +:+ " -c:v libwebp "
    +:+ q +:+ Pathlib.str webp +:+ q +:+ " -hide_banner -loglevel error" in
  subprocess_run E cmd_call_str fs.

(** [WorldRefs.update_one_ref_to_webp] *)
Definition update_one_ref_to_webp (E : Externals) (fs : FS)
    (img_ref_to_update : nat) (w : WorldRefs) : result WorldRefs :=
  ref ← the_ref w img_ref_to_update;
  let old_ref_path := ref_path ref in
  old_img_ref_content ← get_img_ref_content w ref;
  new_ref_path ← get_webp_ref_path ref;
  new_img_ref_content ← content_replace old_img_ref_content
                          (Pathlib.str old_ref_path) (Pathlib.str new_ref_path);
  repoint E fs w img_ref_to_update ref new_ref_path new_img_ref_content.

(** One turn of the loop of [convert_all_images_to_webp_and_update_refs]. *)
Definition convert_one_image (E : Externals) (entry : Path * list nat)
    (st : FS * WorldRefs) : result (FS * WorldRefs) :=
  let '(path, refs) := entry in
  let '(fs, w) := st in
  match refs with
  | [] => Raise IndexError
  | first :: _ =>
      temp_ref ← the_ref w first;
      let temp_path_for_deletion := path in
      if negb (is_webp temp_ref) && img_exists temp_ref
         && ref_img_in_world_folder temp_ref
      then
        webp ← get_webp_ref_path temp_ref;
        '(fs1, return_code) ←
          (if negb (is_file fs webp) then create_webp_copy E w fs temp_ref
           else Ok (fs, 0%Z));
        w1 ← (if bool_decide (return_code = 0%Z) && is_file fs1 webp
              then for_each (update_one_ref_to_webp E fs1) refs w
              else Ok w);
        Ok (fs1, with_trash_queue w1 (set_add temp_path_for_deletion (trash_queue w1)))
      else Ok (fs, w)
  end.

(** [WorldRefs.convert_all_images_to_webp_and_update_refs] *)
Definition convert_all_images_to_webp_and_update_refs (E : Externals)
    (fs : FS) (w : WorldRefs) : result (FS * WorldRefs) :=
  for_each (convert_one_image E) (get_refs_indexed_by_img w None) (fs, w).

(** *** Export *)

(** The backup name of a document. *)
Definition bak_path (path : Path) : result Path :=
  Pathlib.with_suffix path (Pathlib.suffix path +:+ "bak").

(** The text written for a document: its records, one per line. *)
Definition export_text (E : Externals) (content : list Json) : string :=
  Str.join (String "010"%char EmptyString) (map (json_dumps E) content).

(** One turn of the loop of [export_all_json_and_db_files]. *)
Definition export_one_file (E : Externals) (entry : Path * list Json) (fs : FS)
  : result FS :=
  let '(path, content) := entry in
  bak ← bak_path path;
  fs1 ← copyfile fs path bak;
  Ok (fs_write fs1 path (export_text E content)).

(** [WorldRefs.export_all_json_and_db_files] *)
Definition export_all_json_and_db_files (E : Externals) (fs : FS) (w : WorldRefs)
  : result FS :=
  for_each (export_one_file E) (files_json (files w) ++ files_db (files w)) fs.

(** *** Trash *)

(** One turn of the loop of [move_all_imgs_in_trash_queue_to_trash]. *)
Definition move_one_img_to_trash (E : Externals) (w : WorldRefs) (file : Path)
    (fs : FS) : result FS :=
  '(exists_, file) ←
    (if is_file fs file then Ok (true, file)
     else
       unquoted ← Pathlib.with_stem file (unquote E (Pathlib.stem file));
       if is_file fs unquoted then Ok (true, unquoted) else Ok (false, file));
  if (exists_ : bool)
     && re_match E (".*" +:+ Pathlib.str (world_folder w) +:+ ".*") (Pathlib.str file)
  then rename fs file (Pathlib.joinstr (trash w) (Pathlib.name file))
  else Ok fs.

(** [WorldRefs.move_all_imgs_in_trash_queue_to_trash]; the queue is visited
    in the order of the list. *)
Definition move_all_imgs_in_trash_queue_to_trash (E : Externals) (fs : FS)
    (w : WorldRefs) : result FS :=
  for_each (move_one_img_to_trash E w) (trash_queue w) fs.

(** *** Scanning *)

(** [regex_img_exp.findall(s)] is not empty. *)
Definition regex_img_exp_found (s : string) : bool :=
  Str.contains ".webp" s || Str.contains ".jpg" s
  || Str.contains ".jpeg" s || Str.contains ".png" s.

(** The keys of [unique_img_refs_in_html]: the [src] of every [img], in
    order of first occurrence; an [img] without [src] raises. *)
Definition unique_img_refs_in_html (E : Externals) (content : string)
  : result (list string) :=
  foldl (fun acc src =>
           seen ← acc;
           match src with
           | Some s => Ok (set_add s seen)
           | None => Raise KeyError
           end)
        (Ok []) (soup_img_srcs E content).

(** [all_img_refs.append(ref_obj)] and [all_img_refs_by_id[ref_id] = ref_obj] *)
Definition register_ref (w : WorldRefs) (ref_obj : ImageReference) : WorldRefs :=
  with_refs_by_id w (all_img_refs w ++ [ref_obj])
    (adict_set (all_img_refs_by_id w) (ref_id ref_obj) (length (all_img_refs w))).

(** The references made from one leaf of a document. *)
Definition find_refs_in_item (E : Externals) (fs : FS) (ref_file_path : Path)
    (json_or_db : FileType) (ref_file_line : nat) (item : list Key * Json)
    (w : WorldRefs) : result WorldRefs :=
  match item.2 with
  | JStr item_content =>
      if regex_img_exp_found item_content then
        if soup_find E item_content then
          srcs ← unique_img_refs_in_html E item_content;
          for_each (fun img_ref w =>
                      ref_obj ← ImageReference_init E fs w json_or_db ref_file_path
                                  (if decide (json_or_db = db) then Some ref_file_line
                                   else None)
                                  (item.1, item_content) img_ref;
                      Ok (register_ref w ref_obj))
                   srcs w
        else
          ref_obj ← ImageReference_init E fs w json_or_db ref_file_path
                      (if decide (json_or_db = db) then Some ref_file_line
                       else Some 0)
                      (item.1, item_content) item_content;
          Ok (register_ref w ref_obj)
      else Ok w
  | _ => Ok w
  end.

(** [WorldRefs.traverse_dict_and_find_all_refs] *)
Definition traverse_dict_and_find_all_refs (E : Externals) (fs : FS)
    (dict_content : Json) (ref_file_path : Path) (json_or_db : FileType)
    (ref_file_line : nat) (w : WorldRefs) : result WorldRefs :=
  for_each (find_refs_in_item E fs ref_file_path json_or_db ref_file_line)
           (dict_walker dict_content []) w.

(** [WorldRefs.find_all_img_references_in_world] *)
Definition find_all_img_references_in_world (E : Externals) (fs : FS)
    (w : WorldRefs) : result WorldRefs :=
  let scan (t : FileType) :=
    for_each (fun '(path, file) =>
                for_each (fun '(i, content) =>
                            traverse_dict_and_find_all_refs E fs content path t i)
                         (imap (fun i c => (i, c)) file))
             (files_get (files w) t) in
  w1 ← scan json (with_refs_by_id w [] []);
  scan db w1.

(** [WorldRefs.__init__] on documents already loaded. *)
Definition WorldRefs_init (E : Externals) (fs : FS) (user_data_folder
    world_folder core_data_folder : Path) (ffmpeg_location : string)
    (loaded : Files) : result WorldRefs :=
  find_all_img_references_in_world E fs
    (mkWorld user_data_folder world_folder core_data_folder ffmpeg_location
       (Pathlib.joinstr world_folder "_trash") loaded [] [] []).

(** *** Extension repair *)

(** [find_filename_that_doesnt_exist_yet]. The interpreter bounds the depth
    of recursion: [depth] is the number of calls it still allows, and [None]
    stands for the [RecursionError] that ends a deeper search. *)
Fixpoint find_filename_that_doesnt_exist_yet (depth : nat) (fs : FS)
    (file_path : Path) (suffix : string) : option (result Path) :=
  match depth with
  | 0 => None
  | S depth' =>
      match Pathlib.with_suffix file_path suffix with
      | Raise e => Some (Raise e)
      | Ok path =>
          if is_file fs path then
            match Pathlib.with_stem path (Pathlib.stem path +:+ "_") with
            | Raise e => Some (Raise e)
            | Ok next => find_filename_that_doesnt_exist_yet depth' fs next suffix
            end
          else Some (Ok path)
      end
  end.

(** [find_filename_that_doesnt_exist_yet] on a file system that refuses the
    paths [refused]: the search ends in [OSError] when it comes to such a
    path. With no path refused it is the search above. *)
Fixpoint find_filename_that_doesnt_exist_yet_checked (refused : Path -> bool)
    (depth : nat) (fs : FS) (file_path : Path) (suffix : string)
  : option (result Path) :=
  match depth with
  | 0 => None
  | S depth' =>
      match Pathlib.with_suffix file_path suffix with
      | Raise e => Some (Raise e)
      | Ok path =>
          match is_file_checked refused fs path with
          | Raise e => Some (Raise e)
          | Ok true =>
              match Pathlib.with_stem path (Pathlib.stem path +:+ "_") with
              | Raise e => Some (Raise e)
              | Ok next =>
                  find_filename_that_doesnt_exist_yet_checked refused depth' fs
                    next suffix
              end
          | Ok false => Some (Ok path)
          end
      end
  end.

(** [for x in xs: body] when the body can end in [RecursionError]. *)
Fixpoint for_each_within {A S : Type} (body : A -> S -> option (result S))
    (xs : list A) (s : S) : option (result S) :=
  match xs with
  | [] => Some (Ok s)
  | x :: xs' =>
      match body x s with
      | Some (Ok s') => for_each_within body xs' s'
      | other => other
      end
  end.

(** [str(x)] for [x] a string or [None]. *)
Definition str_opt_str (o : option string) : string :=
  match o with Some s => s | None => "None" end.

(** Truth value of [correct_extension]: [None] and [False] are false. *)
Definition truthy_opt_bool (o : option bool) : bool := default false o.

(** One turn of the loop of [fix_incorrect_file_extensions]. *)
Definition fix_one_incorrect_file_extension (depth : nat) (E : Externals)
    (entry : Path * list nat) (st : FS * WorldRefs)
  : option (result (FS * WorldRefs)) :=
  let '(img_path, refs) := entry in
  let '(fs, w) := st in
  match refs with
  | [] => Some (Raise IndexError)
  | first :: _ =>
      match the_ref w first with
      | Raise e => Some (Raise e)
      | Ok temp_ref =>
          if img_exists temp_ref && ref_img_in_world_folder temp_ref
             && negb (truthy_opt_bool (correct_extension temp_ref))
          then
            match get_img_ref_content w temp_ref with
            | Raise e => Some (Raise e)
            | Ok old_content =>
                let old_ref_path := ref_path temp_ref in
                let suffix := "." +:+ str_opt_str (img_encoding temp_ref) in
                match find_filename_that_doesnt_exist_yet depth fs old_ref_path
                        suffix with
                | None => None
                | Some (Raise e) => Some (Raise e)
                | Some (Ok new_ref_path) =>
                    Some (new_content ← content_replace old_content
                                          (Pathlib.str old_ref_path)
                                          (Pathlib.str new_ref_path);
                          fs1 ← copyfile fs old_ref_path new_ref_path;
                          w1 ← for_each (fun i w =>
                                           ref ← the_ref w i;
                                           repoint E fs1 w i ref new_ref_path
                                             new_content)
                                        refs w;
                          Ok (fs1, w1))
                end
            end
          else Some (Ok (fs, w))
      end
  end.

(** [WorldRefs.fix_incorrect_file_extensions] *)
Definition fix_incorrect_file_extensions (depth : nat) (E : Externals)
    (fs : FS) (w : WorldRefs) : option (result (FS * WorldRefs)) :=
  for_each_within (fix_one_incorrect_file_extension depth E)
    (get_refs_indexed_by_img w None) (fs, w).

(** *** Unused images *)

(** [Path(root).rglob(pattern)] over the files as they are: the enumerator
    of the paths under [root] whose name matches [pattern]. *)
Definition Rglob := FS -> Path -> string -> list Path.

(** [WorldRefs.find_all_images_in_world_folder] *)
Definition find_all_images_in_world_folder (rglob : Rglob) (fs : FS)
    (w : WorldRefs) : list Path :=
  let types := ["*.jpg"; "*.jpeg"; "*.png"; "*.webp"] in
  foldl (fun all_images_in_world_folder file_type =>
           all_images_in_world_folder ++ rglob fs (world_folder w) file_type)
        [] types.

(** One turn of the loop over the references: the counter of the image a
    reference resolves to goes up by one, if that image has a counter. *)
Definition count_reference (all_images : list (Path * nat)) (ref : ImageReference)
  : list (Path * nat) :=
  match img_path_on_disk ref with
  | Some p =>
      match adict_get all_images p with
      | Some n => adict_set all_images p (S n)
      | None => all_images
      end
  | None => all_images
  end.

(** [WorldRefs.get_all_unused_images_in_world_folder]: a counter for each
    image found, one more for each reference that resolves to it, and the
    images whose counter is still zero. *)
Definition get_all_unused_images_in_world_folder (rglob : Rglob) (fs : FS)
    (w : WorldRefs) : list Path :=
  let all_images_in_world_folder := find_all_images_in_world_folder rglob fs w in
  let all_images :=
    foldl (fun all_images img => adict_set all_images img 0) []
          all_images_in_world_folder in
  let all_images := foldl count_reference all_images (all_img_refs w) in
  omap (fun '(image, n) => if decide (n = 0) then Some image else None) all_images.

(** [WorldRefs.add_unused_images_to_trash_queue] *)
Definition add_unused_images_to_trash_queue (rglob : Rglob) (fs : FS)
    (w : WorldRefs) : WorldRefs :=
  let unused := get_all_unused_images_in_world_folder rglob fs w in
  with_trash_queue w (foldl (fun q img => set_add img q) (trash_queue w) unused).

(** *** Searching by path *)

(** The argument of [find_refs_by_img_path]: a path object, or a string as
    its docstring asks for. *)
Inductive PathOrStr :=
  | AsPath (p : Path)
  | AsStr (s : string).

(** [ref.ref_path == x]: a path equals no string. *)
Definition path_eq (p : Path) (x : PathOrStr) : bool :=
  match x with
  | AsPath q => bool_decide (p = q)
  | AsStr _ => false
  end.

(** [WorldRefs.find_refs_by_img_path], as positions. *)
Definition find_refs_by_img_path (w : WorldRefs) (img_path_to_search : PathOrStr)
  : list nat :=
  omap (fun '(i, ref) =>
          if path_eq (ref_path ref) img_path_to_search then Some i else None)
       (ref_objects w).

(** *** Emptying the trash, restoring the backups *)

(** [shutil.rmtree(folder)] for a folder that exists, as the trash folder
    does once [__init__] has made it: no file is left under the folder. *)
Definition rmtree (fs : FS) (folder : Path) : FS :=
  fun q => if Pathlib.in_parents folder q then None else fs q.

(** [WorldRefs.empty_trash] *)
Definition empty_trash (delete_unreferenced_images : bool) (fs : FS)
    (w : WorldRefs) : FS :=
  if delete_unreferenced_images then rmtree fs (trash w) else fs.

(** [shutil.move(src, dst)] for a destination that is no folder: the file
    takes the place of whatever was at [dst]. *)
Definition shutil_move (fs : FS) (src dst : Path) : result FS :=
  match fs src with
  | Some data => Ok (fs_write (fs_remove fs src) dst data)
  | None => Raise FileNotFoundError
  end.

(** One turn of the loop of [restore_bak_files]; [s[:-3]] drops the last
    three characters of the suffix. *)
Definition restore_one_bak_file (path : Path) (fs : FS) : result FS :=
  let suffix := Pathlib.suffix path in
  target ← Pathlib.with_suffix path (Str.take (String.length suffix - 3) suffix);
  shutil_move fs path target.

(** [WorldRefs.restore_bak_files] *)
Definition restore_bak_files (rglob : Rglob) (fs : FS) (w : WorldRefs)
  : result FS :=
  let db_paths := rglob fs (world_folder w) "*.dbbak" in
  let json_paths := rglob fs (world_folder w) "*.jsonbak" in
  for_each restore_one_bak_file (db_paths ++ json_paths) fs.

(** *** Loading the documents *)

(** What reading a text file does to line ends: [\r\n] and [\r] become
    [\n]. *)
Fixpoint universal_newlines (s : string) : string :=
  match s with
  | EmptyString => EmptyString
  | String a s' =>
      if Ascii.eqb a "013"
      then String "010"
             (match s' with
              | String b s'' =>
                  if Ascii.eqb b "010" then universal_newlines s''
                  else universal_newlines s'
              | EmptyString => EmptyString
              end)
      else String a (universal_newlines s')
  end.

(** [for line in file]: the lines of a text, each with its line end. *)
Fixpoint lines_of (s : string) : list string :=
  match s with
  | EmptyString => []
  | String a s' =>
      if Ascii.eqb a "010" then String a EmptyString :: lines_of s'
      else match lines_of s' with
           | [] => [String a EmptyString]
           | l :: ls => String a l :: ls
           end
  end.

(** [[f(x) for x in xs]] for an [f] that can raise. *)
Fixpoint map_result {A B : Type} (f : A -> result B) (xs : list A)
  : result (list B) :=
  match xs with
  | [] => Ok []
  | x :: xs' => y ← f x; ys ← map_result f xs'; Ok (y :: ys)
  end.

(** [open(path)] and reading the text. *)
Definition read_text (fs : FS) (path : Path) : result string :=
  match fs path with
  | Some data => Ok (universal_newlines data)
  | None => Raise FileNotFoundError
  end.

(** [WorldRefs.load_data]; [json_loads] is [json.loads], which raises a
    [ValueError] for a text that is no JSON value. *)
Definition load_data (rglob : Rglob) (json_loads : string -> result Json)
    (fs : FS) (world_folder : Path) : result Files :=
  db ← for_each (fun path files_db =>
                   if decide (path <> Pathlib.joinstr world_folder "data/settings.db")
                   then
                     text ← read_text fs path;
                     lines ← map_result json_loads (lines_of text);
                     Ok (adict_set files_db path lines)
                   else Ok files_db)
                (rglob fs world_folder "*.db") [];
  js ← for_each (fun path files_json =>
                   text ← read_text fs path;
                   v ← json_loads text;
                   Ok (adict_set files_json path [v]))
                (rglob fs world_folder "*.json") [];
  Ok (mkFiles js db).

(** *** The whole run *)

(** The nine calls of [one_liner_compress_world] on the object [refs] it
    has built from the checked inputs; the extension repair is the one pass
    that can end in [RecursionError]. *)
Definition run_passes (depth : nat) (rglob : Rglob) (E : Externals)
    (delete_unreferenced_images : bool) (fs : FS) (refs : WorldRefs)
  : option (result (FS * WorldRefs)) :=
  match try_to_fix_all_broken_refs E fs refs with
  | Raise e => Some (Raise e)
  | Ok (_, w1) =>
      match fix_incorrect_file_extensions depth E fs w1 with
      | None => None
      | Some (Raise e) => Some (Raise e)
      | Some (Ok (fs2, w2)) =>
          Some (w3 ← fix_all_sets_of_duplicated_images E fs2 w2;
                '(fs4, w4) ← convert_all_images_to_webp_and_update_refs E fs2 w3;
                w5 ← fix_all_sets_of_duplicated_images E fs4 w4;
                fs6 ← export_all_json_and_db_files E fs4 w5;
                let w6 := add_unused_images_to_trash_queue rglob fs6 w5 in
                fs7 ← move_all_imgs_in_trash_queue_to_trash E fs6 w6;
                Ok (empty_trash delete_unreferenced_images fs7 w6, w6))
      end
  end.

(** * Vocabulary of the statements *)

(** The backup of a document: the same folder, the name followed by [bak]. *)
Definition bak_of (p : Path) : Path :=
  mkPath (p_root p) (removelast (p_parts p) ++ [Pathlib.name p +:+ "bak"]).

(** A loaded document is a [.db] or a [.json] file ([load_data] globs for
    these two patterns). *)
Definition is_document_path (p : Path) : Prop :=
  Pathlib.suffix p = ".db" \/ Pathlib.suffix p = ".json".

(** The positions of an index by image. *)
Definition positions (g : ImgIndex) : list nat := concat g.*2.

(** The references that a set of duplicated images makes point to its
    first path, each with that path; and the paths it puts in the queue. *)
Definition repoint_tasks (main : Path) (l : list nat) : list (nat * Path) :=
  (fun i => (i, main)) <$> l.

Definition set_tasks (g : ImgIndex) : list (nat * Path) :=
  match g with
  | [] => []
  | (main, _) :: rest => rest ≫= (fun pl => repoint_tasks main pl.2)
  end.

Definition set_queued (g : ImgIndex) : list Path := (tail g).*1.

Definition pass_tasks (D : list (option string * ImgIndex)) : list (nat * Path) :=
  D ≫= (fun hg => set_tasks hg.2).

Definition pass_queued (D : list (option string * ImgIndex)) : list Path :=
  D ≫= (fun hg => set_queued hg.2).

(** [Effect T ps w w']: from [w] to [w'], the reference at every position
    of [T] was resolved again against the path given with it, every other
    reference is as it was, and the queue gained the paths [ps]. *)
Definition Effect (E : Externals) (fs : FS) (T : list (nat * Path))
    (ps : list Path) (w w' : WorldRefs) : Prop :=
  (forall i, i ∉ T.*1 -> all_img_refs w' !! i = all_img_refs w !! i)
  /\ (forall i main, (i, main) ∈ T ->
        exists r r', all_img_refs w !! i = Some r
          /\ set_editable_attributes E fs r main = Ok r'
          /\ all_img_refs w' !! i = Some r')
  /\ (forall p, p ∈ trash_queue w' <-> p ∈ trash_queue w \/ p ∈ ps).

(** The facts of a reference agree with the files when resolving its
    declared path again assigns what it already has. *)
Definition facts_agree (E : Externals) (fs : FS) (r : ImageReference) : Prop :=
  set_editable_attributes E fs r (ref_path r) = Ok r.

(** A reference holds the folders of its owner. *)
Definition owned_by (w : WorldRefs) (r : ImageReference) : Prop :=
  ref_world_folder r = world_folder w
  /\ ref_core_data_folder r = core_data_folder w.

(** ** Documents and addresses *)

(** The keys of every dictionary of a value are pairwise distinct, as the
    keys of a Python [dict] are. *)
Fixpoint keys_distinct (v : Json) : bool :=
  match v with
  | JList l => forallb keys_distinct l
  | JDict items =>
      bool_decide (NoDup items.*1)
      && forallb (fun kv => match kv with (_, x) => keys_distinct x end) items
  | _ => true
  end.

(** The value at an address; the value itself at the empty address. *)
Fixpoint get_at (d : Json) (a : list Key) : result Json :=
  match a with
  | [] => Ok d
  | k :: rest => d' ← getitem d k; get_at d' rest
  end.

(** What [dict_walker] yields for the elements of a list found under the
    key [key], and for one item of a dictionary. *)
Definition walk_elems (pre : list Key) (key : Key)
  : list Json -> nat -> list (list Key * Json) :=
  fix over_elems (vs : list Json) (i : nat) : list (list Key * Json) :=
    match vs with
    | [] => []
    | v :: vs' => dict_walker v (pre ++ [key; KInt i]) ++ over_elems vs' (S i)
    end.

Definition walk_value (pre : list Key) (key : Key) (value : Json)
  : list (list Key * Json) :=
  match value with
  | JDict _ => dict_walker value (pre ++ [key])
  | JList vs => walk_elems pre key vs 0
  | _ => [(pre ++ [key], value)]
  end.

(** Every leaf that [dict_walker] yields for [d] is found in [d] at the
    address yielded with it, the prefix [pre] apart. *)
Definition leaf_resolves (d : Json) : Prop :=
  forall pre a leaf, keys_distinct d = true -> (a, leaf) ∈ dict_walker d pre ->
    exists a', a = pre ++ a' /\ get_at d a' = Ok leaf
      /\ (a' = [] -> leaf = d /\ forall items, d <> JDict items).

(** ** Scanning *)

(** What a scan records in a reference made from the leaf [leaf] found at
    the address [a] of the record [line] of the document [path]. *)
Definition made_from (E : Externals) (w : WorldRefs) (t : FileType) (path : Path)
    (line : nat) (a : list Key) (leaf : Json) (r : ImageReference) : Prop :=
  owned_by w r
  /\ ref_file_type r = t /\ ref_file_path r = path /\ json_address r = a
  /\ exists s, leaf = JStr s /\ regex_img_exp_found s = true
       /\ img_ref_content_is_html r = soup_find E s
       /\ (if soup_find E s
           then ref_file_line r = (if decide (t = db) then Some line else None)
                /\ exists src, Some src ∈ soup_img_srcs E s
                     /\ ref_path r = Pathlib.parse src
           else ref_file_line r = (if decide (t = db) then Some line else Some 0)
                /\ ref_path r = Pathlib.parse s).

(** A reference comes from a leaf of a record of a document of [w]. *)
Definition provenance (E : Externals) (w : WorldRefs) (r : ImageReference) : Prop :=
  exists path records line content a leaf,
    (path, records) ∈ files_get (files w) (ref_file_type r)
    /\ records !! line = Some content
    /\ (a, leaf) ∈ dict_walker content []
    /\ made_from E w (ref_file_type r) path line a leaf r.

(** What a scan keeps of the world [w] it started from. *)
Definition scanned_from (E : Externals) (w v : WorldRefs) : Prop :=
  files v = files w /\ trash_queue v = trash_queue w
  /\ world_folder v = world_folder w /\ core_data_folder v = core_data_folder w
  /\ forall r, r ∈ all_img_refs v -> provenance E w r.

(** [all_img_refs_by_id] holds, for each id, the position of the reference
    registered last with it, and no entry for an id that no reference has. *)
Definition by_id_holds_last (w : WorldRefs) : Prop :=
  forall id,
    match adict_get (all_img_refs_by_id w) id with
    | Some i =>
        (exists r, all_img_refs w !! i = Some r /\ ref_id r = id)
        /\ forall j r, all_img_refs w !! j = Some r -> ref_id r = id -> j <= i
    | None => forall r, r ∈ all_img_refs w -> ref_id r <> id
    end.


(** ** File names *)

(** The file of the same folder named [n]. *)
Definition sibling (p : Path) (n : string) : Path :=
  mkPath (p_root p) (removelast (p_parts p) ++ [n]).

Fixpoint underscores (k : nat) : string :=
  match k with
  | 0 => ""
  | S k' => "_" +:+ underscores k'
  end.

(** The [k]-th name tried for [p] and the extension [e]: the stem of [p],
    [k] underscores, a dot and [e]. *)
Definition candidate (p : Path) (e : string) (k : nat) : Path :=
  sibling p (Pathlib.stem p +:+ underscores k +:+ "." +:+ e).

(** An extension without a dot or a slash, such as [png] or [jpeg]. *)
Definition plain_extension (e : string) : bool :=
  Str.truthy e && negb (Str.contains "." e) && negb (Str.contains "/" e).

(** A backup made by the export: a [.dbbak] or a [.jsonbak] file. *)
Definition is_backup_path (q : Path) : Prop :=
  Pathlib.suffix q = ".dbbak" \/ Pathlib.suffix q = ".jsonbak".

(** The path a backup is restored to: its suffix loses its last three
    characters. *)
Definition restored (q : Path) : Path :=
  sibling q (Pathlib.stem q +:+ Str.take (String.length (Pathlib.suffix q) - 3)
                                  (Pathlib.suffix q)).

(** ** Texts *)

Definition line_feed : string := String "010" EmptyString.

Definition carriage_return : string := String "013" EmptyString.

(** A record that is written and read back: its compact JSON is not empty,
    holds no raw line end, and is read as the record, with or without a
    line end after it. *)
Definition reads_back (E : Externals) (json_loads : string -> result Json)
    (v : Json) : Prop :=
  json_dumps E v <> ""
  /\ Str.contains line_feed (json_dumps E v) = false
  /\ Str.contains carriage_return (json_dumps E v) = false
  /\ json_loads (json_dumps E v) = Ok v
  /\ json_loads (json_dumps E v +:+ line_feed) = Ok v.

(** The lines of a text made of the pieces [ds] joined by line feeds. *)
Fixpoint with_line_ends (ds : list string) : list string :=
  match ds with
  | [] => []
  | [d] => [d]
  | d :: ds' => (d +:+ line_feed) :: with_line_ends ds'
  end.

(** * Sample worlds *)

Module Sample.

(** Stand-ins for the library functions, enough for the sample worlds: the
    digest of a file is its bytes behind a tag, so that two files have the
    same digest exactly when they have the same bytes; an image file starts
    with the name of its encoding; paths carry no percent sign and no
    character that [quote] escapes, so that quoting and unquoting change
    nothing; the only pattern matched is [.*literal.*] for a literal
    without operators. *)
Definition sniff (data : string) : option string :=
  if Str.startswith "PNG" data then Some "png"
  else if Str.startswith "JPG" data then Some "jpeg"
  else if Str.startswith "WEBP" data then Some "webp"
  else None.

(** The MIME type guessed from the extension. *)
Definition mime_of (path : string) : option string :=
  let ext := Str.lower (Pathlib.suffix (Pathlib.parse path)) in
  if decide (ext = ".png") then Some "image/png"
  else if decide (ext = ".jpg" \/ ext = ".jpeg") then Some "image/jpeg"
  else if decide (ext = ".webp") then Some "image/webp"
  else None.

(** The literal of a pattern [.*literal.*]. *)
Definition strip_dotstar (pattern : string) : string :=
  Str.take (String.length pattern - 4) (Str.drop 2 pattern).

Definition dq : string := String "034"%char EmptyString.

(** Compact JSON, for strings and keys that need no escape. *)
Fixpoint dumps (v : Json) : string :=
  match v with
  | JNull => "null"
  | JBool b => if b then "true" else "false"
  | JNum lit => lit
  | JStr s => dq +:+ s +:+ dq
  | JList l => "[" +:+ Str.join "," (map dumps l) +:+ "]"
  | JDict items =>
      "{" +:+ Str.join ","
                (map (fun kv =>
                        match kv with
                        | (KStr k, x) => dq +:+ k +:+ dq +:+ ":" +:+ dumps x
                        | (KInt n, x) => dq +:+ pretty n +:+ dq +:+ ":" +:+ dumps x
                        end) items) +:+ "}"
  end.

Definition ext (encoder : string -> FS -> result (FS * Z)) : Externals := {|
  md5_hexdigest := fun data => "md5:" +:+ data;
  sha256_hexdigest := fun s => "sha256:" +:+ s;
  imghdr_what := sniff;
  guess_type := mime_of;
  unquote := fun s => s;
  quote := fun s => s;
  repr_str := fun s => "'" +:+ s +:+ "'";
  soup_find := fun s => Str.startswith "<" s;
  soup_img_srcs := fun s =>
    if decide (s = "<img src='a.png'><img src='b.png'>")
    then [Some "a.png"; Some "b.png"] else [];
  re_match := fun pattern s => Str.contains (strip_dotstar pattern) s;
  json_dumps := dumps;
  subprocess_run := encoder
|}.

Definition failing_encoder (cmd : string) (fs : FS) : result (FS * Z) :=
  Ok (fs, 1%Z).

Definition P := Pathlib.parse.

Definition disk (l : list (string * string)) : FS :=
  fun p => adict_get (map (fun '(k, v) => (P k, v)) l) p.

Definition world (docs : Files) : WorldRefs :=
  mkWorld (P "/data") (P "worlds/w") (P "/core") "ffmpeg" (P "worlds/w/_trash")
    docs [] [] [].

(** A reference of the first record of [scenes.db], not resolved yet. *)
Definition fresh_ref (address : list Key) : ImageReference :=
  mkRef (P "worlds/w") (P "/core") (P "worlds/w/data/scenes.db") db (Some 0)
    address "id" false (P "") false None false None None false None None None
    false.

Definition no_encoder : Externals := ext failing_encoder.

(** [a.png] of the world folder, found on disk as written. *)
Definition found_ref : ImageReference :=
  mkRef (P "worlds/w") (P "/core") (P "worlds/w/data/scenes.db") db (Some 0)
    [KStr "img"] "id" false (P "worlds/w/a.png") true (Some (P "worlds/w/a.png"))
    true (Some "png") (Some "md5:PNG-bytes") false (Some (P "worlds/w/a.webp"))
    (Some false) (Some true) false.

(** A journal entry whose text shows two images. *)
Definition html_content : string := "<img src='a.png'><img src='b.png'>".

Definition journal : Path := P "worlds/w/data/journal.db".

Definition html_world : WorldRefs :=
  world (mkFiles [] [(journal, [JDict [(KStr "content", JStr html_content)]])]).

Definition html_world_scanned : WorldRefs :=
  Eval vm_compute in
    match find_refs_in_item no_encoder (disk []) journal db 0
            ([KStr "content"], JStr html_content) html_world with
    | Ok w => w
    | Raise _ => html_world
    end.

(** A world of one [.json] document and one [.db] document of two records. *)
Definition scenes : Path := P "worlds/w/data/scenes.db".

Definition world_json : Path := P "worlds/w/world.json".

Definition two_documents : Files :=
  mkFiles [(world_json, [JDict [(KStr "title", JStr "w")]])]
          [(scenes, [JDict [(KStr "name", JStr "first")];
                     JDict [(KStr "name", JStr "second")]])].

Definition two_documents_disk : FS :=
  disk [("worlds/w/world.json", "old json"); ("worlds/w/data/scenes.db", "old db")].

(** The world found by scanning documents [docs] over the files [fs]. *)
Definition scan (fs : FS) (docs : Files) : WorldRefs :=
  match find_all_img_references_in_world no_encoder fs (world docs) with
  | Ok w => w
  | Raise _ => world docs
  end.

(** One scene whose image is a PNG file of the world. *)
Definition png_disk : FS := disk [("worlds/w/a.png", "PNG-bytes")].

Definition png_world : WorldRefs :=
  Eval vm_compute in
    scan png_disk (mkFiles [] [(scenes, [JDict [(KStr "img", JStr "worlds/w/a.png")]])]).

(** One scene whose image is written under [modules], with a folder named
    [modules-art] further down; the file is under [worlds]. *)
Definition legacy_disk : FS := disk [("worlds/pack/modules-art/x.png", "PNG-bytes")].

Definition legacy_world : WorldRefs :=
  Eval vm_compute in
    scan legacy_disk
      (mkFiles [] [(scenes, [JDict [(KStr "img", JStr "modules/pack/modules-art/x.png")]])]).

(** The scenario of the legacy repair: [modules/foo/bar.png] is written,
    [worlds/foo/bar.png] exists. *)
Definition foo_disk : FS := disk [("worlds/foo/bar.png", "PNG-bytes")].

Definition foo_world : WorldRefs :=
  Eval vm_compute in
    scan foo_disk (mkFiles [] [(scenes, [JDict [(KStr "img", JStr "modules/foo/bar.png")]])]).

(** A queue that names a file of a sibling folder of the world folder. *)
Definition sibling_disk : FS := disk [("worlds/w-old/a.png", "PNG-bytes")].

Definition sibling_world : WorldRefs :=
  with_trash_queue (world (mkFiles [] [])) [P "worlds/w-old/a.png"].

(** Two scenes show the same image under two names; the copy is met first. *)
Definition east_disk : FS :=
  disk [("worlds/w/east.webp", "WEBP-bytes"); ("worlds/w/east_copy.webp", "WEBP-bytes")].

Definition east_world : WorldRefs :=
  Eval vm_compute in
    scan east_disk
      (mkFiles [] [(scenes, [JDict [(KStr "img", JStr "worlds/w/east_copy.webp")];
                             JDict [(KStr "img", JStr "worlds/w/east.webp")]])]).

Definition east_world_fixed : WorldRefs :=
  Eval vm_compute in
    match fix_all_sets_of_duplicated_images no_encoder east_disk east_world with
    | Ok w => w
    | Raise _ => east_world
    end.

(** Three scenes; [a.png] and [b.png] have the same bytes when the world is
    scanned, then [a.png] is overwritten with the bytes of [c.png]. *)
Definition abc_disk_scanned : FS :=
  disk [("worlds/w/a.png", "PNG-old"); ("worlds/w/b.png", "PNG-old");
        ("worlds/w/c.png", "PNG-new")].

Definition abc_disk_now : FS :=
  disk [("worlds/w/a.png", "PNG-new"); ("worlds/w/b.png", "PNG-old");
        ("worlds/w/c.png", "PNG-new")].

Definition abc_world : WorldRefs :=
  Eval vm_compute in
    scan abc_disk_scanned
      (mkFiles [] [(scenes, [JDict [(KStr "img", JStr "worlds/w/a.png")];
                             JDict [(KStr "img", JStr "worlds/w/b.png")];
                             JDict [(KStr "img", JStr "worlds/w/c.png")]])]).

(** A broken reference and a link to the web next to the two names of the
    same image. *)
Definition mixed_world : WorldRefs :=
  Eval vm_compute in
    scan east_disk
      (mkFiles [] [(scenes, [JDict [(KStr "img", JStr "worlds/w/missing.png")];
                             JDict [(KStr "img", JStr "http://example.com/a.png")];
                             JDict [(KStr "img", JStr "worlds/w/east_copy.webp")];
                             JDict [(KStr "img", JStr "worlds/w/east.webp")]])]).

(** An encoder that writes WEBP bytes to [dst] and exits with code 0. *)
Definition encoder_writing (dst : Path) (cmd : string) (fs : FS)
  : result (FS * Z) :=
  Ok (fs_write fs dst "WEBP-bytes", 0%Z).

(** The image [a.png] named in [world.json], the single-object document. *)
Definition json_world : WorldRefs :=
  Eval vm_compute in
    scan png_disk
      (mkFiles [(world_json, [JDict [(KStr "background", JStr "worlds/w/a.png")]])] []).





Definition json_ref : ImageReference :=
  Eval vm_compute in default (fresh_ref []) (all_img_refs json_world !! 0).

(** The dictionary of the docstrings of [dict_walker] and of the two
    functions that read and edit an address. *)
Definition my_dict : Json :=
  JDict [(KStr "part_1", JList [JNum "5"; JNum "6"; JNum "7"]);
         (KStr "part_2", JList [JNum "3"; JNum "6";
                                JDict [(KStr "a", JNum "999"); (KStr "b", JNum "777");
                                       (KStr "c", JNum "123")]])].

Definition my_dict_edited : Json :=
  JDict [(KStr "part_1", JList [JNum "5"; JNum "6"; JStr "DOG"]);
         (KStr "part_2", JList [JNum "3"; JNum "6";
                                JDict [(KStr "a", JNum "999"); (KStr "b", JNum "777");
                                       (KStr "c", JNum "123")]])].

(** The stand-ins with another HTML parser and another percent-decoder. *)
Definition ext_with (srcs : string -> list (option string))
    (decode : string -> string) : Externals := {|
  md5_hexdigest := md5_hexdigest no_encoder;
  sha256_hexdigest := sha256_hexdigest no_encoder;
  imghdr_what := imghdr_what no_encoder;
  guess_type := guess_type no_encoder;
  unquote := decode;
  quote := quote no_encoder;
  repr_str := repr_str no_encoder;
  soup_find := soup_find no_encoder;
  soup_img_srcs := srcs;
  re_match := re_match no_encoder;
  json_dumps := json_dumps no_encoder;
  subprocess_run := subprocess_run no_encoder
|}.

Definition scan_with (E : Externals) (fs : FS) (docs : Files) : WorldRefs :=
  match find_all_img_references_in_world E fs (world docs) with
  | Ok w => w
  | Raise _ => world docs
  end.

(** [town.jpeg] holds PNG bytes; a scene names it and a journal entry
    shows it. *)
Definition town_html : string := "<p>Town</p><img src='worlds/w/town.jpeg'>".

Definition town_ext : Externals :=
  ext_with (fun s => if decide (s = town_html) then [Some "worlds/w/town.jpeg"]
                     else [])
           (fun s => s).

Definition town_disk : FS := disk [("worlds/w/town.jpeg", "PNG-bytes")].

Definition town_documents : Files :=
  mkFiles [] [(scenes, [JDict [(KStr "img", JStr "worlds/w/town.jpeg")];
                        JDict [(KStr "text", JStr town_html)]])].

Definition town_world : WorldRefs :=
  Eval vm_compute in scan_with town_ext town_disk town_documents.

Definition town_ref : ImageReference :=
  Eval vm_compute in default (fresh_ref []) (all_img_refs town_world !! 0).

Definition town_disk_fixed : FS :=
  fs_write town_disk (P "worlds/w/town.png") "PNG-bytes".

Definition town_world_fixed : WorldRefs :=
  Eval vm_compute in
    match fix_incorrect_file_extensions 1000 town_ext town_disk town_world with
    | Some (Ok (_, w)) => w
    | _ => town_world
    end.

(** [my town.jpeg] holds PNG bytes and is written percent-encoded. *)
Definition decoding_ext : Externals :=
  ext_with (fun _ => []) (Str.replace "%20" " ").

Definition my_town_disk : FS := disk [("worlds/w/my town.jpeg", "PNG-bytes")].

Definition my_town_world : WorldRefs :=
  Eval vm_compute in
    scan_with decoding_ext my_town_disk
      (mkFiles [] [(scenes, [JDict [(KStr "img", JStr "worlds/w/my%20town.jpeg")]])]).

Definition my_town_ref : ImageReference :=
  Eval vm_compute in default (fresh_ref []) (all_img_refs my_town_world !! 0).

(** One image written in two ways, as it is named and percent-encoded. *)
Definition my_img_disk : FS := disk [("worlds/w/my img.webp", "WEBP-bytes")].

Definition my_img_world : WorldRefs :=
  Eval vm_compute in
    scan_with decoding_ext my_img_disk
      (mkFiles [] [(scenes, [JDict [(KStr "img", JStr "worlds/w/my img.webp")];
                             JDict [(KStr "img", JStr "worlds/w/my%20img.webp")]])]).

(** A file whose encoding neither its bytes nor its name tell. *)
Definition bak_disk : FS := disk [("worlds/w/a.png.bak", "old bytes")].

Definition bak_world : WorldRefs :=
  Eval vm_compute in
    scan bak_disk
      (mkFiles [] [(scenes, [JDict [(KStr "img", JStr "worlds/w/a.png.bak")]])]).

(** The legacy scenario, repaired. *)
Definition foo_world_fixed : WorldRefs :=
  Eval vm_compute in
    match try_to_fix_all_broken_refs no_encoder foo_disk foo_world with
    | Ok (_, w) => w
    | Raise _ => foo_world
    end.

(** [fnmatch] for a pattern [*.ext]: the name ends with [.ext]. *)
Definition matches (pattern name : string) : bool :=
  let ext := Str.drop 1 pattern in
  (String.length ext <=? String.length name)%nat
  && bool_decide (Str.drop (String.length name - String.length ext) name = ext).

(** An enumerator over a folder that holds the paths [listing] at most. *)
Definition rglob_of (listing : list string) : Rglob := fun fs root pattern =>
  filter (fun p => is_file fs p = true /\ Pathlib.in_parents root p = true
                   /\ matches pattern (Pathlib.name p) = true)
         (P <$> listing).

(** A reader of JSON texts that knows the values [table]. *)
Definition loads (table : list Json) (text : string) : result Json :=
  match list_find (fun v => text = dumps v
                            \/ text = dumps v +:+ String "010" EmptyString) table with
  | Some (_, v) => Ok v
  | None => Raise ValueError
  end.

Definition two_documents_listing : list string :=
  ["worlds/w/world.json"; "worlds/w/world.jsonbak";
   "worlds/w/data/scenes.db"; "worlds/w/data/scenes.dbbak"].

Definition two_documents_exported : FS :=
  match export_all_json_and_db_files no_encoder two_documents_disk
          (world two_documents) with
  | Ok fs => fs
  | Raise _ => two_documents_disk
  end.

Definition two_documents_records : list Json :=
  [JDict [(KStr "title", JStr "w")]; JDict [(KStr "name", JStr "first")];
   JDict [(KStr "name", JStr "second")]].

(** Two tokens of the same name in two folders, both in the queue. *)
Definition tokens_disk : FS :=
  disk [("worlds/w/a/token.png", "PNG-one"); ("worlds/w/b/token.png", "PNG-two")].

Definition tokens_world : WorldRefs :=
  with_trash_queue (world (mkFiles [] []))
    [P "worlds/w/a/token.png"; P "worlds/w/b/token.png"].

(** A world with nothing to repair: one scene, its image a [.webp] file. *)
Definition settled_documents : Files :=
  mkFiles [] [(scenes, [JDict [(KStr "img", JStr "worlds/w/a.webp")]])].

Definition settled_disk : FS :=
  disk [("worlds/w/data/scenes.db", "old db"); ("worlds/w/a.webp", "WEBP-bytes")].

Definition settled_listing : list string :=
  ["worlds/w/data/scenes.db"; "worlds/w/data/scenes.dbbak"; "worlds/w/a.webp"].

Definition settled_world : WorldRefs :=
  Eval vm_compute in scan settled_disk settled_documents.

Definition settled_exported : FS :=
  match export_all_json_and_db_files no_encoder settled_disk settled_world with
  | Ok fs => fs
  | Raise _ => settled_disk
  end.

(** Two scenes over an empty disk: the image of the first is missing, the
    image of the second is written with a leading [./] and lies in a folder
    named [httpdocs]. *)
Definition httpdocs_world : WorldRefs :=
  Eval vm_compute in
    scan (disk [])
      (mkFiles [] [(scenes, [JDict [(KStr "img", JStr "worlds/w/missing.png")];
                             JDict [(KStr "img", JStr "./httpdocs/a.png")]])]).

(** [missing.png], looked for and not found. *)
Definition missing_ref : ImageReference :=
  Eval vm_compute in
    match set_editable_attributes no_encoder (disk []) (fresh_ref [KStr "img"])
            (P "worlds/w/missing.png") with
    | Ok r => r
    | Raise _ => fresh_ref [KStr "img"]
    end.

(** A world whose single-object document is a file named [.json]. *)
Definition bare_json : Path := P "worlds/w/.json".

Definition bare_documents : Files :=
  mkFiles [(bare_json, [JDict [(KStr "title", JStr "w")]])]
          [(scenes, [JDict [(KStr "name", JStr "first")]])].

Definition bare_disk : FS :=
  disk [("worlds/w/.json", dumps (JDict [(KStr "title", JStr "w")]));
        ("worlds/w/data/scenes.db", dumps (JDict [(KStr "name", JStr "first")]))].







End Sample.

(** * Properties *)

(** ** Exceptions and loops *)

Lemma bind_Ok {A B : Type} (m : result A) (f : A -> result B) (b : B) :
  m ≫= f = Ok b -> exists a, m = Ok a /\ f a = Ok b.
Proof. destruct m as [a|e]; simpl; [eauto | discriminate]. Qed.

(** Split every successful bind among the hypotheses. *)
Ltac inv_bind :=
  repeat match goal with
  | H : _ ≫= _ = Ok _ |- _ =>
      let a := fresh "a" in
      let Ha := fresh "Ha" in
      apply bind_Ok in H; destruct H as (a & Ha & H)
  | H : Ok _ = Ok _ |- _ => injection H as H; try subst
  | H : Raise _ = Ok _ |- _ => discriminate H
  end.

Lemma for_each_cons {A S : Type} (body : A -> S -> result S) x xs (s : S) :
  for_each body (x :: xs) s = (body x s ≫= for_each body xs).
Proof. reflexivity. Qed.

Lemma for_each_invariant {A S : Type} (I : S -> Prop) (body : A -> S -> result S) xs :
  (forall x s s', x ∈ xs -> I s -> body x s = Ok s' -> I s') ->
  forall s s', I s -> for_each body xs s = Ok s' -> I s'.
Proof.
  induction xs as [|x xs IH]; intros Hbody s s' Hs Hrun; simpl in Hrun.
  - by inv_bind.
  - inv_bind. apply (IH (fun y u u' Hy => Hbody y u u' (list_elem_of_further _ _ _ Hy)) a);
      [|done]. by apply (Hbody x s a); [left| |].
Qed.

Lemma bind_singleton {A B : Type} (f : A -> B) (l : list A) :
  l ≫= (fun x => [f x]) = f <$> l.
Proof. induction l as [|x l IH]; [done|]. csimpl. by rewrite IH. Qed.

Lemma bind_nil {A B : Type} (l : list A) : l ≫= (fun _ => @nil B) = [].
Proof. induction l as [|x l IH]; [done|]. csimpl. by rewrite IH. Qed.

(** ** Dictionaries and sets *)

Section adict_facts.
Context {K V : Type} `{EqDecision K}.
Implicit Types (d : list (K * V)) (k : K) (v : V).

Lemma adict_get_set_eq d k v : adict_get (adict_set d k v) k = Some v.
Proof.
  induction d as [|[k' v'] d IH]; simpl.
  - by rewrite decide_True.
  - destruct (decide (k' = k)) as [->|Hne]; simpl.
    + by rewrite decide_True.
    + by rewrite decide_False.
Qed.

Lemma adict_get_set_ne d k k' v :
  k' <> k -> adict_get (adict_set d k v) k' = adict_get d k'.
Proof.
  intros Hne. induction d as [|[k0 v0] d IH]; simpl.
  - by rewrite decide_False.
  - destruct (decide (k0 = k)) as [->|Hne0]; simpl.
    + by rewrite !decide_False.
    + destruct (decide (k0 = k')); done.
Qed.

Lemma adict_get_Some_elem_of d k v : adict_get d k = Some v -> (k, v) ∈ d.
Proof.
  induction d as [|[k0 v0] d IH]; simpl; [done|].
  destruct (decide (k0 = k)) as [->|Hne].
  - intros [= ->]. by left.
  - intros H'. right. auto.
Qed.

Lemma adict_get_None d k : adict_get d k = None <-> k ∉ d.*1.
Proof.
  induction d as [|[k0 v0] d IH]; simpl.
  - split; [intros _; apply not_elem_of_nil|done].
  - rewrite not_elem_of_cons. destruct (decide (k0 = k)) as [->|Hne].
    + split; [done|intros [? _]; done].
    + rewrite IH. split; [intros ?; split; [congruence|done]|intros [_ ?]; done].
Qed.

Lemma elem_of_adict_get d k v : NoDup d.*1 -> (k, v) ∈ d -> adict_get d k = Some v.
Proof.
  induction d as [|[k0 v0] d IH]; simpl; [intros _ Hin; by apply elem_of_nil in Hin|].
  intros Hnd Hin. apply NoDup_cons in Hnd as [Hk0 Hnd].
  apply elem_of_cons in Hin as [Heq|Hin].
  - injection Heq as -> ->. by rewrite decide_True.
  - destruct (decide (k0 = k)) as [->|Hne]; [|auto].
    exfalso. apply Hk0. apply list_elem_of_fmap. by exists (k, v).
Qed.

(** Setting a key keeps the keys and their order; a new key goes last. *)
Lemma adict_set_keys d k v :
  (adict_set d k v).*1 = if adict_mem d k then d.*1 else d.*1 ++ [k].
Proof.
  unfold adict_mem. induction d as [|[k0 v0] d IH]; csimpl; [done|].
  destruct (decide (k0 = k)) as [->|Hne]; csimpl.
  - done.
  - rewrite IH. by destruct (bool_decide _).
Qed.

Lemma adict_set_NoDup d k v : NoDup d.*1 -> NoDup (adict_set d k v).*1.
Proof.
  intros Hnd. rewrite adict_set_keys. unfold adict_mem.
  destruct (adict_get d k) as [v0|] eqn:Hget.
  - by rewrite bool_decide_eq_true_2 by eauto.
  - rewrite bool_decide_eq_false_2 by (intros [? ?]; done).
    apply NoDup_app. split; [done|]. split; [|apply NoDup_singleton].
    intros x Hx Hx'. apply list_elem_of_singleton in Hx' as ->.
    by apply adict_get_None in Hget.
Qed.

End adict_facts.

Lemma elem_of_set_add {A : Type} `{EqDecision A} (x y : A) (s : list A) :
  y ∈ set_add x s <-> y ∈ s \/ y = x.
Proof.
  unfold set_add. destruct (decide (x ∈ s)).
  - split; [by left|]. intros [?| ->]; done.
  - rewrite elem_of_app, list_elem_of_singleton. done.
Qed.


(** ** Strings and file names *)

Lemma str_app_cons a s t : String a s +:+ t = String a (s +:+ t).
Proof. reflexivity. Qed.

Lemma str_app_assoc s t u : (s +:+ t) +:+ u = s +:+ (t +:+ u).
Proof.
  induction s as [|a s IH]; [done|]. rewrite !str_app_cons. by rewrite IH.
Qed.

Lemma str_take_drop n s : Str.take n s +:+ Str.drop n s = s.
Proof.
  revert s. induction n as [|n IH]; intros [|a s]; simpl; try done.
  rewrite str_app_cons. f_equal. apply IH.
Qed.

Lemma str_length_app s t :
  String.length (s +:+ t) = String.length s + String.length t.
Proof.
  induction s as [|a s IH]; [done|]. rewrite str_app_cons. simpl. by rewrite IH.
Qed.

Lemma str_length_drop n s : String.length (Str.drop n s) = String.length s - n.
Proof. revert s. induction n as [|n IH]; intros [|a s]; simpl; auto. Qed.

Lemma str_drop_app n s t :
  n <= String.length s -> Str.drop n (s +:+ t) = Str.drop n s +:+ t.
Proof.
  revert s. induction n as [|n IH]; intros [|a s] Hn; simpl in *; try done; try lia.
  apply IH. lia.
Qed.

Lemma str_rfind_app c s t :
  Str.rfind c t = None -> Str.rfind c (s +:+ t) = Str.rfind c s.
Proof.
  intros Ht. induction s as [|a s IH]; [done|].
  rewrite str_app_cons. simpl. by rewrite IH.
Qed.

Lemma str_rfind_lt c s i : Str.rfind c s = Some i -> i < String.length s.
Proof.
  revert i. induction s as [|a s IH]; intros i; simpl; [done|].
  destruct (Str.rfind c s) as [j|].
  - intros [= <-]. specialize (IH j eq_refl). lia.
  - destruct (Ascii.eqb a c); [|done]. intros [= <-]. lia.
Qed.

Lemma str_app_inv_tail s1 s2 t : s1 +:+ t = s2 +:+ t -> s1 = s2.
Proof.
  intros Heq.
  assert (String.length s1 = String.length s2) as Hlen.
  { apply (f_equal String.length) in Heq. rewrite !str_length_app in Heq. lia. }
  revert s2 Heq Hlen. induction s1 as [|a s1 IH]; intros [|b s2] Heq Hlen;
    simpl in *; try done.
  rewrite !str_app_cons in Heq. injection Heq as -> Heq. f_equal.
  apply IH; [done|lia].
Qed.

(** A name with a suffix is its stem followed by the suffix. *)
Lemma suffix_cases p :
  Pathlib.suffix p <> "" ->
  exists i, Str.rfind "." (Pathlib.name p) = Some i
    /\ 0 < i < String.length (Pathlib.name p) - 1
    /\ Pathlib.suffix p = Str.drop i (Pathlib.name p).
Proof.
  unfold Pathlib.suffix.
  destruct (Str.rfind "." (Pathlib.name p)) as [i|]; [|done].
  destruct (bool_decide (0 < i)) eqn:H1; [|done].
  destruct (bool_decide (i < _)) eqn:H2; [|done]. simpl.
  apply bool_decide_eq_true in H1, H2. intros _. exists i. split; [done|].
  split; [lia|done].
Qed.

Lemma name_nonempty_parts p :
  Pathlib.name p <> "" -> p_parts p = removelast (p_parts p) ++ [Pathlib.name p].
Proof.
  unfold Pathlib.name. intros H. apply app_removelast_last.
  intros Hnil. rewrite Hnil in H. done.
Qed.

Lemma bak_path_appends p :
  Pathlib.suffix p = ".db" \/ Pathlib.suffix p = ".json" ->
  bak_path p = Ok (bak_of p).
Proof.
  intros Hs.
  destruct (suffix_cases p) as (i & Hfind & Hi & Hsuf).
  { destruct Hs as [-> | ->]; done. }
  assert (Pathlib.name p <> "") as Hname.
  { intros Heq. rewrite Heq in Hi. simpl in Hi. lia. }
  unfold bak_path, Pathlib.with_suffix.
  assert (Str.take (String.length (Pathlib.name p)
                    - String.length (Pathlib.suffix p)) (Pathlib.name p)
          +:+ Pathlib.suffix p = Pathlib.name p) as Hcut.
  { rewrite Hsuf, str_length_drop.
    replace (String.length (Pathlib.name p) - (String.length (Pathlib.name p) - i))
      with i by lia.
    apply str_take_drop. }
  rewrite (bool_decide_eq_false_2 (Pathlib.name p = "")) by done.
  unfold bak_of. destruct Hs as [Hs|Hs]; rewrite Hs in *; simpl;
    do 4 f_equal; rewrite <- str_app_assoc; simpl in Hcut; by rewrite Hcut.
Qed.

Lemma bak_of_suffix p :
  Pathlib.suffix p <> "" ->
  Pathlib.suffix (bak_of p) = Pathlib.suffix p +:+ "bak".
Proof.
  intros Hs. destruct (suffix_cases p Hs) as (i & Hfind & Hi & Hsuf).
  unfold Pathlib.suffix at 1.
  assert (Pathlib.name (bak_of p) = Pathlib.name p +:+ "bak") as ->.
  { unfold Pathlib.name, bak_of. simpl. by rewrite last_last. }
  rewrite str_rfind_app by done. rewrite Hfind, str_length_app. simpl.
  rewrite bool_decide_eq_true_2 by lia. rewrite bool_decide_eq_true_2 by lia.
  simpl. rewrite str_drop_app by lia. by rewrite Hsuf.
Qed.

Lemma bak_of_inj p q :
  Pathlib.name p <> "" -> Pathlib.name q <> "" -> bak_of p = bak_of q -> p = q.
Proof.
  intros Hp Hq Heq. unfold bak_of in Heq. injection Heq as Hroot Hparts.
  apply app_inj_tail in Hparts as [Hinit Hname].
  apply str_app_inv_tail in Hname.
  assert (p_parts p = p_parts q) as Hpp.
  { rewrite (name_nonempty_parts p Hp), (name_nonempty_parts q Hq).
    by rewrite Hinit, Hname. }
  destruct p, q; simpl in *; by subst.
Qed.

(** ** Resolution *)

Lemma resolve_on_disk_None E fs core p :
  resolve_on_disk E fs core p = None <->
  is_file fs p = false /\ is_file fs (core // p) = false
  /\ is_file fs (Pathlib.parse (unquote E (Pathlib.str p))) = false.
Proof.
  unfold resolve_on_disk.
  destruct (is_file fs p); [split; [done|intros (?&?&?); done]|].
  destruct (is_file fs (core // p)); [split; [done|intros (?&?&?); done]|].
  destruct (is_file fs (Pathlib.parse _)); split; try done.
  intros (?&?&?); done.
Qed.

Lemma resolve_on_disk_is_file E fs core p d :
  resolve_on_disk E fs core p = Some d -> is_file fs d = true.
Proof.
  unfold resolve_on_disk.
  destruct (is_file fs p) eqn:H1; [congruence|].
  destruct (is_file fs (core // p)) eqn:H2; [congruence|].
  destruct (is_file fs (Pathlib.parse _)) eqn:H3; congruence.
Qed.

(** What a resolution that finds no file assigns. *)
Lemma set_editable_attributes_not_found E fs r0 p :
  resolve_on_disk E fs (ref_core_data_folder r0) p = None ->
  exists r, set_editable_attributes E fs r0 p = Ok r
    /\ ref_path r = p /\ img_path_on_disk r = None /\ img_exists r = false
    /\ img_hash r = img_hash r0
    /\ img_ref_external_web_link r = Str.startswith "http" (Pathlib.str p).
Proof.
  intros H. unfold set_editable_attributes. rewrite H.
  eexists; split; [reflexivity|]. simpl. done.
Qed.

(** What a resolution that finds a file assigns. *)
Lemma set_editable_attributes_found E fs r0 p d r :
  resolve_on_disk E fs (ref_core_data_folder r0) p = Some d ->
  set_editable_attributes E fs r0 p = Ok r ->
  exists data, fs d = Some data
    /\ ref_path r = p /\ img_path_on_disk r = Some d /\ img_exists r = true
    /\ ref_img_in_world_folder r = Pathlib.in_parents (ref_world_folder r0) p
    /\ img_hash r = (if Pathlib.in_parents (ref_world_folder r0) p
                     then Some (md5_hexdigest E data) else None).
Proof.
  intros H. unfold set_editable_attributes. rewrite H.
  destruct (fs d) as [data|]; [|discriminate].
  intros Hr. inv_bind. exists data. simpl. done.
Qed.

(** The attributes that [set_editable_attributes] never assigns, and the
    declared path it assigns. *)
Lemma set_editable_attributes_fixed E fs r0 p r :
  set_editable_attributes E fs r0 p = Ok r ->
  ref_world_folder r = ref_world_folder r0
  /\ ref_core_data_folder r = ref_core_data_folder r0
  /\ ref_file_path r = ref_file_path r0
  /\ ref_file_type r = ref_file_type r0
  /\ ref_file_line r = ref_file_line r0
  /\ json_address r = json_address r0
  /\ ref_id r = ref_id r0
  /\ ref_path r = p.
Proof.
  unfold set_editable_attributes.
  destruct (resolve_on_disk _ _ _ _) as [d|].
  - destruct (fs d); [|discriminate]. intros H. inv_bind. simpl. done.
  - intros H. inv_bind. simpl. done.
Qed.

(** Resolving a path whose own reference agrees with the files and has a
    digest gives that digest to any reference of the same owner that has
    it already. *)
Lemma set_editable_attributes_same_hash E fs r0 r r' h :
  facts_agree E fs r0 -> img_hash r0 = Some h ->
  ref_world_folder r = ref_world_folder r0 ->
  ref_core_data_folder r = ref_core_data_folder r0 ->
  img_hash r = Some h ->
  set_editable_attributes E fs r (ref_path r0) = Ok r' ->
  img_hash r' = Some h.
Proof.
  unfold facts_agree. intros Hagree Hh0 Hwf Hcore Hh Hset.
  destruct (resolve_on_disk E fs (ref_core_data_folder r0) (ref_path r0))
    as [d|] eqn:Hres.
  - destruct (set_editable_attributes_found E fs r0 _ d r0 Hres Hagree)
      as (data & Hdata & _ & _ & _ & _ & Hhash0).
    rewrite <- Hcore in Hres.
    destruct (set_editable_attributes_found E fs r _ d r' Hres Hset)
      as (data' & Hdata' & _ & _ & _ & _ & Hhash).
    rewrite Hhash, Hwf. rewrite Hdata in Hdata'. injection Hdata' as <-.
    by rewrite <- Hhash0.
  - rewrite <- Hcore in Hres.
    destruct (set_editable_attributes_not_found E fs r _ Hres)
      as (r'' & Hr'' & _ & _ & _ & Hhash & _).
    rewrite Hset in Hr''. injection Hr'' as <-. by rewrite Hhash.
Qed.

(** X2. Resolution is idempotent: right after a reference was resolved
    for a path, resolving it again for its declared path, over the same
    files, assigns exactly the facts it has. *)
Theorem resolution_is_idempotent E fs r0 p r :
  set_editable_attributes E fs r0 p = Ok r ->
  ref_path r = p /\ facts_agree E fs r.
Proof.
  intros Hr. split.
  { by apply set_editable_attributes_fixed in Hr as (_ & _ & _ & _ & _ & _ & _ & ?). }
  revert Hr. unfold facts_agree, set_editable_attributes.
  destruct (resolve_on_disk E fs (ref_core_data_folder r0) p) as [d|] eqn:Hres.
  - destruct (fs d) as [data|] eqn:Hdata; [|done].
    destruct (mime_subtype E d) as [mime|] eqn:Hmime; [|done]. simpl.
    destruct (Pathlib.with_stem p (webp_stem E d)) as [q|] eqn:Hstem; [|done]. simpl.
    destruct (Pathlib.with_suffix q ".webp") as [q'|] eqn:Hsuf; [|done]. simpl.
    intros [= <-]. simpl. rewrite Hres, Hdata, Hmime. simpl.
    rewrite Hstem. simpl. by rewrite Hsuf.
  - intros [= <-]. simpl. by rewrite Hres.
Qed.

Lemma resolution_is_idempotent_witness :
  ref_path Sample.found_ref = Sample.P "worlds/w/a.png"
  /\ facts_agree Sample.no_encoder Sample.png_disk Sample.found_ref.
Proof.
  apply (resolution_is_idempotent Sample.no_encoder Sample.png_disk
           (Sample.fresh_ref [KStr "img"]) (Sample.P "worlds/w/a.png")).
  reflexivity.
Defined.

(** X3. A resolution that finds no file leaves the digest, the [.webp]
    flag and the [.webp] path as they were: a reference that was resolved
    before keeps the digest of the file it pointed to while [img_exists]
    is false. *)
Theorem failed_resolution_keeps_old_hash E fs r0 p :
  is_file fs p = false ->
  is_file fs (ref_core_data_folder r0 // p) = false ->
  is_file fs (Pathlib.parse (unquote E (Pathlib.str p))) = false ->
  exists r, set_editable_attributes E fs r0 p = Ok r
    /\ img_exists r = false /\ img_path_on_disk r = None
    /\ img_hash r = img_hash r0 /\ is_webp r = is_webp r0
    /\ webp_ref_path r = webp_ref_path r0.
Proof.
  intros H1 H2 H3. unfold set_editable_attributes.
  rewrite (proj2 (resolve_on_disk_None E fs _ p)) by done.
  eexists. split; [reflexivity|]. simpl. done.
Qed.

Lemma failed_resolution_keeps_old_hash_witness :
  exists r,
    set_editable_attributes Sample.no_encoder Sample.png_disk Sample.found_ref
      (Sample.P "worlds/w/gone.png") = Ok r
    /\ img_exists r = false /\ img_path_on_disk r = None
    /\ img_hash r = img_hash Sample.found_ref
    /\ is_webp r = is_webp Sample.found_ref
    /\ webp_ref_path r = webp_ref_path Sample.found_ref.
Proof.
  apply (failed_resolution_keeps_old_hash Sample.no_encoder Sample.png_disk
           Sample.found_ref (Sample.P "worlds/w/gone.png")); reflexivity.
Defined.

(** *** The content hash *)

(** C8, as stated, fails: a path written under the world folder that exists
    only under the core data folder is found there, and its digest is
    taken although the file on disk is not inside the world folder. *)
Lemma hash_taken_for_core_data_file :
  exists r,
    set_editable_attributes Sample.no_encoder
      (Sample.disk [("/core/worlds/w/a.png", "PNG-bytes")])
      (Sample.fresh_ref [KStr "img"]) (Sample.P "worlds/w/a.png") = Ok r
    /\ img_hash r = Some "md5:PNG-bytes"
    /\ img_path_on_disk r = Some (Sample.P "/core/worlds/w/a.png")
    /\ Pathlib.in_parents (Sample.P "worlds/w") (Sample.P "/core/worlds/w/a.png") = false.
Proof. eexists. split; [vm_compute; reflexivity|]. vm_compute. done. Qed.

(** C8, amended. A resolution that finds the file sets the digest, and sets
    it exactly when the world folder is among the parents of the path as
    declared; for a reference that had no digest, a digest after the
    resolution means that the file was found on disk, that the declared
    path is under the world folder, and that the digest is that of the
    file found. *)
Theorem hash_defined_only_for_declared_world_paths E fs r0 p r :
  set_editable_attributes E fs r0 p = Ok r ->
  (img_exists r = true ->
     (is_Some (img_hash r) <-> Pathlib.in_parents (ref_world_folder r0) p = true))
  /\ (img_hash r0 = None -> is_Some (img_hash r) ->
        img_exists r = true /\ ref_img_in_world_folder r = true
        /\ exists d data, img_path_on_disk r = Some d /\ fs d = Some data
             /\ img_hash r = Some (md5_hexdigest E data)).
Proof.
  intros Hr.
  destruct (resolve_on_disk E fs (ref_core_data_folder r0) p) as [d|] eqn:Hres.
  - destruct (set_editable_attributes_found E fs r0 p d r Hres Hr)
      as (data & Hdata & _ & Hd & Hex & Hin & Hh).
    rewrite Hh, Hin. split.
    + intros _. destruct (Pathlib.in_parents _ _); split; done.
    + intros _ Hs. destruct (Pathlib.in_parents _ _); [|by destruct Hs].
      split; [done|]. split; [done|]. by exists d, data.
  - destruct (set_editable_attributes_not_found E fs r0 p Hres)
      as (r' & Hr' & _ & _ & Hex & Hh & _).
    rewrite Hr in Hr'. injection Hr' as <-. split.
    + rewrite Hex. done.
    + intros H0 Hs. rewrite Hh, H0 in Hs. by destruct Hs.
Qed.

Lemma hash_defined_only_for_declared_world_paths_witness :
  (img_exists (Sample.found_ref) = true ->
     (is_Some (img_hash Sample.found_ref) <->
      Pathlib.in_parents (ref_world_folder (Sample.fresh_ref [KStr "img"]))
        (Sample.P "worlds/w/a.png") = true))
  /\ (img_hash (Sample.fresh_ref [KStr "img"]) = None ->
      is_Some (img_hash Sample.found_ref) ->
        img_exists Sample.found_ref = true
        /\ ref_img_in_world_folder Sample.found_ref = true
        /\ exists d data, img_path_on_disk Sample.found_ref = Some d
             /\ Sample.disk [("worlds/w/a.png", "PNG-bytes")] d = Some data
             /\ img_hash Sample.found_ref = Some (md5_hexdigest Sample.no_encoder data)).
Proof.
  apply (hash_defined_only_for_declared_world_paths Sample.no_encoder
           (Sample.disk [("worlds/w/a.png", "PNG-bytes")])
           (Sample.fresh_ref [KStr "img"]) (Sample.P "worlds/w/a.png")).
  reflexivity.
Defined.

(** *** Broken references *)

Lemma elem_of_get_broken_refs w i :
  i ∈ get_broken_refs w <->
  exists ref, all_img_refs w !! i = Some ref
    /\ ((img_path_on_disk ref = None /\ img_ref_external_web_link ref = false)
        \/ exists p, img_path_on_disk ref = Some p /\ p ∈ trash_queue w).
Proof.
  unfold get_broken_refs, ref_objects. rewrite list_elem_of_omap. split.
  - intros ([j ref] & Hin & Hf).
    apply elem_of_lookup_imap in Hin as (k & r & Heq & Hk).
    injection Heq as -> ->.
    destruct (_ || _) eqn:Hb; [|discriminate]. injection Hf as <-.
    exists r. split; [done|].
    apply orb_true_iff in Hb as [Hb|Hb].
    + apply andb_true_iff in Hb as [H1 H2].
      apply bool_decide_eq_true in H1. apply negb_true_iff in H2. by left.
    + destruct (img_path_on_disk r) as [p|]; [|discriminate].
      apply bool_decide_eq_true in Hb. right. by exists p.
  - intros (ref & Hi & Hcase). exists (i, ref). split.
    + apply elem_of_lookup_imap. by exists i, ref.
    + destruct Hcase as [[H1 H2]|(p & H1 & H2)].
      * rewrite H1, H2. done.
      * rewrite H1. rewrite (bool_decide_eq_true_2 (p ∈ trash_queue w)) by done.
        by rewrite orb_true_r.
Qed.

(** C5, as stated, fails: [./httpdocs/a.png] does not start with [http] and
    is found at none of the three places, yet the path object made of it is
    [httpdocs/a.png], whose string starts with [http]: the reference is
    flagged a link and is not listed as broken. *)
Lemma dot_slash_http_path_is_not_broken :
  Str.startswith "http" "./httpdocs/a.png" = false
  /\ find_all_img_references_in_world Sample.no_encoder (Sample.disk [])
       (Sample.world
          (mkFiles [] [(Sample.scenes,
                        [JDict [(KStr "img", JStr "worlds/w/missing.png")];
                         JDict [(KStr "img", JStr "./httpdocs/a.png")]])]))
     = Ok Sample.httpdocs_world
  /\ exists r,
       all_img_refs Sample.httpdocs_world !! 1 = Some r
       /\ ref_path r = Pathlib.parse "./httpdocs/a.png"
       /\ Pathlib.str (ref_path r) = "httpdocs/a.png"
       /\ is_file (Sample.disk []) (ref_path r) = false
       /\ is_file (Sample.disk []) (ref_core_data_folder r // ref_path r) = false
       /\ is_file (Sample.disk [])
            (Pathlib.parse (unquote Sample.no_encoder (Pathlib.str (ref_path r))))
          = false
       /\ img_path_on_disk r = None
       /\ img_ref_external_web_link r = true
       /\ get_broken_refs Sample.httpdocs_world = [0].
Proof.
  split; [reflexivity|]. split; [reflexivity|]. eexists.
  split; [reflexivity|]. repeat (split; [reflexivity|]). reflexivity.
Qed.

(** C5, amended. A reference that a resolution leaves with a declared path
    found at none of the three places (as written, under the core data
    folder, percent-decoded), and whose declared path, as the path object
    the reference holds, has a string that does not start with [http], is
    listed among the broken references of every world that holds it. *)
Theorem unresolved_non_link_is_broken E fs r0 p r :
  set_editable_attributes E fs r0 p = Ok r ->
  is_file fs p = false ->
  is_file fs (ref_core_data_folder r0 // p) = false ->
  is_file fs (Pathlib.parse (unquote E (Pathlib.str p))) = false ->
  Str.startswith "http" (Pathlib.str p) = false ->
  ref_path r = p
  /\ forall w i, all_img_refs w !! i = Some r -> i ∈ get_broken_refs w.
Proof.
  intros Hset H1 H2 H3 Hlink.
  destruct (set_editable_attributes_not_found E fs r0 p)
    as (r' & Hr & Hp & Hd & _ & _ & Hl).
  { apply resolve_on_disk_None. done. }
  rewrite Hset in Hr. injection Hr as <-. split; [done|]. intros w i Hi.
  apply elem_of_get_broken_refs. exists r. split; [done|]. left.
  split; [done|]. by rewrite Hl.
Qed.

Lemma unresolved_non_link_is_broken_witness :
  ref_path Sample.missing_ref = Sample.P "worlds/w/missing.png"
  /\ forall w i, all_img_refs w !! i = Some Sample.missing_ref ->
       i ∈ get_broken_refs w.
Proof.
  apply (unresolved_non_link_is_broken Sample.no_encoder (Sample.disk [])
           (Sample.fresh_ref [KStr "img"]) (Sample.P "worlds/w/missing.png"));
    reflexivity.
Defined.

(** ** Reference ids *)

(** The id of a new reference: a digest of the folders, the document, its
    kind, the line and the address, whatever the declared path. *)
Lemma ImageReference_init_facts E fs w t path line item ref_path_str r :
  ImageReference_init E fs w t path line item ref_path_str = Ok r ->
  ref_id r = sha256_hexdigest E
               (Pathlib.str (string_to_hash E (world_folder w) (core_data_folder w)
                               path t line item.1))
  /\ ref_path r = Pathlib.parse ref_path_str.
Proof.
  unfold ImageReference_init. intros H. inv_bind.
  apply set_editable_attributes_fixed in H as (_ & _ & _ & _ & _ & _ & Hid & Hp).
  simpl in Hid. done.
Qed.

(** The loop over the distinct [src] paths of one HTML leaf. *)
Lemma html_leaf_loop E fs t path line address content srcs :
  forall w w',
  for_each (fun img_ref w =>
              ref_obj ← ImageReference_init E fs w t path line (address, content) img_ref;
              Ok (register_ref w ref_obj)) srcs w = Ok w' ->
  world_folder w' = world_folder w /\ core_data_folder w' = core_data_folder w
  /\ exists created,
       all_img_refs w' = all_img_refs w ++ created
       /\ ref_path <$> created = Pathlib.parse <$> srcs
       /\ (forall r, r ∈ created ->
             ref_id r = sha256_hexdigest E
                          (Pathlib.str (string_to_hash E (world_folder w)
                                          (core_data_folder w) path t line address)))
       /\ (srcs <> [] ->
             adict_get (all_img_refs_by_id w')
               (sha256_hexdigest E
                  (Pathlib.str (string_to_hash E (world_folder w)
                                  (core_data_folder w) path t line address)))
             = Some (length (all_img_refs w') - 1)).
Proof.
  induction srcs as [|src srcs IH]; intros w w' Hrun; simpl in Hrun.
  - inv_bind. repeat split; try done. exists []. rewrite app_nil_r.
    repeat split; try done. intros r Hr. by apply elem_of_nil in Hr.
  - inv_bind. rename a0 into r.
    apply ImageReference_init_facts in Ha0 as [Hid Hpath]. simpl in Hid.
    pose proof (IH _ _ Hrun) as (Hwf & Hcore & created & Hrefs & Hpaths & Hids & Hlast).
    simpl in Hwf, Hcore, Hrefs, Hids, Hlast.
    repeat split; try done. exists (r :: created).
    split; [by rewrite Hrefs, <- app_assoc|].
    split; [csimpl; by rewrite Hpath, Hpaths|].
    split.
    + intros r' Hr'. apply elem_of_cons in Hr' as [->|Hr']; [done|by apply Hids].
    + intros _. destruct srcs as [|src' srcs].
      * simpl in Hrun. inv_bind. simpl. rewrite Hid, adict_get_set_eq.
        rewrite length_app. simpl. f_equal. lia.
      * by apply Hlast.
Qed.

(** C9. The id of a reference is the digest of the string of one path:
    the world folder, the core data folder and the document path joined,
    then the document kind, the line ([None] in a [.json] document), the
    address written as a list, and [img_ref]. Every reference made at one
    document, line and address has that id, whatever its leaf and its
    declared image path. So the references made from one HTML leaf, one
    for each distinct [src], all carry one id, and [all_img_refs_by_id]
    holds for that id the reference made last. *)
Theorem html_leaf_refs_share_one_id E fs w path t line address content srcs w' :
  regex_img_exp_found content = true ->
  soup_find E content = true ->
  unique_img_refs_in_html E content = Ok srcs ->
  find_refs_in_item E fs path t line (address, JStr content) w = Ok w' ->
  let hashed :=
    Pathlib.joinstr
      (Pathlib.joinstr
         (Pathlib.joinstr
            (Pathlib.joinstr (world_folder w // core_data_folder w // path)
               (match t with json => "json" | db => "db" end))
            (match t with db => pretty line | json => "None" end))
         ("[" +:+ Str.join ", " (map (fun k => match k with
                                               | KStr s => repr_str E s
                                               | KInt n => pretty n
                                               end) address) +:+ "]"))
      "img_ref" in
  let id := sha256_hexdigest E (Pathlib.str hashed) in
  (forall fs0 leaf declared r,
     ImageReference_init E fs0 w t path (if decide (t = db) then Some line else None)
       (address, leaf) declared = Ok r ->
     ref_id r = id)
  /\ exists created,
       all_img_refs w' = all_img_refs w ++ created
       /\ ref_path <$> created = Pathlib.parse <$> srcs
       /\ (forall r, r ∈ created -> ref_id r = id)
       /\ (srcs <> [] ->
             adict_get (all_img_refs_by_id w') id
             = Some (length (all_img_refs w') - 1)).
Proof.
  intros Hre Hhtml Hsrcs Hrun hashed id.
  assert (id = sha256_hexdigest E
                 (Pathlib.str (string_to_hash E (world_folder w) (core_data_folder w)
                                 path t (if decide (t = db) then Some line else None)
                                 address))) as ->.
  { unfold id, hashed, string_to_hash, str_address, file_type_str, str_opt_nat.
    by destruct t. }
  split.
  - intros fs0 leaf declared r Hr. by apply ImageReference_init_facts in Hr as [-> _].
  - unfold find_refs_in_item in Hrun.
    simpl in Hrun. rewrite Hre, Hhtml, Hsrcs in Hrun. simpl in Hrun.
    apply html_leaf_loop in Hrun as (_ & _ & created & H). by exists created.
Qed.

Lemma html_leaf_refs_share_one_id_witness :
  let hashed :=
    Pathlib.joinstr
      (Pathlib.joinstr
         (Pathlib.joinstr
            (Pathlib.joinstr (world_folder Sample.html_world
                              // core_data_folder Sample.html_world
                              // Sample.journal) "db")
            (pretty 0))
         ("[" +:+ Str.join ", " [repr_str Sample.no_encoder "content"] +:+ "]"))
      "img_ref" in
  let id := sha256_hexdigest Sample.no_encoder (Pathlib.str hashed) in
  (forall fs0 leaf declared r,
     ImageReference_init Sample.no_encoder fs0 Sample.html_world db Sample.journal
       (Some 0) ([KStr "content"], leaf) declared = Ok r ->
     ref_id r = id)
  /\ exists created,
       all_img_refs Sample.html_world_scanned
       = all_img_refs Sample.html_world ++ created
       /\ ref_path <$> created = Pathlib.parse <$> ["a.png"; "b.png"]
       /\ (forall r, r ∈ created -> ref_id r = id)
       /\ (["a.png"; "b.png"] <> [] ->
             adict_get (all_img_refs_by_id Sample.html_world_scanned) id
             = Some (length (all_img_refs Sample.html_world_scanned) - 1)).
Proof.
  apply (html_leaf_refs_share_one_id Sample.no_encoder (Sample.disk [])
           Sample.html_world Sample.journal db 0 [KStr "content"]
           Sample.html_content ["a.png"; "b.png"] Sample.html_world_scanned);
    reflexivity.
Defined.

Example two_refs_one_id :
  ref_id <$> all_img_refs Sample.html_world_scanned
  = ["sha256:/core/worlds/w/data/journal.db/db/0/['content']/img_ref";
     "sha256:/core/worlds/w/data/journal.db/db/0/['content']/img_ref"]
  /\ all_img_refs_by_id Sample.html_world_scanned
     = [("sha256:/core/worlds/w/data/journal.db/db/0/['content']/img_ref", 1)].
Proof. split; reflexivity. Qed.

(** ** Pushing content into a document *)

Lemma getitem_setitem obj k v obj' :
  setitem obj k v = Ok obj' -> getitem obj' k = Ok v.
Proof.
  destruct obj as [| | | |l|items]; try done.
  - destruct k as [s|n]; [done|]. simpl.
    destruct (decide (n < length l)); [|done]. intros [= <-]. simpl.
    by rewrite list_lookup_insert_eq.
  - simpl. intros [= <-]. simpl. by rewrite adict_get_set_eq.
Qed.

Lemma edit_nested_JStr s a v d :
  edit_nested_dict_recursive (JStr s) a v = Ok d -> False.
Proof.
  revert s d. induction a as [|k a IH]; intros s d; [done|].
  destruct a as [|k2 a].
  - simpl. by destruct k.
  - change (edit_nested_dict_recursive (JStr s) (k :: k2 :: a) v)
      with (d0 ← getitem (JStr s) k;
            d' ← edit_nested_dict_recursive d0 (k2 :: a) v; Ok (JStr s)).
    intros H. inv_bind. destruct k as [|n]; simpl in Ha; [done|].
    destruct (str_index s n); [|done]. inv_bind. by eapply IH.
Qed.

Lemma edit_nested_JList l a v d :
  edit_nested_dict_recursive (JList l) a v = Ok d -> exists l', d = JList l'.
Proof.
  destruct a as [|k a]; [done|]. destruct a as [|k2 a].
  - simpl. destruct k as [|n]; [done|].
    destruct (decide (n < length l)); [|done]. intros [= <-]. eauto.
  - change (edit_nested_dict_recursive (JList l) (k :: k2 :: a) v)
      with (d0 ← getitem (JList l) k;
            d' ← edit_nested_dict_recursive d0 (k2 :: a) v; setitem (JList l) k d').
    intros H. inv_bind. destruct k as [|n]; [done|]. simpl in H.
    destruct (decide (n < length l)); [|done]. injection H as <-. eauto.
Qed.

(** Reading an address after an edit at that address gives the new value. *)
Lemma edit_then_get d a v d' :
  edit_nested_dict_recursive d a v = Ok d' ->
  get_nested_dict_recursive d' a = Ok v.
Proof.
  revert d d'. induction a as [|k a IH]; intros d d'; [done|].
  destruct a as [|k2 a].
  - simpl. apply getitem_setitem.
  - change (edit_nested_dict_recursive d (k :: k2 :: a) v)
      with (d0 ← getitem d k;
            d1 ← edit_nested_dict_recursive d0 (k2 :: a) v;
            match d with
            | JDict _ | JList _ => setitem d k d1
            | _ => Ok d
            end).
    change (get_nested_dict_recursive d' (k :: k2 :: a))
      with (d0 ← getitem d' k; get_nested_dict_recursive d0 (k2 :: a)).
    intros H. inv_bind. rename a0 into c, a1 into c'.
    assert (setitem d k c' = Ok d') as Hset.
    { destruct d; try done; simpl in Ha; try done.
      destruct k as [|n]; [done|].
      destruct (str_index s n); [|done]. inv_bind. by apply edit_nested_JStr in Ha0. }
    rewrite (getitem_setitem _ _ _ _ Hset). simpl. by apply (IH c).
Qed.

Lemma files_get_set f t d : files_get (files_set f t d) t = d.
Proof. by destruct t. Qed.

(** Pushing content changes documents only. *)
Lemma push_updated_content_to_world_frame w ref c w' :
  push_updated_content_to_world w ref c = Ok w' ->
  all_img_refs w' = all_img_refs w /\ trash_queue w' = trash_queue w.
Proof.
  unfold push_updated_content_to_world.
  destruct (adict_get _ _) as [records|]; [|done].
  destruct (ref_file_type ref).
  - intros H. inv_bind. destruct a; inv_bind; done.
  - destruct (ref_file_line ref) as [n|]; [|done].
    destruct (records !! n); [|done]. intros H. inv_bind. done.
Qed.

(** After a push, the reference reads the pushed content. *)
Lemma push_then_get w ref c w' :
  push_updated_content_to_world w ref c = Ok w' ->
  get_img_ref_content w' ref = Ok (JStr c).
Proof.
  unfold push_updated_content_to_world, get_img_ref_content, file_record.
  destruct (adict_get (files_get (files w) (ref_file_type ref)) (ref_file_path ref))
    as [records|] eqn:Hdoc; [|done].
  destruct (ref_file_type ref) eqn:Ht.
  - intros H. inv_bind.
    destruct (edit_nested_JList _ _ _ _ Ha) as [records' ->]. inv_bind. simpl.
    rewrite adict_get_set_eq. simpl. by eapply edit_then_get.
  - destruct (ref_file_line ref) as [n|]; [|done].
    destruct (records !! n) as [d|] eqn:Hn; [|done]. intros H. inv_bind. simpl.
    rewrite adict_get_set_eq.
    rewrite list_lookup_insert_eq by (by eapply lookup_lt_Some). simpl.
    by eapply edit_then_get.
Qed.

Lemma repoint_refs E fs w i ref new_ref_path c w' :
  repoint E fs w i ref new_ref_path c = Ok w' ->
  exists ref', set_editable_attributes E fs ref new_ref_path = Ok ref'
    /\ all_img_refs w' = <[i:=ref']> (all_img_refs w)
    /\ trash_queue w' = trash_queue w.
Proof.
  unfold repoint. intros H. inv_bind. exists a. split; [done|].
  by apply push_updated_content_to_world_frame in H as [-> ->].
Qed.

(** X1. A reference found in a [.json] document cannot be read or
    written: [load_data] stores the document as a list of one record, the
    reference keeps that list and not the record, and the first element of
    its address is a key, so indexing raises [TypeError]. Every repair or
    conversion that reaches such a reference ends the run. *)
Theorem json_document_reference_raises_TypeError w ref k rest records :
  ref_file_type ref = json ->
  json_address ref = KStr k :: rest ->
  adict_get (files_json (files w)) (ref_file_path ref) = Some records ->
  get_img_ref_content w ref = Raise TypeError
  /\ forall c, push_updated_content_to_world w ref c = Raise TypeError.
Proof.
  intros Ht Haddr Hdoc. split.
  - unfold get_img_ref_content, file_record. rewrite Ht. simpl. rewrite Hdoc.
    simpl. rewrite Haddr. by destruct rest.
  - intros c. unfold push_updated_content_to_world. rewrite Ht. simpl.
    rewrite Hdoc, Haddr. by destruct rest.
Qed.

Lemma json_document_reference_raises_TypeError_witness :
  get_img_ref_content Sample.json_world Sample.json_ref = Raise TypeError
  /\ forall c, push_updated_content_to_world Sample.json_world Sample.json_ref c
               = Raise TypeError.
Proof.
  apply (json_document_reference_raises_TypeError Sample.json_world
           Sample.json_ref "background" []
           [JDict [(KStr "background", JStr "worlds/w/a.png")]]);
    reflexivity.
Defined.

(** ** Legacy paths *)

(** A reference whose path string does not start with [modules], or whose
    path with [modules] replaced is no file, is left as it is. *)
Lemma try_to_fix_one_broken_ref_gives_up E fs w i ref :
  all_img_refs w !! i = Some ref ->
  Str.take 7 (Pathlib.str (ref_path ref)) <> "modules"
  \/ is_file fs (Pathlib.parse (Str.replace "modules" "worlds"
                                  (Pathlib.str (ref_path ref)))) = false ->
  try_to_fix_one_broken_ref E fs w i = Ok (false, w).
Proof.
  intros Hi Hcase. unfold try_to_fix_one_broken_ref, the_ref. rewrite Hi.
  cbn -[Str.replace Str.take]. destruct Hcase as [Hne|Hfile].
  - by rewrite bool_decide_eq_false_2.
  - rewrite Hfile. by destruct (bool_decide _).
Qed.

(** A repaired reference has its facts assigned for the path with
    [modules] replaced, and reads back its old content with the old path
    string replaced by the new one. *)
Lemma try_to_fix_one_broken_ref_repairs E fs w i ref w' :
  all_img_refs w !! i = Some ref ->
  try_to_fix_one_broken_ref E fs w i = Ok (true, w') ->
  let new_ref_path :=
    Pathlib.parse (Str.replace "modules" "worlds" (Pathlib.str (ref_path ref))) in
  is_file fs new_ref_path = true
  /\ exists c ref',
       get_img_ref_content w ref = Ok (JStr c)
       /\ set_editable_attributes E fs ref new_ref_path = Ok ref'
       /\ all_img_refs w' = <[i:=ref']> (all_img_refs w)
       /\ get_img_ref_content w' ref'
          = Ok (JStr (Str.replace (Pathlib.str (ref_path ref))
                        (Pathlib.str new_ref_path) c)).
Proof.
  intros Hi. unfold try_to_fix_one_broken_ref, the_ref. rewrite Hi.
  cbn -[Str.replace Str.take]. destruct (bool_decide _); [|done].
  destruct (is_file fs _) eqn:Hfile; [|done].
  intros H. inv_bind. split; [done|].
  destruct a as [| | |c| |]; try done. simpl in Ha0. inv_bind.
  unfold repoint in Ha1. inv_bind. rename a into ref'.
  exists c, ref'. split; [done|]. split; [done|].
  split; [by apply push_updated_content_to_world_frame in Ha1 as [-> _]|].
  by apply push_then_get in Ha1.
Qed.

(** The scenario of the repair: the declared path [modules/foo/bar.png]
    becomes [worlds/foo/bar.png], in the reference and in the document. *)
Example legacy_scenario :
  exists w',
    try_to_fix_one_broken_ref Sample.no_encoder Sample.foo_disk Sample.foo_world 0
    = Ok (true, w')
    /\ ref_path <$> all_img_refs w' = [Sample.P "worlds/foo/bar.png"]
    /\ img_exists <$> all_img_refs w' = [true]
    /\ files_db (files w')
       = [(Sample.scenes, [JDict [(KStr "img", JStr "worlds/foo/bar.png")]])].
Proof. eexists. split; [reflexivity|]. vm_compute. done. Qed.

(** C4, on the code: the declared path is [modules/pack/modules-art/x.png]
    and does not resolve; with its first part replaced it is
    [worlds/pack/modules-art/x.png], which is a file. The code replaces
    every occurrence of [modules] in the string, looks for
    [worlds/pack/worlds-art/x.png], finds nothing and changes nothing. *)
Example legacy_replace_reaches_later_parts :
  (ref_path <$> all_img_refs Sample.legacy_world
   = [Sample.P "modules/pack/modules-art/x.png"])
  /\ (img_exists <$> all_img_refs Sample.legacy_world = [false])
  /\ is_file Sample.legacy_disk (Sample.P "worlds/pack/modules-art/x.png") = true
  /\ Str.replace "modules" "worlds" "modules/pack/modules-art/x.png"
     = "worlds/pack/worlds-art/x.png"
  /\ try_to_fix_one_broken_ref Sample.no_encoder Sample.legacy_disk
       Sample.legacy_world 0 = Ok (false, Sample.legacy_world).
Proof. vm_compute. done. Qed.

(** ** Conversion *)

(** When the encoder fails for a path (a non-zero exit code, or no
    destination file), the turn of the loop leaves every reference and
    every document as it was and still puts the path into the trash
    queue. *)
Lemma convert_one_image_failure E fs w path first rest temp_ref webp fs1 code :
  all_img_refs w !! first = Some temp_ref ->
  is_webp temp_ref = false -> img_exists temp_ref = true ->
  ref_img_in_world_folder temp_ref = true ->
  webp_ref_path temp_ref = Some webp ->
  is_file fs webp = false ->
  create_webp_copy E w fs temp_ref = Ok (fs1, code) ->
  code <> 0%Z \/ is_file fs1 webp = false ->
  convert_one_image E (path, first :: rest) (fs, w)
  = Ok (fs1, with_trash_queue w (set_add path (trash_queue w))).
Proof.
  intros Hfirst Hw He Hin Hwebp Hno Hrun Hfail.
  unfold convert_one_image, the_ref. rewrite Hfirst. simpl.
  rewrite Hw, He, Hin. simpl. unfold get_webp_ref_path. rewrite Hwebp. simpl.
  rewrite Hno. simpl. rewrite Hrun. simpl.
  destruct Hfail as [Hcode|Hfile].
  - by rewrite bool_decide_eq_false_2.
  - by rewrite Hfile, andb_false_r.
Qed.

(** C1, on the code: the scene's image [a.png] is in the world folder, is
    no [.webp] and has no [.webp] copy; the encoder exits with code 1 and
    writes nothing. The reference and the document are left as they were,
    and [a.png] is in the trash queue all the same. *)
Example failed_conversion_is_queued :
  exists fs' w',
    convert_all_images_to_webp_and_update_refs Sample.no_encoder
      Sample.png_disk Sample.png_world = Ok (fs', w')
    /\ is_file fs' (Sample.P "worlds/w/a.webp") = false
    /\ all_img_refs w' = all_img_refs Sample.png_world
    /\ files w' = files Sample.png_world
    /\ trash_queue Sample.png_world = []
    /\ trash_queue w' = [Sample.P "worlds/w/a.png"].
Proof. do 2 eexists. split; [reflexivity|]. vm_compute. done. Qed.

(** The conversion of [a.png] when the encoder works: named in a [.db]
    document, the reference and the document end on [a.webp] and [a.png]
    is queued; named in a [.json] document, the run ends with
    [TypeError]. *)
Example conversion_in_db_and_in_json_documents :
  (exists fs' w',
     convert_all_images_to_webp_and_update_refs
       (Sample.ext (Sample.encoder_writing (Sample.P "worlds/w/a.webp")))
       Sample.png_disk Sample.png_world = Ok (fs', w')
     /\ ref_path <$> all_img_refs w' = [Sample.P "worlds/w/a.webp"]
     /\ files_db (files w')
        = [(Sample.scenes, [JDict [(KStr "img", JStr "worlds/w/a.webp")]])]
     /\ trash_queue w' = [Sample.P "worlds/w/a.png"])
  /\ convert_all_images_to_webp_and_update_refs
       (Sample.ext (Sample.encoder_writing (Sample.P "worlds/w/a.webp")))
       Sample.png_disk Sample.json_world = Raise TypeError.
Proof.
  split; [|reflexivity].
  do 2 eexists. split; [reflexivity|]. vm_compute. done.
Qed.

(** ** Export *)

Lemma document_is_no_backup p q :
  is_document_path p -> is_document_path q -> q <> bak_of p.
Proof.
  intros Hp Hq ->. unfold is_document_path in Hq.
  assert (Pathlib.suffix p <> "") as Hne by (destruct Hp as [Hp|Hp]; by rewrite Hp).
  rewrite (bak_of_suffix p Hne) in Hq.
  destruct Hp as [Hp|Hp], Hq as [Hq|Hq]; rewrite Hp in Hq; discriminate Hq.
Qed.

Lemma document_name_nonempty p : is_document_path p -> Pathlib.name p <> "".
Proof.
  intros Hp Hname. unfold is_document_path, Pathlib.suffix in Hp.
  rewrite Hname in Hp. simpl in Hp. by destruct Hp.
Qed.

Lemma export_one_file_writes E p c fs data :
  is_document_path p -> fs p = Some data ->
  export_one_file E (p, c) fs
  = Ok (fs_write (fs_write fs (bak_of p) data) p (export_text E c)).
Proof.
  intros Hp Hdata. unfold export_one_file.
  rewrite (bak_path_appends p Hp). simpl. unfold copyfile. by rewrite Hdata.
Qed.

Lemma export_loop E docs :
  forall fs,
  NoDup docs.*1 ->
  (forall p c, (p, c) ∈ docs -> is_Some (fs p) /\ is_document_path p) ->
  exists fs',
    for_each (export_one_file E) docs fs = Ok fs'
    /\ (forall p c, (p, c) ∈ docs ->
          fs' (bak_of p) = fs p /\ fs' p = Some (export_text E c))
    /\ (forall x, x ∉ docs.*1 -> x ∉ bak_of <$> docs.*1 -> fs' x = fs x).
Proof.
  induction docs as [|[p c] docs IH]; intros fs Hnd Hdocs.
  - exists fs. split; [done|]. split; [|done].
    intros p c Hin. by apply elem_of_nil in Hin.
  - csimpl in Hnd. apply NoDup_cons in Hnd as [Hp_fresh Hnd].
    destruct (Hdocs p c) as [[data Hdata] Hp]; [by left|].
    set (fs1 := fs_write (fs_write fs (bak_of p) data) p (export_text E c)).
    assert (forall q c', (q, c') ∈ docs -> q <> p /\ is_document_path q) as Hrest.
    { intros q c' Hin. split; [|apply (Hdocs q c'); by right].
      intros ->. apply Hp_fresh. apply list_elem_of_fmap. by exists (p, c'). }
    assert (forall x, x <> p -> x <> bak_of p -> fs1 x = fs x) as Hfs1.
    { intros x H1 H2. unfold fs1, fs_write. by rewrite !decide_False. }
    destruct (IH fs1 Hnd) as (fs' & Hrun & Hwritten & Hframe).
    { intros q c' Hin. destruct (Hrest q c' Hin) as [Hne Hq]. split; [|done].
      rewrite Hfs1; [|done|by apply document_is_no_backup].
      apply (Hdocs q c'). by right. }
    exists fs'. split.
    { rewrite for_each_cons, (export_one_file_writes E p c fs data Hp Hdata).
      exact Hrun. }
    assert (p ∉ bak_of <$> docs.*1) as Hp_nobak.
    { intros Hin. apply list_elem_of_fmap in Hin as (q & Heq & Hq).
      apply list_elem_of_fmap in Hq as ([q' c'] & -> & Hq).
      destruct (Hrest q' c' Hq) as [_ Hdoc].
      by apply (document_is_no_backup q' p Hdoc Hp). }
    assert (bak_of p ∉ docs.*1) as Hbak_nodoc.
    { intros Hin. apply list_elem_of_fmap in Hin as ([q c'] & Heq & Hq).
      simpl in Heq. destruct (Hrest q c' Hq) as [_ Hdoc].
      by apply (document_is_no_backup p q Hp Hdoc). }
    assert (bak_of p ∉ bak_of <$> docs.*1) as Hbak_fresh.
    { intros Hin. apply list_elem_of_fmap in Hin as (q & Heq & Hq).
      apply list_elem_of_fmap in Hq as ([q' c'] & -> & Hq). simpl in Heq.
      destruct (Hrest q' c' Hq) as [Hne Hdoc]. apply Hne. symmetry.
      apply bak_of_inj; [by apply document_name_nonempty..|done]. }
    split.
    + intros q c' Hin. apply elem_of_cons in Hin as [Heq|Hin].
      * injection Heq as -> ->.
        rewrite (Hframe (bak_of p) Hbak_nodoc Hbak_fresh).
        rewrite (Hframe p Hp_fresh Hp_nobak).
        unfold fs1, fs_write.
        rewrite (decide_False (P := bak_of p = p))
          by (by apply not_eq_sym, document_is_no_backup).
        by rewrite !decide_True.
      * destruct (Hwritten q c' Hin) as [Hb Hq]. split; [|done].
        rewrite Hb. destruct (Hrest q c' Hin) as [Hne Hdoc].
        apply Hfs1; [done|by apply document_is_no_backup].
    + intros x Hx Hxb. csimpl in *.
      apply not_elem_of_cons in Hx as [Hx1 Hx2].
      apply not_elem_of_cons in Hxb as [Hxb1 Hxb2].
      rewrite (Hframe x Hx2 Hxb2). by apply Hfs1.
Qed.



(** C6, at a document named [.json]: the enumerator lists it for the
    pattern [*.json] and it is loaded, but such a name has no suffix, the
    backup path asked for is the name with the suffix [bak], which is no
    suffix, and the export ends in [ValueError]: no backup of that document
    is made and nothing is written. *)
Lemma export_stops_at_a_bare_extension_name :
  load_data (Sample.rglob_of ["worlds/w/.json"; "worlds/w/data/scenes.db"])
    (Sample.loads [JDict [(KStr "title", JStr "w")];
                   JDict [(KStr "name", JStr "first")]])
    Sample.bare_disk (Sample.P "worlds/w")
  = Ok Sample.bare_documents
  /\ Pathlib.suffix Sample.bare_json = ""
  /\ bak_path Sample.bare_json = Raise ValueError
  /\ export_all_json_and_db_files Sample.no_encoder Sample.bare_disk
       (Sample.world Sample.bare_documents) = Raise ValueError.
Proof. repeat split; reflexivity. Qed.

Example export_sample :
  exists fs',
    export_all_json_and_db_files Sample.no_encoder Sample.two_documents_disk
      (Sample.world Sample.two_documents) = Ok fs'
    /\ fs' (Sample.P "worlds/w/world.jsonbak") = Some "old json"
    /\ fs' (Sample.P "worlds/w/world.json")
       = Some ("{" +:+ Sample.dq +:+ "title" +:+ Sample.dq +:+ ":"
               +:+ Sample.dq +:+ "w" +:+ Sample.dq +:+ "}")
    /\ fs' (Sample.P "worlds/w/data/scenes.dbbak") = Some "old db"
    /\ fs' (Sample.P "worlds/w/data/scenes.db")
       = Some ("{" +:+ Sample.dq +:+ "name" +:+ Sample.dq +:+ ":"
               +:+ Sample.dq +:+ "first" +:+ Sample.dq +:+ "}"
               +:+ String "010"%char
                     ("{" +:+ Sample.dq +:+ "name" +:+ Sample.dq +:+ ":"
                      +:+ Sample.dq +:+ "second" +:+ Sample.dq +:+ "}")).
Proof. eexists. split; [reflexivity|]. vm_compute. done. Qed.

(** ** Trash *)

(** A queued path that is no file, and whose percent-decoded name is no
    file either, is passed over. *)
Lemma missing_file_is_skipped E w file fs unquoted :
  is_file fs file = false ->
  Pathlib.with_stem file (unquote E (Pathlib.stem file)) = Ok unquoted ->
  is_file fs unquoted = false ->
  move_one_img_to_trash E w file fs = Ok fs.
Proof.
  intros Hfile Hstem Hunq. unfold move_one_img_to_trash.
  rewrite Hfile, Hstem. simpl. by rewrite Hunq.
Qed.

(** An existing file whose path string the pattern does not match is left
    where it is. *)
Lemma unmatched_file_is_left E w file fs :
  is_file fs file = true ->
  re_match E (".*" +:+ Pathlib.str (world_folder w) +:+ ".*") (Pathlib.str file) = false ->
  move_one_img_to_trash E w file fs = Ok fs.
Proof.
  intros Hfile Hmatch. unfold move_one_img_to_trash. rewrite Hfile. simpl.
  by rewrite Hmatch.
Qed.

(** An existing file whose path string the pattern matches is renamed into
    the trash folder under its own name: it is gone from where it was. *)
Lemma matched_file_is_moved E w file fs data :
  fs file = Some data ->
  re_match E (".*" +:+ Pathlib.str (world_folder w) +:+ ".*") (Pathlib.str file) = true ->
  move_one_img_to_trash E w file fs
  = Ok (fs_write (fs_remove fs file)
          (Pathlib.joinstr (trash w) (Pathlib.name file)) data).
Proof.
  intros Hdata Hmatch. unfold move_one_img_to_trash, is_file, rename.
  rewrite Hdata. rewrite bool_decide_eq_true_2 by eauto. simpl.
  by rewrite Hmatch, Hdata.
Qed.

(** C2, on the code: the world folder is [worlds/w]; the queued file
    [worlds/w-old/a.png] exists and is not under it. Its path contains the
    string [worlds/w], the pattern matches, and the file is moved into the
    trash folder of the world. *)
Example sibling_folder_file_is_moved :
  Pathlib.in_parents (world_folder Sample.sibling_world)
    (Sample.P "worlds/w-old/a.png") = false
  /\ exists fs',
       move_all_imgs_in_trash_queue_to_trash Sample.no_encoder Sample.sibling_disk
         Sample.sibling_world = Ok fs'
       /\ fs' (Sample.P "worlds/w-old/a.png") = None
       /\ fs' (Sample.P "worlds/w/_trash/a.png") = Some "PNG-bytes".
Proof. split; [reflexivity|]. eexists. split; [reflexivity|]. vm_compute. done. Qed.

(** ** The indices *)

Section index_facts.
Context {K : Type} `{EqDecision K}.
Implicit Types (idx : list (K * list nat)) (k : K) (i : nat).

Lemma index_append_get_eq idx k i :
  adict_get (index_append idx k i) k = Some (default [] (adict_get idx k) ++ [i]).
Proof. apply adict_get_set_eq. Qed.

Lemma index_append_get_ne idx k k' i :
  k' <> k -> adict_get (index_append idx k i) k' = adict_get idx k'.
Proof. apply adict_get_set_ne. Qed.

Lemma index_append_NoDup idx k i :
  NoDup idx.*1 -> NoDup (index_append idx k i).*1.
Proof. apply adict_set_NoDup. Qed.


(** The positions held by an index, and what appending does to them. *)
Lemma index_append_positions idx k i :
  concat (index_append idx k i).*2 ≡ₚ i :: concat idx.*2.
Proof.
  unfold index_append. induction idx as [|[k0 l0] idx IH]; csimpl; [done|].
  destruct (decide (k0 = k)) as [->|Hne]; csimpl.
  - rewrite <- app_assoc. simpl. symmetry. apply Permutation_middle.
  - rewrite IH. symmetry. apply Permutation_middle.
Qed.

End index_facts.

Lemma index_by_img_snoc L x :
  index_by_img (L ++ [x]) = index_append (index_by_img L) (ref_path x.2) x.1.
Proof. unfold index_by_img. by rewrite foldl_snoc. Qed.

Lemma index_by_hash_by_img_snoc objs x :
  index_by_hash_by_img (objs ++ [x])
  = adict_set (index_by_hash_by_img objs) (img_hash x.2)
      (index_append (default [] (adict_get (index_by_hash_by_img objs) (img_hash x.2)))
         (ref_path x.2) x.1).
Proof. unfold index_by_hash_by_img. by rewrite foldl_snoc. Qed.

(** Under a path: the positions of the objects with that path, in order. *)
Lemma index_by_img_get L p :
  adict_get (index_by_img L) p
  = let M := filter (fun x => ref_path x.2 = p) L in
    if decide (M = []) then None else Some M.*1.
Proof.
  induction L as [|x L IH] using rev_ind; [done|].
  rewrite index_by_img_snoc, filter_app. simpl in *.
  destruct (decide (ref_path x.2 = p)) as [<-|Hne].
  - rewrite index_append_get_eq, IH.
    rewrite filter_cons_True by done. rewrite filter_nil.
    destruct (decide (filter _ L ++ [x] = [])) as [Heq|_];
      [by apply app_eq_nil in Heq as [_ ?]|].
    rewrite fmap_app. f_equal. f_equal.
    destruct (decide (filter _ L = [])) as [->|]; done.
  - rewrite index_append_get_ne by done. rewrite IH.
    rewrite filter_cons_False by done. by rewrite filter_nil, app_nil_r.
Qed.

Lemma index_by_img_NoDup L : NoDup (index_by_img L).*1.
Proof.
  induction L as [|x L IH] using rev_ind; [constructor|].
  rewrite index_by_img_snoc. by apply index_append_NoDup.
Qed.


Lemma index_by_img_positions L : positions (index_by_img L) ≡ₚ L.*1.
Proof.
  unfold positions. induction L as [|x L IH] using rev_ind; [done|].
  rewrite index_by_img_snoc, index_append_positions, IH, fmap_app. simpl.
  apply Permutation_cons_append.
Qed.

(** Under a digest: the index by image of the objects with that digest. *)
Lemma index_by_hash_by_img_get objs h :
  adict_get (index_by_hash_by_img objs) h
  = let L := filter (fun x => img_hash x.2 = h) objs in
    if decide (L = []) then None else Some (index_by_img L).
Proof.
  induction objs as [|x objs IH] using rev_ind; [done|].
  rewrite index_by_hash_by_img_snoc, filter_app. simpl in *.
  destruct (decide (img_hash x.2 = h)) as [<-|Hne].
  - rewrite adict_get_set_eq, IH.
    rewrite filter_cons_True by done. rewrite filter_nil.
    destruct (decide (filter _ objs ++ [x] = [])) as [Heq|_];
      [by apply app_eq_nil in Heq as [_ ?]|].
    rewrite index_by_img_snoc. f_equal. f_equal.
    destruct (decide (filter _ objs = [])) as [->|]; done.
  - rewrite adict_get_set_ne by done. rewrite IH.
    rewrite filter_cons_False by done. by rewrite filter_nil, app_nil_r.
Qed.

Lemma index_by_hash_by_img_NoDup objs : NoDup (index_by_hash_by_img objs).*1.
Proof.
  induction objs as [|x objs IH] using rev_ind; [constructor|].
  rewrite index_by_hash_by_img_snoc. by apply adict_set_NoDup.
Qed.

Lemma adict_set_positions (H : list (option string * ImgIndex)) h p i :
  concat (positions <$> (adict_set H h (index_append (default [] (adict_get H h)) p i)).*2)
  ≡ₚ i :: concat (positions <$> H.*2).
Proof.
  induction H as [|[h0 g0] H IH]; csimpl; [done|].
  destruct (decide (h0 = h)) as [->|Hne]; csimpl.
  - unfold positions at 1. rewrite index_append_positions. done.
  - rewrite IH. symmetry. apply Permutation_middle.
Qed.

Lemma index_by_hash_by_img_positions objs :
  concat (positions <$> (index_by_hash_by_img objs).*2) ≡ₚ objs.*1.
Proof.
  induction objs as [|x objs IH] using rev_ind; [done|].
  rewrite index_by_hash_by_img_snoc, adict_set_positions, IH, fmap_app. simpl.
  apply Permutation_cons_append.
Qed.

(** *** The indices of a world *)

Lemma elem_of_ref_objects w i r :
  (i, r) ∈ ref_objects w <-> all_img_refs w !! i = Some r.
Proof.
  unfold ref_objects. rewrite elem_of_lookup_imap. split.
  - intros (j & r' & [= -> ->] & Hj). done.
  - intros Hi. by exists i, r.
Qed.

Lemma ref_objects_positions w :
  (ref_objects w).*1 = seq 0 (length (all_img_refs w)).
Proof.
  unfold ref_objects. rewrite fmap_imap.
  rewrite (imap_ext _ (fun i _ => id i)) by done.
  by rewrite imap_seq_0, list_fmap_id.
Qed.


(** Every position listed under a digest and a path holds a reference with
    that digest and that path; no list is empty. *)
Lemma hash_index_sound w h g p l :
  (h, g) ∈ get_refs_indexed_by_hash_by_img w None -> (p, l) ∈ g ->
  l <> [] /\ forall i, i ∈ l ->
    exists r, all_img_refs w !! i = Some r /\ img_hash r = h /\ ref_path r = p.
Proof.
  unfold get_refs_indexed_by_hash_by_img. simpl. intros Hg Hl.
  apply elem_of_adict_get in Hg; [|apply index_by_hash_by_img_NoDup].
  rewrite index_by_hash_by_img_get in Hg. simpl in Hg.
  destruct (decide (filter _ (ref_objects w) = [])) as [|_]; [done|].
  injection Hg as <-.
  apply elem_of_adict_get in Hl; [|apply index_by_img_NoDup].
  rewrite index_by_img_get in Hl. simpl in Hl.
  destruct (decide (filter _ (filter _ (ref_objects w)) = [])) as [|Hne]; [done|].
  injection Hl as <-. split.
  - intros Hnil. apply Hne. by apply fmap_nil_inv in Hnil.
  - intros i Hi. apply list_elem_of_fmap in Hi as ([j r] & -> & Hin).
    apply list_elem_of_filter in Hin as [Hp Hin].
    apply list_elem_of_filter in Hin as [Hh Hin].
    apply elem_of_ref_objects in Hin. by exists r.
Qed.

(** Every reference is listed under its digest and its path. *)
Lemma hash_index_complete w i r :
  all_img_refs w !! i = Some r ->
  exists g l, (img_hash r, g) ∈ get_refs_indexed_by_hash_by_img w None
    /\ (ref_path r, l) ∈ g /\ i ∈ l.
Proof.
  intros Hi. apply elem_of_ref_objects in Hi.
  unfold get_refs_indexed_by_hash_by_img. simpl.
  set (L := filter (fun x => img_hash x.2 = img_hash r) (ref_objects w)).
  set (M := filter (fun x : nat * ImageReference => ref_path x.2 = ref_path r) L).
  assert ((i, r) ∈ L) as HL by (by apply list_elem_of_filter).
  assert ((i, r) ∈ M) as HM by (by apply list_elem_of_filter).
  exists (index_by_img L), M.*1. split; [|split].
  - apply adict_get_Some_elem_of. rewrite index_by_hash_by_img_get. simpl.
    fold L. destruct (decide (L = [])) as [Heq|]; [|done].
    rewrite Heq in HL. by apply elem_of_nil in HL.
  - apply adict_get_Some_elem_of. rewrite index_by_img_get. simpl.
    fold M. destruct (decide (M = [])) as [Heq|]; [|done].
    rewrite Heq in HM. by apply elem_of_nil in HM.
  - apply list_elem_of_fmap. by exists (i, r).
Qed.


Lemma hash_index_NoDup_positions w :
  NoDup (concat (positions <$> (get_refs_indexed_by_hash_by_img w None).*2)).
Proof.
  unfold get_refs_indexed_by_hash_by_img. simpl.
  rewrite index_by_hash_by_img_positions, ref_objects_positions.
  apply NoDup_seq.
Qed.

Lemma hash_index_functional w h g1 g2 :
  (h, g1) ∈ get_refs_indexed_by_hash_by_img w None ->
  (h, g2) ∈ get_refs_indexed_by_hash_by_img w None -> g1 = g2.
Proof.
  unfold get_refs_indexed_by_hash_by_img. simpl. intros H1 H2.
  apply elem_of_adict_get in H1; [|apply index_by_hash_by_img_NoDup].
  apply elem_of_adict_get in H2; [|apply index_by_hash_by_img_NoDup].
  congruence.
Qed.

Lemma hash_index_group_NoDup w h g :
  (h, g) ∈ get_refs_indexed_by_hash_by_img w None -> NoDup g.*1.
Proof.
  unfold get_refs_indexed_by_hash_by_img. simpl. intros Hg.
  apply elem_of_adict_get in Hg; [|apply index_by_hash_by_img_NoDup].
  rewrite index_by_hash_by_img_get in Hg. simpl in Hg.
  destruct (decide (filter _ (ref_objects w) = [])) as [|_]; [done|].
  injection Hg as <-. apply index_by_img_NoDup.
Qed.

Lemma elem_of_get_duplicated_images w h g :
  (h, g) ∈ get_duplicated_images w <->
  (1 < length g /\ h <> None) /\ (h, g) ∈ get_refs_indexed_by_hash_by_img w None.
Proof. unfold get_duplicated_images. by rewrite list_elem_of_filter. Qed.

(** ** Duplicated images *)

(** *** What the pass does *)

Lemma Effect_nil E fs w : Effect E fs [] [] w w.
Proof.
  split; [done|]. split.
  - intros i main Hin. by apply elem_of_nil in Hin.
  - intros p. split; [by left|]. intros [?|Hin]; [done|by apply elem_of_nil in Hin].
Qed.

Lemma Effect_app E fs T1 T2 ps1 ps2 w w1 w2 :
  (forall i, i ∈ T1.*1 -> i ∉ T2.*1) ->
  Effect E fs T1 ps1 w w1 -> Effect E fs T2 ps2 w1 w2 ->
  Effect E fs (T1 ++ T2) (ps1 ++ ps2) w w2.
Proof.
  intros Hdisj (Hf1 & Ht1 & Hq1) (Hf2 & Ht2 & Hq2). split; [|split].
  - intros i Hi. rewrite fmap_app in Hi. apply not_elem_of_app in Hi as [H1 H2].
    by rewrite Hf2, Hf1.
  - intros i main Hin. apply elem_of_app in Hin as [Hin|Hin].
    + destruct (Ht1 i main Hin) as (r & r' & Hr & Hset & Hr').
      exists r, r'. split; [done|]. split; [done|].
      rewrite Hf2; [done|]. apply Hdisj. apply list_elem_of_fmap. by exists (i, main).
    + destruct (Ht2 i main Hin) as (r & r' & Hr & Hset & Hr').
      exists r, r'. split; [|done]. rewrite <- Hf1; [done|].
      intros Hi. apply (Hdisj i Hi). apply list_elem_of_fmap. by exists (i, main).
  - intros p. rewrite Hq2, Hq1, elem_of_app. tauto.
Qed.

Lemma for_each_Effect {A : Type} E fs (body : A -> WorldRefs -> result WorldRefs)
    (tasks : A -> list (nat * Path)) (queued : A -> list Path) xs :
  (forall x w w', x ∈ xs -> NoDup (tasks x).*1 -> body x w = Ok w' ->
     Effect E fs (tasks x) (queued x) w w') ->
  NoDup (xs ≫= tasks).*1 ->
  forall w w', for_each body xs w = Ok w' ->
    Effect E fs (xs ≫= tasks) (xs ≫= queued) w w'.
Proof.
  induction xs as [|x xs IH]; intros Hbody Hnd w w' Hrun.
  - simpl in Hrun. inv_bind. apply Effect_nil.
  - rewrite for_each_cons in Hrun. inv_bind. rename a into w1.
    change ((x :: xs) ≫= tasks) with (tasks x ++ (xs ≫= tasks)) in *.
    change ((x :: xs) ≫= queued) with (queued x ++ (xs ≫= queued)).
    rewrite fmap_app in Hnd. apply NoDup_app in Hnd as (Hnd1 & Hdisj & Hnd2).
    apply (Effect_app E fs _ _ _ _ w w1 w'); [done| |].
    + apply Hbody; [by left|done|done].
    + apply IH; [|done|done]. intros y v v' Hy. apply Hbody. by right.
Qed.

Lemma point_ref_to_main_img_Effect E fs main i w w' :
  point_ref_to_main_img E fs main i w = Ok w' ->
  Effect E fs [(i, main)] [] w w'.
Proof.
  unfold point_ref_to_main_img, the_ref.
  destruct (all_img_refs w !! i) as [r|] eqn:Hi; [|done]. simpl.
  intros H. inv_bind.
  apply repoint_refs in H as (r' & Hset & Hrefs & Hq). split; [|split].
  - intros j Hj. rewrite Hrefs. apply list_lookup_insert_ne.
    intros ->. apply Hj. csimpl. by left.
  - intros j main' Hin. apply list_elem_of_singleton in Hin as [= -> ->].
    exists r, r'. split; [done|]. split; [done|].
    rewrite Hrefs. apply list_lookup_insert_eq. by eapply lookup_lt_Some.
  - intros p. rewrite Hq. split; [by left|].
    intros [?|Hin]; [done|by apply elem_of_nil in Hin].
Qed.

(** One turn of the loop over the references of a duplicated image: the
    content read at the address, with the path on disk replaced by the
    first path of the set, is pushed back at the address, and the facts
    are assigned for the first path. *)
Lemma point_ref_to_main_img_step E fs main i w w' r :
  all_img_refs w !! i = Some r ->
  point_ref_to_main_img E fs main i w = Ok w' ->
  exists c r',
    get_img_ref_content w r = Ok (JStr c)
    /\ set_editable_attributes E fs r main = Ok r'
    /\ all_img_refs w' = <[i:=r']> (all_img_refs w)
    /\ get_img_ref_content w' r'
       = Ok (JStr (Str.replace (str_opt_path (img_path_on_disk r))
                     (Pathlib.str main) c)).
Proof.
  intros Hi. unfold point_ref_to_main_img, the_ref. rewrite Hi. simpl.
  intros H. inv_bind. rename a into content, a0 into updated.
  destruct content as [| | |c| |]; try done. simpl in Ha0. inv_bind.
  unfold repoint in H. inv_bind. rename a into r'.
  exists c, r'. split; [done|]. split; [done|].
  split; [by apply push_updated_content_to_world_frame in H as [-> _]|].
  by apply push_then_get in H.
Qed.

Lemma repoint_tasks_positions main l : (repoint_tasks main l).*1 = l.
Proof.
  unfold repoint_tasks. induction l as [|i l IH]; [done|]. csimpl. by rewrite IH.
Qed.

Lemma fix_one_set_Effect E fs g w w' :
  NoDup (set_tasks g).*1 ->
  fix_one_set_of_duplicated_images E fs g w = Ok w' ->
  Effect E fs (set_tasks g) (set_queued g) w w'.
Proof.
  destruct g as [|[main l0] rest]; [done|]. simpl. intros Hnd Hrun.
  unfold set_queued. simpl. rewrite <- (bind_singleton fst rest).
  revert Hrun. apply for_each_Effect; [|done].
  intros [p l] v v' _ Hl Hbody. simpl in *. inv_bind. rename a into v1.
  rewrite repoint_tasks_positions in Hl.
  assert (Effect E fs (repoint_tasks main l) [] v v1) as (Hf & Ht & Hq).
  { unfold repoint_tasks. rewrite <- (bind_singleton (fun i => (i, main)) l).
    rewrite <- (bind_nil (B := Path) l). revert Ha.
    apply for_each_Effect.
    - intros i u u' _ _. apply point_ref_to_main_img_Effect.
    - rewrite bind_singleton. fold (repoint_tasks main l).
      by rewrite repoint_tasks_positions. }
  split; [done|]. split; [done|].
  intros q. simpl. rewrite elem_of_set_add, Hq, list_elem_of_singleton.
  rewrite elem_of_nil. tauto.
Qed.

Lemma set_tasks_sublist g : (set_tasks g).*1 `sublist_of` positions g.
Proof.
  destruct g as [|[main l0] rest]; [done|]. unfold positions. csimpl.
  apply sublist_inserts_l.
  induction rest as [|[p l] rest IH]; [done|]. csimpl.
  rewrite fmap_app, repoint_tasks_positions. by apply sublist_app.
Qed.

Lemma pass_tasks_sublist (P : option string * ImgIndex -> Prop)
    `{forall x, Decision (P x)} (H' : list (option string * ImgIndex)) :
  (pass_tasks (filter P H')).*1 `sublist_of` concat (positions <$> H'.*2).
Proof.
  induction H' as [|[h g] H' IH]; [done|]. rewrite filter_cons. csimpl.
  destruct (decide (P (h, g))).
  - unfold pass_tasks. csimpl. rewrite fmap_app.
    apply sublist_app; [apply set_tasks_sublist|done].
  - by apply sublist_inserts_l.
Qed.

Lemma pass_tasks_NoDup w : NoDup (pass_tasks (get_duplicated_images w)).*1.
Proof.
  eapply sublist_NoDup; [apply (hash_index_NoDup_positions w)|].
  unfold get_duplicated_images. apply pass_tasks_sublist.
Qed.

Lemma fix_all_sets_Effect E fs w w' :
  fix_all_sets_of_duplicated_images E fs w = Ok w' ->
  Effect E fs (pass_tasks (get_duplicated_images w))
    (pass_queued (get_duplicated_images w)) w w'.
Proof.
  unfold fix_all_sets_of_duplicated_images, pass_tasks, pass_queued.
  apply for_each_Effect; [|apply pass_tasks_NoDup].
  intros [h g] v v' _ Hnd. simpl. by apply fix_one_set_Effect.
Qed.

Lemma elem_of_pass_tasks D i main :
  (i, main) ∈ pass_tasks D <->
  exists h l0 rest p l, (h, (main, l0) :: rest) ∈ D /\ (p, l) ∈ rest /\ i ∈ l.
Proof.
  unfold pass_tasks. rewrite list_elem_of_bind. split.
  - intros ([h g] & Hin & HD). simpl in Hin.
    destruct g as [|[main' l0] rest]; [by apply elem_of_nil in Hin|].
    simpl in Hin. apply list_elem_of_bind in Hin as ([p l] & Hin & Hpl).
    unfold repoint_tasks in Hin. simpl in Hin.
    apply list_elem_of_fmap in Hin as (j & [= -> ->] & Hj).
    by exists h, l0, rest, p, l.
  - intros (h & l0 & rest & p & l & HD & Hpl & Hi).
    exists (h, (main, l0) :: rest). split; [|done]. simpl.
    apply list_elem_of_bind. exists (p, l). split; [|done].
    unfold repoint_tasks. simpl. apply list_elem_of_fmap. by exists i.
Qed.


(** A position the pass works on holds a reference with a digest, listed
    in a set of duplicated images under a path that is not the first. *)
Lemma pass_task_inv w i main :
  (i, main) ∈ pass_tasks (get_duplicated_images w) ->
  exists h r g, all_img_refs w !! i = Some r /\ img_hash r = Some h
    /\ (Some h, g) ∈ get_refs_indexed_by_hash_by_img w None
    /\ 1 < length g /\ head g.*1 = Some main /\ ref_path r <> main.
Proof.
  intros Hin. apply elem_of_pass_tasks in Hin as (h & l0 & rest & p & l & HD & Hpl & Hi).
  apply elem_of_get_duplicated_images in HD as [[Hlen Hh] Hg].
  destruct (hash_index_sound w h _ p l Hg) as [_ Hsound]; [by right|].
  destruct (Hsound i Hi) as (r & Hr & Hhash & Hpath).
  destruct h as [h|]; [|done]. exists h, r, ((main, l0) :: rest).
  repeat split; try done. rewrite Hpath. intros ->.
  apply hash_index_group_NoDup in Hg. csimpl in Hg.
  apply NoDup_cons in Hg as [Hfresh _]. apply Hfresh.
  apply list_elem_of_fmap. by exists (main, l).
Qed.

(** *** References without a digest *)






(** The pass over a world that holds a broken reference and a link: both
    are left as they are, the duplicate is repointed and queued. *)
Example consolidation_of_a_mixed_world :
  exists w',
    fix_all_sets_of_duplicated_images Sample.no_encoder Sample.east_disk
      Sample.mixed_world = Ok w'
    /\ img_hash <$> all_img_refs Sample.mixed_world
       = [None; None; Some "md5:WEBP-bytes"; Some "md5:WEBP-bytes"]
    /\ take 2 (all_img_refs w') = take 2 (all_img_refs Sample.mixed_world)
    /\ ref_path <$> all_img_refs w'
       = [Sample.P "worlds/w/missing.png"; Sample.P "http://example.com/a.png";
          Sample.P "worlds/w/east_copy.webp"; Sample.P "worlds/w/east_copy.webp"]
    /\ trash_queue w' = [Sample.P "worlds/w/east.webp"].
Proof. eexists. split; [vm_compute; reflexivity|]. vm_compute. done. Qed.

(** *** The canonical path *)

(** The set of a digest that two references with different paths share. *)
Lemma duplicated_hash_has_set w h i j ri rj :
  all_img_refs w !! i = Some ri -> all_img_refs w !! j = Some rj ->
  img_hash ri = Some h -> img_hash rj = Some h -> ref_path ri <> ref_path rj ->
  exists main l0 rest,
    (Some h, (main, l0) :: rest) ∈ get_duplicated_images w.
Proof.
  intros Hi Hj Hhi Hhj Hne.
  destruct (hash_index_complete w i ri Hi) as (g & li & Hg & Hli & _).
  destruct (hash_index_complete w j rj Hj) as (g' & lj & Hg' & Hlj & _).
  rewrite Hhi in Hg. rewrite Hhj in Hg'.
  rewrite <- (hash_index_functional w _ _ _ Hg Hg') in Hlj.
  assert (1 < length g) as Hlen.
  { destruct g as [|x [|y g]]; simpl; [by apply elem_of_nil in Hli| |lia].
    apply list_elem_of_singleton in Hli, Hlj. congruence. }
  destruct g as [|[main l0] rest]; [simpl in Hlen; lia|].
  exists main, l0, rest. by apply elem_of_get_duplicated_images.
Qed.





(** *** Running the pass twice *)

(** After a pass over references whose digests agree with the files, every
    reference keeps its digest, and its path is the first path listed
    under that digest before the pass. *)
Lemma fix_all_sets_result E fs w w' :
  (forall r, r ∈ all_img_refs w -> is_Some (img_hash r) ->
     facts_agree E fs r /\ owned_by w r) ->
  fix_all_sets_of_duplicated_images E fs w = Ok w' ->
  forall k r', all_img_refs w' !! k = Some r' ->
    exists r, all_img_refs w !! k = Some r /\ img_hash r' = img_hash r
      /\ forall g, (img_hash r, g) ∈ get_refs_indexed_by_hash_by_img w None ->
           img_hash r <> None -> head g.*1 = Some (ref_path r').
Proof.
  intros Hagree Hrun k r' Hk'.
  apply fix_all_sets_Effect in Hrun as (Hframe & Htask & _).
  destruct (decide (k ∈ (pass_tasks (get_duplicated_images w)).*1)) as [Hin|Hout].
  - apply list_elem_of_fmap in Hin as ([k0 main] & -> & Hin). simpl in *.
    destruct (Htask k0 main Hin) as (r & r'' & Hr & Hset & Hr'').
    assert (r'' = r') as -> by congruence.
    apply pass_task_inv in Hin as (h & r1 & g & Hr1 & Hh & Hg & _ & Hhead & _).
    assert (r1 = r) as -> by congruence.
    destruct g as [|[main' l0] rest]; [done|]. simpl in Hhead.
    injection Hhead as ->.
    destruct (hash_index_sound w _ _ main l0 Hg) as [Hl0 Hsound]; [by left|].
    destruct l0 as [|i0 l0]; [done|].
    destruct (Hsound i0) as (r0 & Hr0 & Hh0 & Hp0); [by left|].
    destruct (Hagree r0) as [Hagree0 [Hwf0 Hcore0]];
      [by eapply list_elem_of_lookup_2|by rewrite Hh0|].
    destruct (Hagree r) as [_ [Hwf Hcore]];
      [by eapply list_elem_of_lookup_2|by rewrite Hh|].
    assert (img_hash r' = Some h) as Hh'.
    { apply (set_editable_attributes_same_hash E fs r0 r r' h); try done;
        [congruence|congruence|by rewrite Hp0]. }
    exists r. split; [done|]. split; [congruence|].
    intros g' Hg' _. rewrite Hh in Hg'.
    rewrite <- (hash_index_functional w _ _ _ Hg Hg'). simpl.
    by apply set_editable_attributes_fixed in Hset as (_ & _ & _ & _ & _ & _ & _ & ->).
  - rewrite (Hframe k Hout) in Hk'. exists r'. split; [done|]. split; [done|].
    intros g Hg Hsome.
    destruct (hash_index_complete w k r' Hk') as (g' & l & Hg' & Hl & Hkl).
    rewrite <- (hash_index_functional w _ _ _ Hg Hg') in Hl.
    destruct g as [|[main l0] rest]; [by apply elem_of_nil in Hl|]. simpl.
    apply elem_of_cons in Hl as [Heq|Hl]; [congruence|].
    exfalso. apply Hout. apply list_elem_of_fmap. exists (k, main). split; [done|].
    apply elem_of_pass_tasks.
    exists (img_hash r'), l0, rest, (ref_path r'), l. split; [|done].
    apply elem_of_get_duplicated_images. split; [|done]. split; [|done].
    destruct rest; [by apply elem_of_nil in Hl|simpl; lia].
Qed.

(** C7, as stated, fails: the references were resolved when [a.png] and
    [b.png] had the same bytes, and [a.png] has since taken the bytes of
    [c.png]. The first pass points the reference of [b.png] to [a.png] and
    takes the digest of the new bytes; the second pass then finds [a.png]
    and [c.png] duplicated, points the reference of [c.png] to [a.png] and
    queues [c.png]. *)
Lemma second_pass_changes_a_stale_world :
  exists w1 w2,
    fix_all_sets_of_duplicated_images Sample.no_encoder Sample.abc_disk_now
      Sample.abc_world = Ok w1
    /\ fix_all_sets_of_duplicated_images Sample.no_encoder Sample.abc_disk_now w1
       = Ok w2
    /\ trash_queue w1 = [Sample.P "worlds/w/b.png"]
    /\ trash_queue w2 = [Sample.P "worlds/w/b.png"; Sample.P "worlds/w/c.png"]
    /\ ref_path <$> all_img_refs w1
       = [Sample.P "worlds/w/a.png"; Sample.P "worlds/w/a.png"; Sample.P "worlds/w/c.png"]
    /\ ref_path <$> all_img_refs w2
       = [Sample.P "worlds/w/a.png"; Sample.P "worlds/w/a.png"; Sample.P "worlds/w/a.png"]
    /\ w2 <> w1.
Proof.
  do 2 eexists. split; [vm_compute; reflexivity|]. split; [vm_compute; reflexivity|].
  repeat (split; [vm_compute; reflexivity|]). intros Heq.
  apply (f_equal trash_queue) in Heq. vm_compute in Heq. discriminate Heq.
Qed.

(** C7, amended. From a state in which every reference that has a digest
    agrees with the files on disk (resolving its declared path again
    changes none of its facts) and holds the folders of its world, a pass
    that returns leaves no set of duplicated images, and a second pass
    returns the very same state: no content pushed, no fact changed,
    nothing queued. *)
Theorem consolidation_twice_changes_nothing E fs w w1 :
  (forall r, r ∈ all_img_refs w -> is_Some (img_hash r) ->
     facts_agree E fs r /\ owned_by w r) ->
  fix_all_sets_of_duplicated_images E fs w = Ok w1 ->
  get_duplicated_images w1 = []
  /\ fix_all_sets_of_duplicated_images E fs w1 = Ok w1.
Proof.
  intros Hagree Hrun.
  assert (get_duplicated_images w1 = []) as Hnone.
  { destruct (get_duplicated_images w1) as [|[h g] D] eqn:HD; [done|]. exfalso.
    assert ((h, g) ∈ get_duplicated_images w1) as Hin by (rewrite HD; by left).
    apply elem_of_get_duplicated_images in Hin as [[Hlen Hh] Hg].
    pose proof (hash_index_group_NoDup w1 h g Hg) as Hnd.
    destruct g as [|[p1 l1] [|[p2 l2] g]]; [simpl in Hlen; lia..|].
    destruct (hash_index_sound w1 h _ p1 l1 Hg) as [Hl1 Hs1]; [by left|].
    destruct (hash_index_sound w1 h _ p2 l2 Hg) as [Hl2 Hs2]; [right; by left|].
    destruct l1 as [|k1 l1]; [done|]. destruct l2 as [|k2 l2]; [done|].
    destruct (Hs1 k1) as (r1' & Hk1 & Hh1 & Hp1); [by left|].
    destruct (Hs2 k2) as (r2' & Hk2 & Hh2 & Hp2); [by left|].
    destruct (fix_all_sets_result E fs w w1 Hagree Hrun k1 r1' Hk1)
      as (r1 & Hr1 & Heq1 & Hfirst1).
    destruct (fix_all_sets_result E fs w w1 Hagree Hrun k2 r2' Hk2)
      as (r2 & Hr2 & Heq2 & Hfirst2).
    destruct (hash_index_complete w k1 r1 Hr1) as (g1 & _ & Hg1 & _).
    destruct (hash_index_complete w k2 r2 Hr2) as (g2 & _ & Hg2 & _).
    assert (img_hash r1 = h) as Hh1' by congruence.
    assert (img_hash r2 = h) as Hh2' by congruence.
    pose proof (Hfirst1 g1 Hg1) as Hf1. pose proof (Hfirst2 g2 Hg2) as Hf2.
    rewrite Hh1' in Hg1, Hf1. rewrite Hh2' in Hg2, Hf2.
    rewrite <- (hash_index_functional w _ _ _ Hg1 Hg2) in Hf2.
    specialize (Hf1 Hh). specialize (Hf2 Hh).
    assert (p1 = p2) as -> by congruence.
    csimpl in Hnd. apply NoDup_cons in Hnd as [Hfresh _]. apply Hfresh. by left. }
  split; [done|]. unfold fix_all_sets_of_duplicated_images. by rewrite Hnone.
Qed.

Lemma consolidation_twice_changes_nothing_witness :
  get_duplicated_images Sample.east_world_fixed = []
  /\ fix_all_sets_of_duplicated_images Sample.no_encoder Sample.east_disk
       Sample.east_world_fixed = Ok Sample.east_world_fixed.
Proof.
  apply (consolidation_twice_changes_nothing Sample.no_encoder Sample.east_disk
           Sample.east_world Sample.east_world_fixed).
  - intros r Hr _. unfold Sample.east_world in Hr. simpl in Hr.
    apply elem_of_cons in Hr as [->|Hr]; [split; [reflexivity|split; reflexivity]|].
    apply elem_of_cons in Hr as [->|Hr]; [split; [reflexivity|split; reflexivity]|].
    by apply elem_of_nil in Hr.
  - reflexivity.
Defined.

(** * Further properties *)

(** ** Loops, lists and strings *)

Lemma for_each_snoc {A S : Type} (body : A -> S -> result S) xs x (s : S) :
  for_each body (xs ++ [x]) s = (for_each body xs s ≫= body x).
Proof.
  revert s. induction xs as [|y xs IH]; intros s; simpl.
  - by destruct (body x s).
  - destruct (body y s) as [s'|]; [|done]. simpl. apply IH.
Qed.

Lemma for_each_fixed {A S : Type} (body : A -> S -> result S) xs (s : S) :
  (forall x, x ∈ xs -> body x s = Ok s) -> for_each body xs s = Ok s.
Proof.
  induction xs as [|x xs IH]; intros H; [done|]. simpl.
  rewrite H by (by left). simpl. apply IH. intros y Hy. apply H. by right.
Qed.

Lemma for_each_within_cons {A S : Type} (body : A -> S -> option (result S)) x xs s r :
  for_each_within body (x :: xs) s = Some (Ok r) ->
  exists s', body x s = Some (Ok s') /\ for_each_within body xs s' = Some (Ok r).
Proof.
  simpl. destruct (body x s) as [[s'|]|]; [|done..]. intros H. by exists s'.
Qed.

Lemma for_each_within_fixed {A S : Type} (body : A -> S -> option (result S)) xs s :
  (forall x, x ∈ xs -> body x s = Some (Ok s)) ->
  for_each_within body xs s = Some (Ok s).
Proof.
  induction xs as [|x xs IH]; intros H; [done|]. simpl.
  rewrite H by (by left). apply IH. intros y Hy. apply H. by right.
Qed.

Lemma last_cons_default {A : Type} (x : A) l d :
  List.last (x :: l) d = List.last l x.
Proof.
  revert x d. induction l as [|y l IH]; intros x d; [done|].
  change (List.last (x :: y :: l) d) with (List.last (y :: l) d).
  by rewrite !IH.
Qed.

Lemma adict_set_fresh {K V : Type} `{EqDecision K} (d : list (K * V)) k v :
  k ∉ d.*1 -> adict_set d k v = d ++ [(k, v)].
Proof.
  induction d as [|[k0 v0] d IH]; [done|]. csimpl. intros Hk.
  apply not_elem_of_cons in Hk as [Hne Hk].
  rewrite decide_False by done. by rewrite IH.
Qed.

Lemma elem_of_foldl_set_add {A : Type} `{EqDecision A} (xs q : list A) x :
  x ∈ foldl (fun q y => set_add y q) q xs <-> x ∈ q \/ x ∈ xs.
Proof.
  revert q. induction xs as [|y xs IH]; intros q; simpl.
  - rewrite elem_of_nil. tauto.
  - rewrite IH, elem_of_set_add, elem_of_cons. split; [intros [[?|?]|?]|intros [?|[?|?]]]; auto.
Qed.

Lemma is_file_false fs p : is_file fs p = false <-> fs p = None.
Proof.
  unfold is_file. rewrite bool_decide_eq_false. split.
  - intros H. destruct (fs p) eqn:Hp; [|done]. destruct H. eauto.
  - intros -> [? ?]. done.
Qed.

Lemma str_contains_char_app c s t :
  Str.contains (String c "") (s +:+ t)
  = Str.contains (String c "") s || Str.contains (String c "") t.
Proof.
  induction s as [|a s IH].
  - simpl. destruct t; simpl; [done|]. done.
  - rewrite str_app_cons. simpl. rewrite IH. by rewrite orb_assoc.
Qed.

Lemma str_contains_char_rfind c s :
  Str.contains (String c "") s = false -> Str.rfind c s = None.
Proof.
  induction s as [|a s IH]; [done|]. simpl.
  intros H. apply orb_false_iff in H as [H1 H2]. rewrite (IH H2).
  rewrite andb_true_r in H1. by rewrite Ascii.eqb_sym, H1.
Qed.

Lemma str_rfind_at c s t :
  Str.rfind c t = None -> Str.rfind c (s +:+ String c t) = Some (String.length s).
Proof.
  intros Ht. induction s as [|a s IH].
  - simpl. by rewrite Ht, Ascii.eqb_refl.
  - rewrite str_app_cons. simpl. by rewrite IH.
Qed.

Lemma str_take_app s t : Str.take (String.length s) (s +:+ t) = s.
Proof. induction s as [|a s IH]; [by destruct t|]. rewrite str_app_cons. simpl. by rewrite IH. Qed.

Lemma str_drop_length_app s t : Str.drop (String.length s) (s +:+ t) = t.
Proof. induction s as [|a s IH]; [by destruct t|]. rewrite str_app_cons. simpl. by rewrite IH. Qed.

Lemma str_app_nil_r s : s +:+ "" = s.
Proof. induction s as [|a s IH]; [done|]. rewrite str_app_cons. by rewrite IH. Qed.

Lemma contains_char_join c sep ds :
  Str.contains (String c "") sep = false ->
  (forall d, d ∈ ds -> Str.contains (String c "") d = false) ->
  Str.contains (String c "") (Str.join sep ds) = false.
Proof.
  intros Hsep. induction ds as [|d ds IH]; intros H; [done|].
  destruct ds as [|d2 ds]; [apply H; by left|].
  change (Str.join sep (d :: d2 :: ds)) with (d +:+ sep +:+ Str.join sep (d2 :: ds)).
  rewrite !str_contains_char_app, Hsep, (H d) by (by left). simpl.
  apply IH. intros x Hx. apply H. by right.
Qed.

(** ** The addresses of the leaves *)

Lemma Json_nested_ind (P : Json -> Prop) :
  P JNull -> (forall b, P (JBool b)) -> (forall s, P (JNum s)) ->
  (forall s, P (JStr s)) ->
  (forall l, Forall P l -> P (JList l)) ->
  (forall items, Forall (fun kv => P kv.2) items -> P (JDict items)) ->
  forall v, P v.
Proof.
  intros Hnull Hbool Hnum Hstr Hlist Hdict.
  fix IH 1. intros [| b | s | s | l | items].
  - exact Hnull.
  - apply Hbool.
  - apply Hnum.
  - apply Hstr.
  - apply Hlist. induction l as [|x l IHl]; constructor; [apply IH|exact IHl].
  - apply Hdict. induction items as [|[k x] items IHl]; constructor;
      [apply IH|exact IHl].
Qed.

Lemma get_nested_get_at d a :
  a <> [] -> get_nested_dict_recursive d a = get_at d a.
Proof.
  revert d. induction a as [|k a IH]; intros d Hne; [done|].
  destruct a as [|k2 a].
  - simpl. by destruct (getitem d k).
  - change (get_nested_dict_recursive d (k :: k2 :: a))
      with (d0 ← getitem d k; get_nested_dict_recursive d0 (k2 :: a)).
    simpl. destruct (getitem d k) as [d0|]; [|done]. simpl. by apply IH.
Qed.

Lemma dict_walker_JDict items pre :
  dict_walker (JDict items) pre = items ≫= (fun kv => walk_value pre kv.1 kv.2).
Proof.
  induction items as [|[key value] items IH]; [done|].
  csimpl. rewrite <- IH. by destruct value.
Qed.

Lemma elem_of_walk_elems pre key vs i x :
  x ∈ walk_elems pre key vs i <->
  exists j v, vs !! j = Some v /\ x ∈ dict_walker v (pre ++ [key; KInt (i + j)]).
Proof.
  revert i. induction vs as [|v vs IH]; intros i.
  - simpl. split; [intros H; by apply elem_of_nil in H|intros (j & v & H & _); done].
  - change (walk_elems pre key (v :: vs) i)
      with (dict_walker v (pre ++ [key; KInt i]) ++ walk_elems pre key vs (S i)).
    rewrite elem_of_app, IH. split.
    + intros [H|(j & v' & Hj & H)].
      * exists 0, v. split; [done|]. by rewrite Nat.add_0_r.
      * exists (S j), v'. split; [done|]. by rewrite Nat.add_succ_r.
    + intros ([|j] & v' & Hj & H).
      * injection Hj as <-. left. by rewrite Nat.add_0_r in H.
      * right. exists j, v'. split; [done|]. by rewrite Nat.add_succ_r in H.
Qed.

Lemma leaf_resolves_scalar d :
  (forall pre, dict_walker d pre = [(pre, d)]) -> (forall items, d <> JDict items) ->
  leaf_resolves d.
Proof.
  intros Hw Hd pre a leaf _ Hin. rewrite Hw in Hin.
  apply list_elem_of_singleton in Hin as [= -> ->].
  exists []. by rewrite app_nil_r.
Qed.

Lemma dict_walker_leaf_resolves d : leaf_resolves d.
Proof.
  cut (leaf_resolves d /\ forall vs, d = JList vs -> Forall leaf_resolves vs).
  { by intros [? _]. }
  induction d as [| b | s | s | l IH | items IH] using Json_nested_ind;
    (split; [|try done]); try (by apply leaf_resolves_scalar).
  - intros vs [= <-]. eapply Forall_impl; [exact IH|]. by intros x [? _].
  - intros pre a leaf Hk Hin.
    rewrite dict_walker_JDict in Hin.
    apply list_elem_of_bind in Hin as ([key value] & Hin & Hitem). simpl in Hin.
    simpl in Hk. apply andb_true_iff in Hk as [Hnd Hall].
    apply bool_decide_eq_true in Hnd.
    rewrite forallb_forall in Hall.
    assert (keys_distinct value = true) as Hkv.
    { apply (Hall (key, value)). by apply list_elem_of_In. }
    pose proof (elem_of_adict_get _ _ _ Hnd Hitem) as Hget.
    rewrite List.Forall_forall in IH.
    destruct (IH (key, value)) as [Hvalue Hlist]; [by apply list_elem_of_In|].
    simpl in Hvalue, Hlist.
    assert (forall a'' : list Key, get_at (JDict items) (key :: a'') = get_at value a'')
      as Hstep.
    { intros a''. simpl. by rewrite Hget. }
    destruct value as [| b | s | s | vs | sub]; simpl in Hin;
      try (apply list_elem_of_singleton in Hin as [= -> ->];
           exists [key]; split; [done|]; split; [by rewrite Hstep|done]).
    + apply elem_of_walk_elems in Hin as (j & v & Hj & Hin). simpl in Hin.
      specialize (Hlist vs eq_refl). rewrite List.Forall_forall in Hlist.
      assert (In v vs) as Hv.
      { apply list_elem_of_In. by eapply list_elem_of_lookup_2. }
      destruct (Hlist v Hv (pre ++ [key; KInt j]) a leaf) as (a'' & -> & Hleaf & _).
      { simpl in Hkv. rewrite forallb_forall in Hkv. by apply Hkv. }
      { exact Hin. }
      exists (key :: KInt j :: a''). split; [by rewrite <- app_assoc|].
      split; [|done]. rewrite Hstep. simpl. by rewrite Hj.
    + destruct (Hvalue _ _ _ Hkv Hin) as (a'' & -> & Hleaf & _).
      exists (key :: a''). split; [by rewrite <- app_assoc|].
      split; [|done]. by rewrite Hstep.
Qed.

(** The leaf at an address that [dict_walker] gives for a dictionary. *)
Lemma dict_walker_get_nested items a leaf :
  keys_distinct (JDict items) = true ->
  (a, leaf) ∈ dict_walker (JDict items) [] ->
  get_nested_dict_recursive (JDict items) a = Ok leaf.
Proof.
  intros Hk Hin.
  destruct (dict_walker_leaf_resolves _ [] a leaf Hk Hin) as (a' & -> & Hget & Hnil).
  simpl. destruct a' as [|k a'].
  - destruct (Hnil eq_refl) as [_ Hd]. by destruct (Hd items).
  - by rewrite get_nested_get_at.
Qed.

(** X4. The addresses that [dict_walker] yields are the addresses that
    [get_nested_dict_recursive] reads: for a record that is a dictionary,
    reading the address yielded with a leaf gives that leaf. A record that
    is no dictionary is yielded whole, at the empty address, and that
    address [get_nested_dict_recursive] cannot read: it raises
    [IndexError]. *)
Theorem walker_addresses_resolve record a leaf :
  keys_distinct record = true ->
  (a, leaf) ∈ dict_walker record [] ->
  match record with
  | JDict _ => get_nested_dict_recursive record a = Ok leaf
  | _ => a = [] /\ leaf = record
         /\ get_nested_dict_recursive record a = Raise IndexError
  end.
Proof.
  intros Hk Hin.
  destruct (dict_walker_leaf_resolves record [] a leaf Hk Hin) as (a' & -> & Hget & Hnil).
  simpl. destruct a' as [|k a'].
  - destruct (Hnil eq_refl) as [-> Hd]. destruct record; try done. by destruct (Hd items).
  - rewrite get_nested_get_at by done.
    destruct record; try done; simpl in Hin;
      apply list_elem_of_singleton in Hin; done.
Qed.

Lemma walker_addresses_resolve_witness :
  get_nested_dict_recursive Sample.my_dict [KStr "part_2"; KInt 2; KStr "b"]
  = Ok (JNum "777").
Proof.
  apply (walker_addresses_resolve Sample.my_dict [KStr "part_2"; KInt 2; KStr "b"]
           (JNum "777")); [reflexivity|].
  vm_compute. repeat constructor.
Defined.

Lemma getitem_setitem_ne obj k k' v obj' :
  setitem obj k v = Ok obj' -> k <> k' -> getitem obj' k' = getitem obj k'.
Proof.
  destruct obj as [| | | |l|items]; try done.
  - destruct k as [s|n]; [done|]. simpl.
    destruct (decide (n < length l)); [|done]. intros [= <-] Hne.
    destruct k' as [s'|m]; [done|]. simpl.
    rewrite list_lookup_insert_ne; [done|congruence].
  - simpl. intros [= <-] Hne. simpl. rewrite adict_get_set_ne; [done|congruence].
Qed.

(** An edit goes through [setitem] of the first key. *)
Lemma edit_nested_first_key d k rest v d' :
  edit_nested_dict_recursive d (k :: rest) v = Ok d' ->
  exists x, setitem d k x = Ok d'
    /\ (rest <> [] -> exists d0, getitem d k = Ok d0
          /\ edit_nested_dict_recursive d0 rest v = Ok x).
Proof.
  destruct rest as [|k2 rest].
  - simpl. intros H. exists v. split; [done|]. done.
  - change (edit_nested_dict_recursive d (k :: k2 :: rest) v)
      with (d0 ← getitem d k;
            d1 ← edit_nested_dict_recursive d0 (k2 :: rest) v;
            match d with
            | JDict _ | JList _ => setitem d k d1
            | _ => Ok d
            end).
    intros H. inv_bind. rename a into d0, a0 into d1. exists d1. split.
    + destruct d; try done; simpl in Ha; try done.
      destruct k as [|n]; [done|].
      destruct (str_index s n); [|done]. inv_bind. by apply edit_nested_JStr in Ha0.
    + intros _. by exists d0.
Qed.

Lemma edit_frame d c k1 r1 v d' k2 r2 :
  edit_nested_dict_recursive d (c ++ k1 :: r1) v = Ok d' -> k1 <> k2 ->
  get_at d' (c ++ k2 :: r2) = get_at d (c ++ k2 :: r2).
Proof.
  revert d d'. induction c as [|k c IH]; intros d d' Hedit Hne.
  - simpl in Hedit. apply edit_nested_first_key in Hedit as (x & Hset & _).
    simpl. by rewrite (getitem_setitem_ne _ _ _ _ _ Hset Hne).
  - change ((k :: c) ++ k1 :: r1) with (k :: (c ++ k1 :: r1)) in Hedit.
    apply edit_nested_first_key in Hedit as (x & Hset & Hrest).
    destruct Hrest as (d0 & Hd0 & Hx); [by destruct c|].
    simpl. rewrite (getitem_setitem _ _ _ _ Hset), Hd0. simpl. by eapply IH.
Qed.

(** X5. [edit_nested_dict_recursive] changes the value at its address and
    at no address that leaves it: reading the address afterwards gives the
    new value, and reading an address that parts from it at some key gives
    what it gave before the edit. *)
Theorem edit_changes_one_address d a v d' :
  edit_nested_dict_recursive d a v = Ok d' ->
  get_nested_dict_recursive d' a = Ok v
  /\ forall c k1 r1 k2 r2, a = c ++ k1 :: r1 -> k1 <> k2 ->
       get_nested_dict_recursive d' (c ++ k2 :: r2)
       = get_nested_dict_recursive d (c ++ k2 :: r2).
Proof.
  intros Hedit. split; [by eapply edit_then_get|].
  intros c k1 r1 k2 r2 -> Hne.
  rewrite !get_nested_get_at by (by destruct c). by eapply edit_frame.
Qed.

Lemma edit_changes_one_address_witness :
  get_nested_dict_recursive Sample.my_dict_edited [KStr "part_1"; KInt 2]
  = Ok (JStr "DOG")
  /\ forall c k1 r1 k2 r2, [KStr "part_1"; KInt 2] = c ++ k1 :: r1 -> k1 <> k2 ->
       get_nested_dict_recursive Sample.my_dict_edited (c ++ k2 :: r2)
       = get_nested_dict_recursive Sample.my_dict (c ++ k2 :: r2).
Proof.
  apply (edit_changes_one_address Sample.my_dict [KStr "part_1"; KInt 2]
           (JStr "DOG")).
  reflexivity.
Defined.

(** ** Scanning *)

Lemma ImageReference_init_made E fs w t path line a s src r :
  ImageReference_init E fs w t path line (a, s) src = Ok r ->
  owned_by w r /\ ref_file_type r = t /\ ref_file_path r = path
  /\ ref_file_line r = line /\ json_address r = a
  /\ img_ref_content_is_html r = soup_find E s
  /\ ref_path r = Pathlib.parse src.
Proof.
  unfold ImageReference_init. intros H. inv_bind.
  assert (img_ref_content_is_html r = soup_find E s) as Hhtml.
  { revert H. unfold set_editable_attributes.
    destruct (resolve_on_disk _ _ _ _) as [d|].
    - destruct (fs d); [|done]. intros H. inv_bind. done.
    - intros H. by inv_bind. }
  apply set_editable_attributes_fixed in H
    as (Hwf & Hcore & Hfile & Htype & Hline & Haddr & _ & Hp).
  simpl in *. unfold owned_by. done.
Qed.

Lemma unique_img_refs_in_html_srcs E content srcs src :
  unique_img_refs_in_html E content = Ok srcs -> src ∈ srcs ->
  Some src ∈ soup_img_srcs E content.
Proof.
  unfold unique_img_refs_in_html.
  revert srcs. induction (soup_img_srcs E content) as [|x l IH] using rev_ind;
    intros srcs.
  - simpl. intros [= <-] Hin. by apply elem_of_nil in Hin.
  - rewrite foldl_snoc. intros H Hin. inv_bind. rename a into seen.
    destruct x as [s|]; [|done]. injection H as <-.
    apply elem_of_set_add in Hin as [Hin| ->].
    + apply elem_of_app. left. by apply (IH seen).
    + apply elem_of_app. right. by left.
Qed.

(** What one leaf adds to a world. *)
Lemma find_refs_in_item_adds E fs path t line a leaf w w' :
  find_refs_in_item E fs path t line (a, leaf) w = Ok w' ->
  files w' = files w /\ trash_queue w' = trash_queue w
  /\ world_folder w' = world_folder w /\ core_data_folder w' = core_data_folder w
  /\ exists created,
       all_img_refs w' = all_img_refs w ++ created
       /\ forall r, r ∈ created -> made_from E w t path line a leaf r.
Proof.
  unfold find_refs_in_item. simpl.
  assert (files w = files w /\ trash_queue w = trash_queue w
          /\ world_folder w = world_folder w /\ core_data_folder w = core_data_folder w
          /\ exists created, all_img_refs w = all_img_refs w ++ created
               /\ forall r, r ∈ created -> made_from E w t path line a leaf r) as Hnone.
  { repeat (split; [done|]). exists []. rewrite app_nil_r. split; [done|].
    intros r Hr. by apply elem_of_nil in Hr. }
  destruct leaf as [| | |s| |]; try (intros [= <-]; exact Hnone).
  destruct (regex_img_exp_found s) eqn:Hre; [|intros [= <-]; exact Hnone].
  destruct (soup_find E s) eqn:Hhtml.
  - intros H. inv_bind. rename a0 into srcs.
    assert (forall src, src ∈ srcs -> Some src ∈ soup_img_srcs E s) as Hsrcs.
    { intros src. by apply unique_img_refs_in_html_srcs. }
    clear Ha. revert w w' H Hnone. induction srcs as [|src srcs IH]; intros w w' H Hnone.
    + simpl in H. by inv_bind.
    + simpl in H. inv_bind. rename a1 into r.
      apply ImageReference_init_made in Ha0
        as (Hown & Htype & Hfile & Hline & Haddr & Hishtml & Hpath).
      destruct (IH (fun x Hx => Hsrcs x (list_elem_of_further _ _ _ Hx))
                  (register_ref w r) w' H)
        as (Hf & Hq & Hwf & Hcore & created & Hrefs & Hmade).
      { repeat (split; [done|]). exists []. rewrite app_nil_r. split; [done|].
        intros r' Hr'. by apply elem_of_nil in Hr'. }
      simpl in *. repeat (split; [done|]).
      exists (r :: created). split; [by rewrite Hrefs, <- app_assoc|].
      intros r' Hr'. apply elem_of_cons in Hr' as [->|Hr'].
      * split; [done|]. repeat (split; [done|]). exists s.
        split; [done|]. split; [done|]. split; [done|].
        rewrite Hhtml. split; [done|]. exists src. split; [|done].
        apply Hsrcs. by left.
      * destruct (Hmade r' Hr') as (Hown' & Hrest). split; [|exact Hrest].
        unfold owned_by in *. simpl in Hown'. done.
  - intros H. inv_bind. rename a0 into r.
    apply ImageReference_init_made in Ha
      as (Hown & Htype & Hfile & Hline & Haddr & Hishtml & Hpath).
    simpl. repeat (split; [done|]). exists [r]. split; [done|].
    intros r' Hr'. apply list_elem_of_singleton in Hr' as ->.
    split; [done|]. repeat (split; [done|]). exists s.
    split; [done|]. split; [done|]. split; [done|].
    by rewrite Hhtml.
Qed.

Lemma made_from_owner E w v t path line a leaf r :
  world_folder v = world_folder w -> core_data_folder v = core_data_folder w ->
  made_from E v t path line a leaf r -> made_from E w t path line a leaf r.
Proof.
  unfold made_from, owned_by. intros -> ->. done.
Qed.

Lemma traverse_scanned_from E fs w t path records line content v v' :
  (path, records) ∈ files_get (files w) t -> records !! line = Some content ->
  scanned_from E w v ->
  traverse_dict_and_find_all_refs E fs content path t line v = Ok v' ->
  scanned_from E w v'.
Proof.
  intros Hdoc Hline. unfold traverse_dict_and_find_all_refs.
  apply for_each_invariant. intros [a leaf] u u' Hleaf (Hf & Hq & Hwf & Hcore & Hrefs) Hbody.
  apply find_refs_in_item_adds in Hbody
    as (Hf' & Hq' & Hwf' & Hcore' & created & Hrefs' & Hmade).
  split; [congruence|]. split; [congruence|]. split; [congruence|].
  split; [congruence|]. intros r Hr. rewrite Hrefs' in Hr.
  apply elem_of_app in Hr as [Hr|Hr]; [by apply Hrefs|].
  pose proof (made_from_owner E w u _ _ _ _ _ _ Hwf Hcore (Hmade r Hr)) as Hm.
  assert (ref_file_type r = t) as Ht by (by destruct Hm as (_ & ? & _)).
  exists path, records, line, content, a, leaf. rewrite Ht. done.
Qed.

Lemma scan_kind_scanned_from E fs w t v v' :
  scanned_from E w v ->
  for_each (fun '(path, file) =>
              for_each (fun '(i, content) =>
                          traverse_dict_and_find_all_refs E fs content path t i)
                       (imap (fun i c => (i, c)) file))
           (files_get (files w) t) v = Ok v' ->
  scanned_from E w v'.
Proof.
  apply for_each_invariant. intros [path file] u u' Hdoc Hu.
  apply for_each_invariant; [|done]. intros [i content] x x' Hi Hx.
  apply elem_of_lookup_imap in Hi as (j & c & [= -> ->] & Hj).
  by eapply traverse_scanned_from.
Qed.

Lemma find_all_scanned_from E fs w w' :
  find_all_img_references_in_world E fs w = Ok w' -> scanned_from E w w'.
Proof.
  unfold find_all_img_references_in_world. intros H. inv_bind. rename a into w1.
  eapply scan_kind_scanned_from; [|exact H].
  eapply scan_kind_scanned_from; [|exact Ha].
  repeat (split; [done|]). intros r Hr. by apply elem_of_nil in Hr.
Qed.

(** X6. After a scan, every reference made from a [.db] document reads,
    through its document, its line and its address, the leaf it was made
    from: a string that holds one of the four extensions. Its declared path
    is that string, parsed, when the string is no HTML, and the [src] of
    one of the [img] elements of the string when it is. This holds for
    [.db] documents of distinct paths whose records are dictionaries with
    distinct keys, as parsed JSON objects are. *)
Theorem scanned_reference_reads_its_leaf E fs w w' :
  NoDup (files_db (files w)).*1 ->
  (forall path records content,
     (path, records) ∈ files_db (files w) -> content ∈ records ->
     (exists items, content = JDict items) /\ keys_distinct content = true) ->
  find_all_img_references_in_world E fs w = Ok w' ->
  forall r, r ∈ all_img_refs w' -> ref_file_type r = db ->
    exists s,
      get_img_ref_content w' r = Ok (JStr s)
      /\ regex_img_exp_found s = true
      /\ img_ref_content_is_html r = soup_find E s
      /\ (img_ref_content_is_html r = false -> ref_path r = Pathlib.parse s)
      /\ (img_ref_content_is_html r = true ->
            exists src, Some src ∈ soup_img_srcs E s
              /\ ref_path r = Pathlib.parse src).
Proof.
  intros Hnd Hrecords Hscan r Hr Hdb.
  apply find_all_scanned_from in Hscan as (Hfiles & _ & _ & _ & Hprov).
  destruct (Hprov r Hr)
    as (path & records & line & content & a & leaf & Hdoc & Hline & Hleaf & Hmade).
  rewrite Hdb in Hdoc, Hmade. simpl in Hdoc.
  destruct Hmade as (_ & _ & Hpath & Haddr & s & -> & Hre & Hhtml & Hcase).
  destruct (Hrecords path records content Hdoc) as [[items ->] Hkeys].
  { by eapply list_elem_of_lookup_2. }
  assert (ref_file_line r = Some line) as Hl.
  { destruct (soup_find E s); by destruct Hcase as [? _]. }
  exists s. split.
  - unfold get_img_ref_content, file_record. rewrite Hfiles, Hdb, Hpath, Hl, Haddr.
    simpl. rewrite (elem_of_adict_get _ _ _ Hnd Hdoc), Hline. simpl.
    by apply dict_walker_get_nested.
  - split; [done|]. split; [done|]. rewrite Hhtml.
    destruct (soup_find E s); split; try done.
    + intros _. by destruct Hcase as [_ ?].
    + intros _. by destruct Hcase as [_ ?].
Qed.

Lemma scanned_reference_reads_its_leaf_witness :
  Forall (fun r =>
            ref_file_type r = db ->
            exists s,
              get_img_ref_content Sample.town_world r = Ok (JStr s)
              /\ regex_img_exp_found s = true
              /\ img_ref_content_is_html r = soup_find Sample.town_ext s
              /\ (img_ref_content_is_html r = false -> ref_path r = Pathlib.parse s)
              /\ (img_ref_content_is_html r = true ->
                    exists src, Some src ∈ soup_img_srcs Sample.town_ext s
                      /\ ref_path r = Pathlib.parse src))
         (all_img_refs Sample.town_world).
Proof.
  apply Forall_forall.
  apply (scanned_reference_reads_its_leaf Sample.town_ext Sample.town_disk
           (Sample.world Sample.town_documents) Sample.town_world).
  - apply (bool_decide_unpack _). vm_compute. exact I.
  - intros path records content Hdoc Hin. simpl in Hdoc.
    apply list_elem_of_singleton in Hdoc as [= -> ->].
    apply elem_of_cons in Hin as [->|Hin]; [split; [eexists|]; reflexivity|].
    apply list_elem_of_singleton in Hin as ->. split; [eexists|]; reflexivity.
  - reflexivity.
Defined.

Lemma register_ref_by_id w r :
  by_id_holds_last w -> by_id_holds_last (register_ref w r).
Proof.
  intros Hinv id. unfold register_ref. simpl.
  destruct (decide (id = ref_id r)) as [->|Hne].
  - rewrite adict_get_set_eq. split.
    + exists r. split; [|done]. by rewrite list_lookup_middle.
    + intros j r' Hj _. apply lookup_lt_Some in Hj. rewrite length_app in Hj.
      simpl in Hj. lia.
  - rewrite adict_get_set_ne by done. specialize (Hinv id).
    destruct (adict_get (all_img_refs_by_id w) id) as [i|].
    + destruct Hinv as [(r0 & Hi & Hid) Hlast]. split.
      * exists r0. split; [|done]. by apply lookup_app_l_Some.
      * intros j r' Hj Hid'. apply lookup_app_Some in Hj as [Hj|[Hlen Hj]].
        { by eapply Hlast. }
        destruct (j - length (all_img_refs w)) eqn:Hd; [|done].
        injection Hj as <-. congruence.
    + intros r' Hr'. apply elem_of_app in Hr' as [Hr'|Hr']; [by apply Hinv|].
      apply list_elem_of_singleton in Hr' as ->. congruence.
Qed.

Lemma find_refs_in_item_by_id E fs path t line item w w' :
  by_id_holds_last w ->
  find_refs_in_item E fs path t line item w = Ok w' -> by_id_holds_last w'.
Proof.
  intros Hinv. unfold find_refs_in_item.
  destruct item.2 as [| | |s| |]; try (by intros [= <-]).
  destruct (regex_img_exp_found s); [|by intros [= <-]].
  destruct (soup_find E s).
  - intros H. inv_bind. revert H. apply for_each_invariant; [|done].
    intros src u u' _ Hu Hbody. inv_bind. by apply register_ref_by_id.
  - intros H. inv_bind. by apply register_ref_by_id.
Qed.

Lemma find_all_by_id E fs w w' :
  find_all_img_references_in_world E fs w = Ok w' -> by_id_holds_last w'.
Proof.
  unfold find_all_img_references_in_world. intros H. inv_bind. rename a into w1.
  assert (forall t v v',
            by_id_holds_last v ->
            for_each (fun '(path, file) =>
                        for_each (fun '(i, content) =>
                                    traverse_dict_and_find_all_refs E fs content path t i)
                                 (imap (fun i c => (i, c)) file))
                     (files_get (files w) t) v = Ok v' ->
            by_id_holds_last v') as Hkind.
  { intros t v v' Hv. revert v v' Hv. apply for_each_invariant.
    intros [path file] u u' _ Hu. revert u u' Hu. apply for_each_invariant.
    intros [i content] x x' _ Hx. unfold traverse_dict_and_find_all_refs.
    revert x x' Hx. apply for_each_invariant.
    intros item y y' _ Hy. by apply find_refs_in_item_by_id. }
  eapply Hkind; [|exact H]. eapply Hkind; [|exact Ha].
  intros id. simpl. intros r Hr. by apply elem_of_nil in Hr.
Qed.

(** X7. A scan leaves the documents and the trash queue as they are; every
    reference it makes holds the folders of the world and names a loaded
    document of its kind; and [all_img_refs_by_id] holds, for each id, the
    reference registered last with that id, and nothing for an id that no
    reference has. *)
Theorem scan_keeps_the_world_and_indexes_by_id E fs w w' :
  find_all_img_references_in_world E fs w = Ok w' ->
  files w' = files w /\ trash_queue w' = trash_queue w
  /\ (forall r, r ∈ all_img_refs w' ->
        owned_by w r
        /\ adict_mem (files_get (files w) (ref_file_type r)) (ref_file_path r) = true)
  /\ by_id_holds_last w'.
Proof.
  intros Hscan. pose proof (find_all_by_id _ _ _ _ Hscan) as Hid.
  apply find_all_scanned_from in Hscan as (Hfiles & Hq & _ & _ & Hprov).
  split; [done|]. split; [done|]. split; [|done].
  intros r Hr.
  destruct (Hprov r Hr)
    as (path & records & line & content & a & leaf & Hdoc & _ & _ & Hmade).
  destruct Hmade as (Hown & _ & Hpath & _). split; [done|].
  unfold adict_mem. apply bool_decide_eq_true. rewrite Hpath.
  destruct (adict_get _ path) eqn:Hget; [eauto|].
  apply adict_get_None in Hget. destruct Hget. apply list_elem_of_fmap.
  by exists (path, records).
Qed.

Lemma scan_keeps_the_world_and_indexes_by_id_witness :
  files Sample.town_world = files (Sample.world Sample.town_documents)
  /\ trash_queue Sample.town_world
     = trash_queue (Sample.world Sample.town_documents)
  /\ (forall r, r ∈ all_img_refs Sample.town_world ->
        owned_by (Sample.world Sample.town_documents) r
        /\ adict_mem (files_get (files (Sample.world Sample.town_documents))
                        (ref_file_type r)) (ref_file_path r) = true)
  /\ by_id_holds_last Sample.town_world.
Proof.
  apply (scan_keeps_the_world_and_indexes_by_id Sample.town_ext Sample.town_disk
           (Sample.world Sample.town_documents) Sample.town_world).
  reflexivity.
Defined.

(** ** Legacy paths: the whole pass *)

Lemma try_to_fix_one_broken_ref_cases E fs w i fixed w' :
  try_to_fix_one_broken_ref E fs w i = Ok (fixed, w') ->
  trash_queue w' = trash_queue w
  /\ ((fixed = false /\ w' = w)
      \/ (fixed = true
          /\ exists r r',
               all_img_refs w !! i = Some r
               /\ Str.take 7 (Pathlib.str (ref_path r)) = "modules"
               /\ is_file fs (Pathlib.parse (Str.replace "modules" "worlds"
                                               (Pathlib.str (ref_path r)))) = true
               /\ set_editable_attributes E fs r
                    (Pathlib.parse (Str.replace "modules" "worlds"
                                      (Pathlib.str (ref_path r)))) = Ok r'
               /\ all_img_refs w' = <[i:=r']> (all_img_refs w))).
Proof.
  unfold try_to_fix_one_broken_ref, the_ref.
  destruct (all_img_refs w !! i) as [r|] eqn:Hi; [|done].
  cbn -[Str.replace Str.take].
  destruct (bool_decide _) eqn:Hmod; [|intros [= <- <-]; by auto].
  apply bool_decide_eq_true in Hmod.
  destruct (is_file fs _) eqn:Hfile; [|intros [= <- <-]; by auto].
  intros H. inv_bind.
  apply repoint_refs in Ha1 as (r' & Hset & Hrefs & Hq).
  split; [done|]. right. split; [done|]. by exists r, r'.
Qed.

Lemma resolved_as_written E fs r0 p r :
  is_file fs p = true -> set_editable_attributes E fs r0 p = Ok r ->
  ref_path r = p /\ img_exists r = true /\ img_path_on_disk r = Some p.
Proof.
  intros Hfile Hset.
  assert (resolve_on_disk E fs (ref_core_data_folder r0) p = Some p) as Hres.
  { unfold resolve_on_disk. by rewrite Hfile. }
  destruct (set_editable_attributes_found E fs r0 p p r Hres Hset)
    as (data & _ & Hp & Hd & He & _). done.
Qed.

Lemma get_broken_refs_NoDup w : NoDup (get_broken_refs w).
Proof.
  unfold get_broken_refs.
  assert (NoDup (ref_objects w).*1) as Hnd.
  { rewrite ref_objects_positions. apply NoDup_seq. }
  revert Hnd. generalize (ref_objects w) as l.
  induction l as [|[i r] l IH]; intros Hnd; [constructor|].
  csimpl in *. apply NoDup_cons in Hnd as [Hfresh Hnd].
  destruct (_ || _); [|by apply IH]. csimpl. apply NoDup_cons. split; [|by apply IH].
  intros Hin. apply Hfresh. apply list_elem_of_omap in Hin as ([j r'] & Hin & Hf).
  destruct (_ || _); [|done]. injection Hf as ->. apply list_elem_of_fmap.
  by exists (i, r').
Qed.

(** The loop over the broken references: each one is left as it is or
    resolved for its path with [modules] replaced. *)
Lemma try_to_fix_loop E fs l : forall n v n' v',
  NoDup l ->
  for_each (fun i '(n, w) =>
              '(fixed, w') ← try_to_fix_one_broken_ref E fs w i;
              Ok (if fixed : bool then S n else n, w')) l (n, v) = Ok (n', v') ->
  trash_queue v' = trash_queue v
  /\ length (all_img_refs v') = length (all_img_refs v)
  /\ n' <= n + length l
  /\ forall i r, all_img_refs v !! i = Some r ->
       all_img_refs v' !! i = Some r
       \/ (i ∈ l
           /\ Str.take 7 (Pathlib.str (ref_path r)) = "modules"
           /\ exists r', all_img_refs v' !! i = Some r'
                /\ ref_path r' = Pathlib.parse (Str.replace "modules" "worlds"
                                                  (Pathlib.str (ref_path r)))
                /\ img_exists r' = true /\ img_path_on_disk r' = Some (ref_path r')).
Proof.
  induction l as [|i l IH]; intros n v n' v' Hnd Hrun.
  - simpl in Hrun. injection Hrun as <- <-. repeat (split; [done || lia|]). auto.
  - apply NoDup_cons in Hnd as [Hfresh Hnd].
    rewrite for_each_cons in Hrun. apply bind_Ok in Hrun as ([n1 v1] & Hstep & Hrun).
    apply bind_Ok in Hstep as ([fixed v1'] & Hone & Hret). injection Hret as <- ->.
    apply try_to_fix_one_broken_ref_cases in Hone as [Hq1 Hcase].
    apply IH in Hrun as (Hq & Hlen & Hn & Hrefs); [|done].
    destruct Hcase as [[-> ->]|(-> & r0 & r0' & Hi & Hmod & Hfile & Hset & Hrefs1)].
    + split; [done|]. split; [done|]. split; [simpl; lia|].
      intros j r Hj. destruct (Hrefs j r Hj) as [?|(Hin & Hrest)]; [by left|].
      right. split; [by right|done].
    + split; [congruence|]. split; [by rewrite Hlen, Hrefs1, length_insert|].
      split; [simpl; lia|]. intros j r Hj.
      destruct (decide (j = i)) as [->|Hne].
      * right. rewrite Hi in Hj. injection Hj as <-. split; [by left|]. split; [done|].
        destruct (resolved_as_written E fs _ _ _ Hfile Hset) as (Hp & He & Hd).
        exists r0'. rewrite Hp. split; [|done].
        destruct (Hrefs i r0') as [?|(Hin & _)]; [|done|done].
        rewrite Hrefs1. apply list_lookup_insert_eq. by eapply lookup_lt_Some.
      * destruct (Hrefs j r) as [?|(Hin & Hrest)].
        { rewrite Hrefs1. by rewrite list_lookup_insert_ne. }
        { by left. }
        { right. split; [by right|done]. }
Qed.

(** X8. [try_to_fix_all_broken_refs] leaves the trash queue alone, and
    every reference as it was but for broken references whose path string
    starts with [modules]: such a reference is as it was, or it declares
    the path with [modules] replaced by [worlds] and is found on disk at
    that path as written. The count of repairs is at most the number of
    broken references. *)
Theorem legacy_repair_changes_broken_references_only E fs w n w' :
  try_to_fix_all_broken_refs E fs w = Ok (n, w') ->
  trash_queue w' = trash_queue w
  /\ length (all_img_refs w') = length (all_img_refs w)
  /\ n <= length (get_broken_refs w)
  /\ forall i r, all_img_refs w !! i = Some r ->
       all_img_refs w' !! i = Some r
       \/ (i ∈ get_broken_refs w
           /\ Str.take 7 (Pathlib.str (ref_path r)) = "modules"
           /\ exists r', all_img_refs w' !! i = Some r'
                /\ ref_path r' = Pathlib.parse (Str.replace "modules" "worlds"
                                                  (Pathlib.str (ref_path r)))
                /\ img_exists r' = true /\ img_path_on_disk r' = Some (ref_path r')).
Proof.
  unfold try_to_fix_all_broken_refs. intros H.
  apply try_to_fix_loop in H; [|apply get_broken_refs_NoDup]. done.
Qed.

Lemma legacy_repair_changes_broken_references_only_witness :
  trash_queue Sample.foo_world_fixed = trash_queue Sample.foo_world
  /\ length (all_img_refs Sample.foo_world_fixed)
     = length (all_img_refs Sample.foo_world)
  /\ 1 <= length (get_broken_refs Sample.foo_world)
  /\ forall i r, all_img_refs Sample.foo_world !! i = Some r ->
       all_img_refs Sample.foo_world_fixed !! i = Some r
       \/ (i ∈ get_broken_refs Sample.foo_world
           /\ Str.take 7 (Pathlib.str (ref_path r)) = "modules"
           /\ exists r', all_img_refs Sample.foo_world_fixed !! i = Some r'
                /\ ref_path r' = Pathlib.parse (Str.replace "modules" "worlds"
                                                  (Pathlib.str (ref_path r)))
                /\ img_exists r' = true /\ img_path_on_disk r' = Some (ref_path r')).
Proof.
  apply (legacy_repair_changes_broken_references_only Sample.no_encoder
           Sample.foo_disk Sample.foo_world 1 Sample.foo_world_fixed).
  reflexivity.
Defined.

(** ** Extension repair *)

(** *** The name of the copy *)

Lemma name_sibling p n : Pathlib.name (sibling p n) = n.
Proof. unfold Pathlib.name, sibling. simpl. by rewrite last_last. Qed.

Lemma sibling_sibling p n n' : sibling (sibling p n) n' = sibling p n'.
Proof. unfold sibling. simpl. by rewrite removelast_last. Qed.

Lemma plain_extension_facts e :
  plain_extension e = true ->
  e <> "" /\ Str.contains "." e = false /\ Str.contains "/" e = false.
Proof.
  unfold plain_extension. intros H.
  apply andb_true_iff in H as [H H3]. apply andb_true_iff in H as [H1 H2].
  apply negb_true_iff in H2, H3. split; [by destruct e|done].
Qed.

(** The stem and the suffix of a name made of a stem, a dot and a plain
    extension. *)
Lemma stem_suffix_plain p x e :
  Pathlib.name p = x +:+ "." +:+ e -> x <> "" -> plain_extension e = true ->
  Pathlib.stem p = x /\ Pathlib.suffix p = "." +:+ e.
Proof.
  intros Hname Hx He. apply plain_extension_facts in He as (He & Hdot & _).
  unfold Pathlib.stem, Pathlib.suffix. rewrite Hname.
  change (x +:+ "." +:+ e) with (x +:+ String "." e).
  rewrite str_rfind_at by (by apply str_contains_char_rfind).
  rewrite str_length_app. simpl.
  rewrite (bool_decide_eq_true_2 (0 < String.length x)) by (destruct x; [done|simpl; lia]).
  rewrite bool_decide_eq_true_2 by (destruct e; [done|simpl; lia]).
  simpl. by rewrite str_take_app, str_drop_length_app.
Qed.

(** A name is its stem followed by its suffix. *)
Lemma stem_suffix_name p : Pathlib.stem p +:+ Pathlib.suffix p = Pathlib.name p.
Proof.
  unfold Pathlib.stem, Pathlib.suffix.
  destruct (Str.rfind "." (Pathlib.name p)) as [i|]; [|apply str_app_nil_r].
  destruct (_ && _); [apply str_take_drop|apply str_app_nil_r].
Qed.

Lemma stem_nonempty p : Pathlib.name p <> "" -> Pathlib.stem p <> "".
Proof.
  unfold Pathlib.stem. intros Hn.
  destruct (Str.rfind "." (Pathlib.name p)) as [i|]; [|done].
  destruct (bool_decide (0 < i)) eqn:Hi; [|done]. simpl.
  destruct (bool_decide (i < _)); [|done].
  apply bool_decide_eq_true in Hi.
  destruct (Pathlib.name p); [done|]. destruct i; [lia|done].
Qed.

Lemma with_suffix_plain p e :
  Pathlib.name p <> "" -> plain_extension e = true ->
  Pathlib.with_suffix p ("." +:+ e) = Ok (candidate p e 0).
Proof.
  intros Hn He. pose proof (plain_extension_facts e He) as (Hne & Hdot & Hslash).
  unfold Pathlib.with_suffix.
  change ("." +:+ e) with (String "." e).
  assert (Str.contains "/" (String "." e) = false) as ->.
  { simpl. simpl in Hslash. destruct e; [done|]. simpl in *. done. }
  simpl. rewrite (bool_decide_eq_false_2 (String "." e = ".")) by (intros [= ->]; done).
  rewrite (bool_decide_eq_false_2 (Pathlib.name p = "")) by done.
  unfold candidate, sibling. do 4 f_equal. simpl.
  assert (Str.take (String.length (Pathlib.name p) - String.length (Pathlib.suffix p))
            (Pathlib.name p) = Pathlib.stem p) as Htake.
  { destruct (decide (Pathlib.suffix p = "")) as [Hs|Hs].
    - rewrite Hs. simpl. rewrite Nat.sub_0_r.
      pose proof (stem_suffix_name p) as H. rewrite Hs, str_app_nil_r in H.
      rewrite H. rewrite <- (str_app_nil_r (Pathlib.name p)) at 2.
      apply str_take_app.
    - destruct (suffix_cases p Hs) as (i & Hfind & Hi & Hsuf).
      rewrite Hsuf, str_length_drop.
      replace (String.length (Pathlib.name p) - (String.length (Pathlib.name p) - i))
        with i by lia.
      unfold Pathlib.stem. rewrite Hfind.
      rewrite bool_decide_eq_true_2 by lia. by rewrite bool_decide_eq_true_2 by lia. }
  destruct (Str.truthy (Pathlib.suffix p)) eqn:Hold.
  - by rewrite Htake.
  - destruct (Pathlib.suffix p) eqn:Hs; [|done].
    pose proof (stem_suffix_name p) as H. rewrite Hs, str_app_nil_r in H. by rewrite H.
Qed.

Lemma with_stem_plain q x e :
  Pathlib.name q = x +:+ "." +:+ e -> x <> "" ->
  Str.contains "/" x = false -> plain_extension e = true ->
  Pathlib.with_stem q (Pathlib.stem q +:+ "_")
  = Ok (sibling q ((x +:+ "_") +:+ "." +:+ e)).
Proof.
  intros Hname Hx Hslash He.
  destruct (stem_suffix_plain q x e Hname Hx He) as [Hstem Hsuf].
  apply plain_extension_facts in He as (Hne & Hdot & Hslash').
  unfold Pathlib.with_stem, Pathlib.with_name. rewrite Hstem, Hsuf.
  rewrite bool_decide_eq_false_2 by (rewrite Hname; by destruct x).
  assert (Pathlib.valid_name ((x +:+ "_") +:+ "." +:+ e) = true) as ->; [|done].
  unfold Pathlib.valid_name.
  rewrite !str_contains_char_app, Hslash, Hslash'.
  simpl. destruct x as [|a x]; [done|]. rewrite !str_app_cons.
  rewrite bool_decide_eq_true_2 by done. simpl.
  rewrite bool_decide_eq_true_2; [done|].
  intros [= -> H]. by destruct x.
Qed.

Lemma underscores_snoc x k :
  (x +:+ "_") +:+ underscores k = x +:+ underscores (S k).
Proof. simpl. by rewrite str_app_assoc. Qed.

(** With no path refused, the search is the search of a file system
    without limit. *)
Lemma find_filename_checked_unlimited fs suffix : forall depth p,
  find_filename_that_doesnt_exist_yet_checked (fun _ => false) depth fs p suffix
  = find_filename_that_doesnt_exist_yet depth fs p suffix.
Proof.
  induction depth as [|depth IH]; intros p; [done|]. simpl.
  destruct (Pathlib.with_suffix p suffix) as [path|]; [|done].
  unfold is_file_checked. destruct (is_file fs path); [|done].
  destruct (Pathlib.with_stem _ _) as [next|]; [|done]. apply IH.
Qed.

(** The search on [q], whose name is a stem, a dot and the extension, tries
    the names of [q] with more and more underscores. *)
Lemma find_filename_checked_steps refused fs e k : forall depth q x,
  Pathlib.name q = x +:+ "." +:+ e -> x <> "" ->
  Str.contains "/" x = false -> plain_extension e = true ->
  (forall j, j < k ->
     refused (sibling q (x +:+ underscores j +:+ "." +:+ e)) = false
     /\ is_file fs (sibling q (x +:+ underscores j +:+ "." +:+ e)) = true) ->
  refused (sibling q (x +:+ underscores k +:+ "." +:+ e)) = true
  \/ is_file fs (sibling q (x +:+ underscores k +:+ "." +:+ e)) = false ->
  k < depth ->
  find_filename_that_doesnt_exist_yet_checked refused depth fs q ("." +:+ e)
  = if refused (sibling q (x +:+ underscores k +:+ "." +:+ e))
    then Some (Raise OSError)
    else Some (Ok (sibling q (x +:+ underscores k +:+ "." +:+ e))).
Proof.
  induction k as [|k IH]; intros depth q x Hname Hx Hslash He Hfiles Hfree Hdepth;
    (destruct depth as [|depth]; [lia|]).
  - simpl find_filename_that_doesnt_exist_yet_checked.
    rewrite with_suffix_plain by (done || rewrite Hname; by destruct x).
    unfold candidate.
    destruct (stem_suffix_plain q x e Hname Hx He) as [-> _].
    unfold is_file_checked.
    destruct (refused _); [done|]. destruct Hfree as [Hrefused | ->]; done.
  - simpl find_filename_that_doesnt_exist_yet_checked.
    rewrite with_suffix_plain by (done || rewrite Hname; by destruct x).
    unfold candidate.
    destruct (stem_suffix_plain q x e Hname Hx He) as [-> _].
    unfold is_file_checked at 1.
    destruct (Hfiles 0) as [-> ->]; [lia|].
    assert (Pathlib.name (sibling q (x +:+ underscores 0 +:+ "." +:+ e))
            = x +:+ "." +:+ e) as Hname0 by apply name_sibling.
    rewrite (with_stem_plain _ x e Hname0 Hx Hslash He).
    rewrite sibling_sibling.
    rewrite (IH depth (sibling q ((x +:+ "_") +:+ "." +:+ e)) (x +:+ "_")).
    + by rewrite sibling_sibling, <- str_app_assoc, underscores_snoc, str_app_assoc.
    + apply name_sibling.
    + by destruct x.
    + by rewrite str_contains_char_app, Hslash.
    + done.
    + intros j Hj. rewrite sibling_sibling.
      rewrite <- str_app_assoc, underscores_snoc, str_app_assoc.
      apply Hfiles. lia.
    + rewrite sibling_sibling.
      by rewrite <- str_app_assoc, underscores_snoc, str_app_assoc.
    + lia.
Qed.

Lemma find_filename_checked_exhausted refused fs e : forall depth q x,
  Pathlib.name q = x +:+ "." +:+ e -> x <> "" ->
  Str.contains "/" x = false -> plain_extension e = true ->
  (forall j, j < depth ->
     refused (sibling q (x +:+ underscores j +:+ "." +:+ e)) = false
     /\ is_file fs (sibling q (x +:+ underscores j +:+ "." +:+ e)) = true) ->
  find_filename_that_doesnt_exist_yet_checked refused depth fs q ("." +:+ e) = None.
Proof.
  induction depth as [|depth IH]; intros q x Hname Hx Hslash He Hfiles; [done|].
  simpl find_filename_that_doesnt_exist_yet_checked.
  rewrite with_suffix_plain by (done || rewrite Hname; by destruct x).
  unfold candidate.
  destruct (stem_suffix_plain q x e Hname Hx He) as [-> _].
  unfold is_file_checked at 1.
  destruct (Hfiles 0) as [-> ->]; [lia|].
  assert (Pathlib.name (sibling q (x +:+ underscores 0 +:+ "." +:+ e))
          = x +:+ "." +:+ e) as Hname0 by apply name_sibling.
  rewrite (with_stem_plain _ x e Hname0 Hx Hslash He).
  rewrite sibling_sibling.
  apply (IH (sibling q ((x +:+ "_") +:+ "." +:+ e)) (x +:+ "_")).
  - apply name_sibling.
  - by destruct x.
  - by rewrite str_contains_char_app, Hslash.
  - done.
  - intros j Hj. rewrite sibling_sibling.
    rewrite <- str_app_assoc, underscores_snoc, str_app_assoc.
    apply Hfiles. lia.
Qed.

(** The first call replaces the suffix; the search goes on from there. *)
Lemma find_filename_checked_from_first_candidate refused depth fs p e :
  Pathlib.name p <> "" -> plain_extension e = true ->
  find_filename_that_doesnt_exist_yet_checked refused depth fs p ("." +:+ e)
  = find_filename_that_doesnt_exist_yet_checked refused depth fs
      (candidate p e 0) ("." +:+ e).
Proof.
  intros Hn He. destruct depth as [|depth]; [done|].
  simpl find_filename_that_doesnt_exist_yet_checked.
  rewrite (with_suffix_plain p e Hn He).
  assert (Pathlib.name (candidate p e 0) = Pathlib.stem p +:+ "." +:+ e) as Hname0
    by apply name_sibling.
  rewrite (with_suffix_plain (candidate p e 0) e) by (done || rewrite Hname0;
    pose proof (stem_nonempty p Hn); by destruct (Pathlib.stem p)).
  assert (candidate (candidate p e 0) e 0 = candidate p e 0) as ->; [|done].
  unfold candidate at 1.
  destruct (stem_suffix_plain _ _ e Hname0 (stem_nonempty p Hn) He) as [-> _].
  unfold candidate. by rewrite sibling_sibling.
Qed.

Lemma find_filename_is_no_file fs suffix : forall depth p q,
  find_filename_that_doesnt_exist_yet depth fs p suffix = Some (Ok q) ->
  is_file fs q = false.
Proof.
  induction depth as [|depth IH]; intros p q; [done|]. simpl.
  destruct (Pathlib.with_suffix p suffix) as [path|]; [|done].
  destruct (is_file fs path) eqn:Hfile.
  - destruct (Pathlib.with_stem _ _) as [next|]; [|done]. apply IH.
  - by intros [= <-].
Qed.

(** X9. For a path with a name and a plain extension [e],
    [find_filename_that_doesnt_exist_yet] tries the names made of the stem,
    some underscores, a dot and [e] (no underscore, then one, then two,
    ...), each a file that the file system takes, up to the first that is
    no file or that the file system refuses (as too long, say): it returns
    that name when it is no file, it ends in [OSError] when the name is
    refused, and it ends in [RecursionError] when the name lies beyond the
    depth of recursion that the interpreter allows. *)
Theorem find_filename_returns_first_free_name refused depth fs p e k :
  Pathlib.name p <> "" -> Str.contains "/" (Pathlib.name p) = false ->
  plain_extension e = true ->
  (forall j, j < k ->
     refused (candidate p e j) = false /\ is_file fs (candidate p e j) = true) ->
  refused (candidate p e k) = true \/ is_file fs (candidate p e k) = false ->
  find_filename_that_doesnt_exist_yet_checked refused depth fs p ("." +:+ e)
  = if decide (k < depth)
    then if refused (candidate p e k) then Some (Raise OSError)
         else Some (Ok (candidate p e k))
    else None.
Proof.
  intros Hn Hslash He Hfiles Hfree.
  rewrite (find_filename_checked_from_first_candidate refused depth fs p e Hn He).
  assert (Pathlib.name (candidate p e 0) = Pathlib.stem p +:+ "." +:+ e) as Hname0
    by apply name_sibling.
  assert (Str.contains "/" (Pathlib.stem p) = false) as Hstem.
  { rewrite <- (stem_suffix_name p), str_contains_char_app in Hslash.
    by apply orb_false_iff in Hslash as [? _]. }
  assert (forall j, sibling (candidate p e 0)
                      (Pathlib.stem p +:+ underscores j +:+ "." +:+ e)
                    = candidate p e j) as Hcand.
  { intros j. unfold candidate. by rewrite sibling_sibling. }
  destruct (decide (k < depth)) as [Hk|Hk].
  - rewrite (find_filename_checked_steps refused fs e k depth _ _ Hname0
               (stem_nonempty p Hn) Hstem He).
    + by rewrite Hcand.
    + intros j Hj. rewrite Hcand. by apply Hfiles.
    + by rewrite Hcand.
    + done.
  - apply (find_filename_checked_exhausted refused fs e depth _ _ Hname0
             (stem_nonempty p Hn) Hstem He).
    intros j Hj. rewrite Hcand. apply Hfiles. lia.
Qed.

Lemma find_filename_returns_first_free_name_witness :
  find_filename_that_doesnt_exist_yet_checked
    (fun q => Nat.ltb 255 (String.length (Pathlib.name q))) 1000
    (Sample.disk [("worlds/porvenir/art/wood-bg.jpg", "JPG-bytes")])
    (Sample.P "worlds/porvenir/art/wood-bg.jpg") ".jpg"
  = Some (Ok (Sample.P "worlds/porvenir/art/wood-bg_.jpg")).
Proof.
  apply (find_filename_returns_first_free_name
           (fun q => Nat.ltb 255 (String.length (Pathlib.name q))) 1000
           (Sample.disk [("worlds/porvenir/art/wood-bg.jpg", "JPG-bytes")])
           (Sample.P "worlds/porvenir/art/wood-bg.jpg") "jpg" 1).
  - done.
  - reflexivity.
  - reflexivity.
  - intros [|j] Hj; [split; reflexivity|lia].
  - right. reflexivity.
Defined.

(** On a file system whose names hold twelve bytes at most, the name after
    [wood-bg_.jpg] is refused: the search ends in [OSError], although
    [wood-bg__.jpg] is no file. *)
Example name_past_the_limit_raises_OSError :
  find_filename_that_doesnt_exist_yet_checked
    (fun q => Nat.ltb 12 (String.length (Pathlib.name q))) 1000
    (Sample.disk [("worlds/porvenir/art/wood-bg.jpg", "JPG-bytes");
                  ("worlds/porvenir/art/wood-bg_.jpg", "JPG-bytes")])
    (Sample.P "worlds/porvenir/art/wood-bg.jpg") ".jpg"
  = Some (Raise OSError).
Proof. reflexivity. Qed.

(** *** The pass *)

(** The loop that makes the references of one path point to [new_ref_path]
    changes no queue and keeps the number of references. *)
Lemma repoint_loop_frame E fs new_ref_path new_content refs : forall w w',
  for_each (fun i w => ref ← the_ref w i;
                       repoint E fs w i ref new_ref_path new_content) refs w = Ok w' ->
  trash_queue w' = trash_queue w
  /\ length (all_img_refs w') = length (all_img_refs w).
Proof.
  induction refs as [|i refs IH]; intros w w' H; simpl in H.
  - by inv_bind.
  - inv_bind. apply repoint_refs in Ha as (ref' & _ & Hrefs & Hq).
    apply IH in H as [-> ->]. rewrite Hq, Hrefs. by rewrite length_insert.
Qed.

(** One turn of the extension repair leaves the files as they are, or
    copies the bytes of one file to a name that was no file. *)
Lemma fix_one_incorrect_file_extension_files depth E entry fs w fs' w' :
  fix_one_incorrect_file_extension depth E entry (fs, w) = Some (Ok (fs', w')) ->
  trash_queue w' = trash_queue w
  /\ length (all_img_refs w') = length (all_img_refs w)
  /\ (fs' = fs
      \/ exists old new data,
           fs old = Some data /\ fs new = None /\ fs' = fs_write fs new data).
Proof.
  destruct entry as [img_path refs]. unfold fix_one_incorrect_file_extension.
  destruct refs as [|first rest]; [done|].
  destruct (the_ref w first) as [temp_ref|]; [|done].
  destruct (_ && _); [|intros [= <- <-]; auto].
  destruct (get_img_ref_content w temp_ref) as [old_content|]; [|done].
  destruct (find_filename_that_doesnt_exist_yet _ _ _ _) as [[new_ref_path|]|] eqn:Hfind;
    [|done..].
  apply find_filename_is_no_file in Hfind. apply is_file_false in Hfind.
  intros [= H]. inv_bind.
  assert (for_each (fun i w => ref ← the_ref w i;
                               repoint E fs' w i ref new_ref_path a)
            (first :: rest) w = Ok w') as Hloop.
  { simpl. rewrite Ha3. simpl. by rewrite Ha2. }
  apply repoint_loop_frame in Hloop as [Hq Hlen].
  split; [done|]. split; [done|]. right.
  unfold copyfile in Ha0. destruct (fs (ref_path temp_ref)) as [data|] eqn:Hold; [|done].
  inv_bind. by exists (ref_path temp_ref), new_ref_path, data.
Qed.

(** X10. The extension repair only adds copies: a file that exists before
    [fix_incorrect_file_extensions] exists after it with the same bytes, a
    file that exists after it has the bytes of a file that existed before,
    and the trash queue and the number of references are unchanged. *)
Theorem extension_repair_only_adds_copies depth E fs w fs' w' :
  fix_incorrect_file_extensions depth E fs w = Some (Ok (fs', w')) ->
  (forall p data, fs p = Some data -> fs' p = Some data)
  /\ (forall q data, fs' q = Some data -> exists p, fs p = Some data)
  /\ trash_queue w' = trash_queue w
  /\ length (all_img_refs w') = length (all_img_refs w).
Proof.
  unfold fix_incorrect_file_extensions.
  generalize (get_refs_indexed_by_img w None) as entries.
  intros entries. revert fs w.
  induction entries as [|entry entries IH]; intros fs w H.
  - simpl in H. injection H as <- <-. eauto.
  - apply for_each_within_cons in H as ([fs1 w1] & Hturn & H).
    apply fix_one_incorrect_file_extension_files in Hturn as (Hq1 & Hlen1 & Hfs1).
    apply IH in H as (Hkeep & Hfrom & Hq & Hlen).
    split; [|split; [|split; congruence]].
    + intros p data Hp. apply Hkeep.
      destruct Hfs1 as [->|(old & new & data' & Hold & Hnew & ->)]; [done|].
      unfold fs_write. destruct (decide (p = new)) as [->|]; [congruence|done].
    + intros q data Hq'. destruct (Hfrom q data Hq') as (p & Hp).
      destruct Hfs1 as [->|(old & new & data' & Hold & Hnew & ->)]; [eauto|].
      unfold fs_write in Hp. destruct (decide (p = new)) as [->|]; [|eauto].
      injection Hp as <-. eauto.
Qed.

Example town_is_repaired :
  fix_incorrect_file_extensions 1000 Sample.town_ext Sample.town_disk
    Sample.town_world
  = Some (Ok (Sample.town_disk_fixed, Sample.town_world_fixed))
  /\ ref_path <$> all_img_refs Sample.town_world_fixed
     = [Sample.P "worlds/w/town.png"; Sample.P "worlds/w/town.png"]
  /\ files_db (files Sample.town_world_fixed)
     = [(Sample.scenes, [JDict [(KStr "img", JStr "worlds/w/town.png")];
                         JDict [(KStr "text", JStr "worlds/w/town.png")]])].
Proof. split; [reflexivity|]. split; reflexivity. Qed.

Lemma extension_repair_only_adds_copies_witness :
  (forall p data, Sample.town_disk p = Some data ->
                  Sample.town_disk_fixed p = Some data)
  /\ (forall q data, Sample.town_disk_fixed q = Some data ->
                     exists p, Sample.town_disk p = Some data)
  /\ trash_queue Sample.town_world_fixed = trash_queue Sample.town_world
  /\ length (all_img_refs Sample.town_world_fixed)
     = length (all_img_refs Sample.town_world).
Proof.
  apply (extension_repair_only_adds_copies 1000 Sample.town_ext Sample.town_disk
           Sample.town_world Sample.town_disk_fixed Sample.town_world_fixed).
  reflexivity.
Defined.

(** The entries of the index by image of a world: under each path, the
    positions of the references that declare it, the first of them first. *)
Lemma img_index_sound w p l :
  (p, l) ∈ get_refs_indexed_by_img w None ->
  NoDup l
  /\ (forall i, i ∈ l <-> exists r, all_img_refs w !! i = Some r /\ ref_path r = p)
  /\ exists first rest r, l = first :: rest
       /\ all_img_refs w !! first = Some r /\ ref_path r = p.
Proof.
  unfold get_refs_indexed_by_img. simpl. intros Hl.
  apply elem_of_adict_get in Hl; [|apply index_by_img_NoDup].
  rewrite index_by_img_get in Hl. simpl in Hl.
  destruct (decide (filter _ (ref_objects w) = [])) as [|Hne]; [done|].
  injection Hl as <-.
  assert (forall i, i ∈ (filter (fun x : nat * ImageReference => ref_path x.2 = p)
                           (ref_objects w)).*1
                    <-> exists r, all_img_refs w !! i = Some r /\ ref_path r = p) as Hin.
  { intros i. rewrite list_elem_of_fmap. split.
    - intros ([j r] & -> & Hx). apply list_elem_of_filter in Hx as [Hp Hx].
      apply elem_of_ref_objects in Hx. by exists r.
    - intros (r & Hi & Hp). exists (i, r). split; [done|].
      apply list_elem_of_filter. split; [done|]. by apply elem_of_ref_objects. }
  split; [|split; [done|]].
  - eapply sublist_NoDup; [|apply fmap_sublist, sublist_filter].
    rewrite ref_objects_positions. apply NoDup_seq.
  - destruct (filter _ (ref_objects w)) as [|[first r] L] eqn:HL; [done|].
    exists first, L.*1, r. split; [done|].
    assert ((first, r) ∈ filter (fun x : nat * ImageReference => ref_path x.2 = p)
                           (ref_objects w)) as Hx by (rewrite HL; by left).
    apply list_elem_of_filter in Hx as [Hp Hx]. by apply elem_of_ref_objects in Hx.
Qed.

(** A turn for a path whose first reference is missing, is outside the
    world folder or has a matching extension changes nothing. *)
Lemma fix_one_incorrect_file_extension_skips depth E p first rest fs w r :
  all_img_refs w !! first = Some r ->
  img_exists r = false \/ ref_img_in_world_folder r = false
  \/ correct_extension r = Some true ->
  fix_one_incorrect_file_extension depth E (p, first :: rest) (fs, w)
  = Some (Ok (fs, w)).
Proof.
  intros Hfirst Hcase. unfold fix_one_incorrect_file_extension, the_ref.
  rewrite Hfirst. destruct Hcase as [-> | [-> | ->]]; [done| |].
  - by rewrite andb_false_r.
  - by rewrite andb_false_r.
Qed.

Lemma fix_incorrect_file_extensions_settled depth E fs w :
  (forall r, r ∈ all_img_refs w ->
     img_exists r = true -> ref_img_in_world_folder r = true ->
     correct_extension r = Some true) ->
  fix_incorrect_file_extensions depth E fs w = Some (Ok (fs, w)).
Proof.
  intros Hok. unfold fix_incorrect_file_extensions.
  apply for_each_within_fixed. intros [p l] Hl.
  apply img_index_sound in Hl as (_ & _ & first & rest & r & -> & Hfirst & _).
  apply (fix_one_incorrect_file_extension_skips _ _ _ _ _ _ _ r Hfirst).
  destruct (img_exists r) eqn:He; [|by left].
  destruct (ref_img_in_world_folder r) eqn:Hin; [|right; by left].
  right. right. apply Hok; [by eapply list_elem_of_lookup_2|done..].
Qed.

(** X11. When every reference that exists on disk under the world folder
    has an extension that matches its encoding, the extension repair
    changes nothing: no file is copied, no reference and no document is
    edited, and no name is searched for, so that no depth of recursion is
    needed. *)
Theorem extension_repair_leaves_matching_extensions depth E fs w :
  (forall r, r ∈ all_img_refs w ->
     img_exists r = true -> ref_img_in_world_folder r = true ->
     correct_extension r = Some true) ->
  fix_incorrect_file_extensions depth E fs w = Some (Ok (fs, w)).
Proof. apply fix_incorrect_file_extensions_settled. Qed.

Lemma extension_repair_leaves_matching_extensions_witness :
  fix_incorrect_file_extensions 1000 Sample.no_encoder Sample.png_disk
    Sample.png_world
  = Some (Ok (Sample.png_disk, Sample.png_world)).
Proof.
  apply (extension_repair_leaves_matching_extensions 1000 Sample.no_encoder
           Sample.png_disk Sample.png_world).
  intros r Hr _ _. unfold Sample.png_world in Hr. simpl in Hr.
  apply elem_of_cons in Hr as [->|Hr]; [reflexivity|].
  by apply elem_of_nil in Hr.
Defined.

Lemma repoint_ref_Effect E fs new c i w w' :
  (ref ← the_ref w i; repoint E fs w i ref new c) = Ok w' ->
  Effect E fs [(i, new)] [] w w'.
Proof.
  unfold the_ref.
  destruct (all_img_refs w !! i) as [r|] eqn:Hi; [|done]. simpl.
  intros H. apply repoint_refs in H as (r' & Hset & Hrefs & Hq). split; [|split].
  - intros j Hj. rewrite Hrefs. apply list_lookup_insert_ne.
    intros ->. apply Hj. csimpl. by left.
  - intros j main' Hin. apply list_elem_of_singleton in Hin as [= -> ->].
    exists r, r'. split; [done|]. split; [done|].
    rewrite Hrefs. apply list_lookup_insert_eq. by eapply lookup_lt_Some.
  - intros q. rewrite Hq. split; [by left|].
    intros [?|Hin]; [done|by apply elem_of_nil in Hin].
Qed.

Lemma repoint_loop_Effect E fs new c l w w' :
  NoDup l ->
  for_each (fun i w => ref ← the_ref w i; repoint E fs w i ref new c) l w = Ok w' ->
  Effect E fs (repoint_tasks new l) [] w w'.
Proof.
  intros Hnd. unfold repoint_tasks.
  rewrite <- (bind_singleton (fun i => (i, new)) l).
  rewrite <- (bind_nil (B := Path) l).
  apply for_each_Effect.
  - intros i u u' _ _. apply repoint_ref_Effect.
  - rewrite bind_singleton. fold (repoint_tasks new l).
    by rewrite repoint_tasks_positions.
Qed.

(** After the loop, the reference visited last reads the content pushed. *)
Lemma repoint_loop_last E fs new c l last w w' r :
  for_each (fun i w => ref ← the_ref w i; repoint E fs w i ref new c)
    (l ++ [last]) w = Ok w' ->
  all_img_refs w' !! last = Some r ->
  get_img_ref_content w' r = Ok (JStr c).
Proof.
  rewrite for_each_snoc. intros H Hr. inv_bind. rename a into w1, a0 into ref.
  unfold repoint in H. inv_bind. rename a into ref'.
  pose proof (push_updated_content_to_world_frame _ _ _ _ H) as [Hrefs _].
  simpl in Hrefs. rewrite Hrefs in Hr.
  unfold the_ref in Ha0. destruct (all_img_refs w1 !! last) eqn:Hl; [|done].
  rewrite list_lookup_insert_eq in Hr by (by eapply lookup_lt_Some).
  injection Hr as <-. by apply push_then_get in H.
Qed.

(** X12. One turn of the extension repair, for a path whose first
    reference exists under the world folder without a matching extension
    ([correct_extension] is false or [None]): the file at the declared path
    is copied to the name found for the suffix made of a dot and the
    encoding (the text [None] when the encoding is unknown); every
    reference of the path is resolved again for the new name; and the
    content pushed to each of them is the content of the first one with the
    old path string replaced, so that the reference visited last reads that
    content, whatever its own leaf held. *)
Theorem extension_repair_turn depth E p first rest fs w fs' w' temp_ref :
  NoDup (first :: rest) ->
  all_img_refs w !! first = Some temp_ref ->
  img_exists temp_ref = true -> ref_img_in_world_folder temp_ref = true ->
  correct_extension temp_ref <> Some true ->
  fix_one_incorrect_file_extension depth E (p, first :: rest) (fs, w)
  = Some (Ok (fs', w')) ->
  exists c new_ref_path data,
    get_img_ref_content w temp_ref = Ok (JStr c)
    /\ find_filename_that_doesnt_exist_yet depth fs (ref_path temp_ref)
         ("." +:+ str_opt_str (img_encoding temp_ref)) = Some (Ok new_ref_path)
    /\ fs (ref_path temp_ref) = Some data /\ fs new_ref_path = None
    /\ fs' = fs_write fs new_ref_path data
    /\ Effect E fs' (repoint_tasks new_ref_path (first :: rest)) [] w w'
    /\ forall r, all_img_refs w' !! List.last rest first = Some r ->
         get_img_ref_content w' r
         = Ok (JStr (Str.replace (Pathlib.str (ref_path temp_ref))
                       (Pathlib.str new_ref_path) c)).
Proof.
  intros Hnd Hfirst He Hin Hce.
  unfold fix_one_incorrect_file_extension, the_ref. rewrite Hfirst, He, Hin.
  assert (truthy_opt_bool (correct_extension temp_ref) = false) as ->.
  { destruct (correct_extension temp_ref) as [[|]|]; done. }
  cbn [andb negb].
  destruct (get_img_ref_content w temp_ref) as [old_content|]; [|done].
  destruct (find_filename_that_doesnt_exist_yet _ _ _ _) as [[new|]|] eqn:Hfind;
    [|done..].
  pose proof (find_filename_is_no_file _ _ _ _ _ Hfind) as Hfree.
  apply is_file_false in Hfree.
  destruct old_content as [| | |c| |]; try done.
  cbn [content_replace mbind result_bind].
  unfold copyfile. destruct (fs (ref_path temp_ref)) as [data|] eqn:Hold; [|done].
  cbn [mbind result_bind].
  destruct (for_each _ (first :: rest) w) as [w1|] eqn:Hloop; [|done].
  cbn [mbind result_bind]. intros [= <- <-].
  exists c, new, data. repeat (split; [done|]). split.
  - by apply repoint_loop_Effect in Hloop.
  - intros r Hr.
    destruct (exists_last (l := first :: rest)) as (l & last & Heq); [done|].
    assert (List.last rest first = last) as Hlast.
    { rewrite <- (last_cons_default first rest first), Heq. apply last_last. }
    rewrite Hlast in Hr. rewrite Heq in Hloop.
    by eapply repoint_loop_last.
Qed.

Lemma extension_repair_turn_witness :
  exists c new_ref_path data,
    get_img_ref_content Sample.town_world Sample.town_ref = Ok (JStr c)
    /\ find_filename_that_doesnt_exist_yet 1000 Sample.town_disk
         (ref_path Sample.town_ref)
         ("." +:+ str_opt_str (img_encoding Sample.town_ref))
       = Some (Ok new_ref_path)
    /\ Sample.town_disk (ref_path Sample.town_ref) = Some data
    /\ Sample.town_disk new_ref_path = None
    /\ Sample.town_disk_fixed = fs_write Sample.town_disk new_ref_path data
    /\ Effect Sample.town_ext Sample.town_disk_fixed
         (repoint_tasks new_ref_path [0; 1]) [] Sample.town_world
         Sample.town_world_fixed
    /\ forall r, all_img_refs Sample.town_world_fixed !! List.last [1] 0 = Some r ->
         get_img_ref_content Sample.town_world_fixed r
         = Ok (JStr (Str.replace (Pathlib.str (ref_path Sample.town_ref))
                       (Pathlib.str new_ref_path) c)).
Proof.
  apply (extension_repair_turn 1000 Sample.town_ext
           (Sample.P "worlds/w/town.jpeg") 0 [1] Sample.town_disk
           Sample.town_world Sample.town_disk_fixed Sample.town_world_fixed
           Sample.town_ref); try reflexivity.
  - apply (bool_decide_unpack _). vm_compute. exact I.
  - discriminate.
Defined.

Example unknown_encoding_is_renamed_to_None :
  exists fs' w',
    fix_incorrect_file_extensions 1000 Sample.no_encoder Sample.bak_disk
      Sample.bak_world = Some (Ok (fs', w'))
    /\ img_encoding <$> all_img_refs Sample.bak_world = [None]
    /\ correct_extension <$> all_img_refs Sample.bak_world = [None]
    /\ fs' (Sample.P "worlds/w/a.png.None") = Some "old bytes"
    /\ ref_path <$> all_img_refs w' = [Sample.P "worlds/w/a.png.None"]
    /\ files_db (files w')
       = [(Sample.scenes, [JDict [(KStr "img", JStr "worlds/w/a.png.None")]])].
Proof. do 2 eexists. split; [reflexivity|]. vm_compute. done. Qed.

(** X13. The extension repair copies the file from the path as declared,
    not from where it was found: for a reference that exists (found
    percent-decoded, or under the core data folder) while its declared path
    is no file, the turn never succeeds, and once the content is read and a
    new name is found it raises [FileNotFoundError]. *)
Theorem extension_repair_copies_the_declared_path depth E p first rest fs w temp_ref :
  all_img_refs w !! first = Some temp_ref ->
  img_exists temp_ref = true -> ref_img_in_world_folder temp_ref = true ->
  correct_extension temp_ref <> Some true ->
  is_file fs (ref_path temp_ref) = false ->
  (forall st, fix_one_incorrect_file_extension depth E (p, first :: rest) (fs, w)
              <> Some (Ok st))
  /\ (forall c new_ref_path,
        get_img_ref_content w temp_ref = Ok (JStr c) ->
        find_filename_that_doesnt_exist_yet depth fs (ref_path temp_ref)
          ("." +:+ str_opt_str (img_encoding temp_ref)) = Some (Ok new_ref_path) ->
        fix_one_incorrect_file_extension depth E (p, first :: rest) (fs, w)
        = Some (Raise FileNotFoundError)).
Proof.
  intros Hfirst He Hin Hce Hnofile. apply is_file_false in Hnofile.
  unfold fix_one_incorrect_file_extension, the_ref. rewrite Hfirst, He, Hin.
  assert (truthy_opt_bool (correct_extension temp_ref) = false) as ->.
  { destruct (correct_extension temp_ref) as [[|]|]; done. }
  cbn [andb negb]. split.
  - intros st. destruct (get_img_ref_content w temp_ref) as [old_content|]; [|done].
    destruct (find_filename_that_doesnt_exist_yet _ _ _ _) as [[new|]|]; [|done..].
    destruct (content_replace _ _ _) as [c|]; [|done]. simpl.
    unfold copyfile. by rewrite Hnofile.
  - intros c new Hc Hfind. rewrite Hc, Hfind. simpl.
    unfold copyfile. by rewrite Hnofile.
Qed.

Lemma extension_repair_copies_the_declared_path_witness :
  (forall st,
     fix_one_incorrect_file_extension 1000 Sample.decoding_ext
       (Sample.P "worlds/w/my%20town.jpeg", [0])
       (Sample.my_town_disk, Sample.my_town_world) <> Some (Ok st))
  /\ (forall c new_ref_path,
        get_img_ref_content Sample.my_town_world Sample.my_town_ref = Ok (JStr c) ->
        find_filename_that_doesnt_exist_yet 1000 Sample.my_town_disk
          (ref_path Sample.my_town_ref)
          ("." +:+ str_opt_str (img_encoding Sample.my_town_ref))
        = Some (Ok new_ref_path) ->
        fix_one_incorrect_file_extension 1000 Sample.decoding_ext
          (Sample.P "worlds/w/my%20town.jpeg", [0])
          (Sample.my_town_disk, Sample.my_town_world)
        = Some (Raise FileNotFoundError)).
Proof.
  apply (extension_repair_copies_the_declared_path 1000 Sample.decoding_ext
           (Sample.P "worlds/w/my%20town.jpeg") 0 [] Sample.my_town_disk
           Sample.my_town_world Sample.my_town_ref); try reflexivity.
  discriminate.
Defined.

Example percent_encoded_mismatch_ends_the_run :
  img_path_on_disk Sample.my_town_ref = Some (Sample.P "worlds/w/my town.jpeg")
  /\ fix_incorrect_file_extensions 1000 Sample.decoding_ext Sample.my_town_disk
       Sample.my_town_world
     = Some (Raise FileNotFoundError).
Proof. split; reflexivity. Qed.

(** ** The indices and the search by path *)

Lemma find_refs_by_img_path_filter w p :
  find_refs_by_img_path w (AsPath p)
  = (filter (fun x : nat * ImageReference => ref_path x.2 = p) (ref_objects w)).*1.
Proof.
  unfold find_refs_by_img_path, path_eq.
  induction (ref_objects w) as [|[i r] l IH]; [done|].
  csimpl. rewrite filter_cons. simpl.
  destruct (decide (ref_path r = p)) as [Heq|Hne].
  - rewrite bool_decide_eq_true_2 by done. csimpl. by rewrite IH.
  - rewrite bool_decide_eq_false_2 by done. by rewrite IH.
Qed.

(** X14. The index by image agrees with the linear search: under a path it
    lists the positions that [find_refs_by_img_path] finds for that path,
    in the same order, and it has no entry for a path that no reference
    declares; its keys are distinct and its lists hold every position of
    [all_img_refs] once. Called with a string, as its docstring asks,
    [find_refs_by_img_path] finds nothing: a path equals no string. *)
Theorem index_by_img_agrees_with_search w :
  (forall p, adict_get (get_refs_indexed_by_img w None) p
             = if decide (find_refs_by_img_path w (AsPath p) = []) then None
               else Some (find_refs_by_img_path w (AsPath p)))
  /\ (forall s, find_refs_by_img_path w (AsStr s) = [])
  /\ NoDup (get_refs_indexed_by_img w None).*1
  /\ positions (get_refs_indexed_by_img w None) ≡ₚ seq 0 (length (all_img_refs w)).
Proof.
  split; [|split; [|split]].
  - intros p. rewrite find_refs_by_img_path_filter.
    unfold get_refs_indexed_by_img. simpl. rewrite index_by_img_get. simpl.
    destruct (decide (filter _ (ref_objects w) = [])) as [Heq|Hne].
    + by rewrite Heq.
    + rewrite decide_False; [done|]. intros Hnil. by apply fmap_nil_inv in Hnil.
  - intros s. unfold find_refs_by_img_path.
    induction (ref_objects w) as [|[i r] l IH]; [done|]. by csimpl.
  - apply index_by_img_NoDup.
  - unfold get_refs_indexed_by_img. simpl.
    by rewrite index_by_img_positions, ref_objects_positions.
Qed.

(** X15. The index by hash and by image lists a position under a digest and
    a path exactly when the reference there has that digest and declares
    that path; and [get_duplicated_images] reports a digest exactly when
    two references with that digest declare different paths. Duplicates are
    told by the path as declared, not by the file found on disk. *)
Theorem duplicated_images_are_told_by_declared_path w :
  (forall h g p l i,
     (h, g) ∈ get_refs_indexed_by_hash_by_img w None -> (p, l) ∈ g ->
     (i ∈ l <-> exists r, all_img_refs w !! i = Some r
                  /\ img_hash r = h /\ ref_path r = p))
  /\ forall h,
       Some h ∈ (get_duplicated_images w).*1 <->
       exists i j ri rj,
         all_img_refs w !! i = Some ri /\ all_img_refs w !! j = Some rj
         /\ img_hash ri = Some h /\ img_hash rj = Some h
         /\ ref_path ri <> ref_path rj.
Proof.
  split.
  - intros h g p l i Hg Hl. split.
    + intros Hi. destruct (hash_index_sound w h g p l Hg Hl) as [_ H]. by apply H.
    + intros (r & Hr & Hh & Hp).
      destruct (hash_index_complete w i r Hr) as (g' & l' & Hg' & Hl' & Hi).
      rewrite Hh in Hg'. rewrite (hash_index_functional w h g g' Hg Hg') in Hl.
      rewrite Hp in Hl'.
      pose proof (hash_index_group_NoDup w h g' Hg') as Hnd.
      apply (elem_of_adict_get _ _ _ Hnd) in Hl, Hl'. congruence.
  - intros h. split.
    + intros Hin. apply list_elem_of_fmap in Hin as ([h' g] & Heq & Hin).
      simpl in Heq. subst h'.
      apply elem_of_get_duplicated_images in Hin as [[Hlen _] Hg].
      pose proof (hash_index_group_NoDup w _ g Hg) as Hnd.
      destruct g as [|[p1 l1] [|[p2 l2] g]]; simpl in Hlen; [lia..|].
      destruct (hash_index_sound w _ _ p1 l1 Hg) as [Hne1 H1]; [by left|].
      destruct (hash_index_sound w _ _ p2 l2 Hg) as [Hne2 H2]; [right; by left|].
      destruct l1 as [|i l1]; [done|]. destruct l2 as [|j l2]; [done|].
      destruct (H1 i) as (ri & Hi & Hhi & Hpi); [by left|].
      destruct (H2 j) as (rj & Hj & Hhj & Hpj); [by left|].
      exists i, j, ri, rj. repeat (split; [done|]).
      rewrite Hpi, Hpj. csimpl in Hnd. apply NoDup_cons in Hnd as [Hfresh _].
      intros ->. apply Hfresh. by left.
    + intros (i & j & ri & rj & Hi & Hj & Hhi & Hhj & Hne).
      destruct (duplicated_hash_has_set w h i j ri rj Hi Hj Hhi Hhj Hne)
        as (main & l0 & rest & Hin).
      apply list_elem_of_fmap. by exists (Some h, (main, l0) :: rest).
Qed.

(** One image, named as it is in one scene and percent-encoded in another:
    the two references are found on the same file and declare two paths,
    so they make a set of duplicated images; the percent-encoded path is
    queued, and the pass over the queue, not finding it, decodes its name
    and moves the only file to the trash folder. Both references are left
    declaring a path that is no file any more. *)
Example image_written_two_ways_is_moved_to_the_trash :
  img_path_on_disk <$> all_img_refs Sample.my_img_world
  = [Some (Sample.P "worlds/w/my img.webp"); Some (Sample.P "worlds/w/my img.webp")]
  /\ exists w' fs',
       fix_all_sets_of_duplicated_images Sample.decoding_ext Sample.my_img_disk
         Sample.my_img_world = Ok w'
       /\ trash_queue w' = [Sample.P "worlds/w/my%20img.webp"]
       /\ ref_path <$> all_img_refs w'
          = [Sample.P "worlds/w/my img.webp"; Sample.P "worlds/w/my img.webp"]
       /\ move_all_imgs_in_trash_queue_to_trash Sample.decoding_ext
            Sample.my_img_disk w' = Ok fs'
       /\ fs' (Sample.P "worlds/w/my img.webp") = None
       /\ fs' (Sample.P "worlds/w/_trash/my img.webp") = Some "WEBP-bytes".
Proof.
  split; [reflexivity|]. do 2 eexists. split; [reflexivity|].
  split; [reflexivity|]. split; [reflexivity|]. split; [reflexivity|].
  vm_compute. done.
Qed.

(** ** Conversion: what the pass leaves alone *)

(** A turn for a path whose first reference is a [.webp], is missing or is
    outside the world folder changes nothing. *)
Lemma convert_one_image_skips E p first rest fs w r :
  all_img_refs w !! first = Some r ->
  is_webp r = true \/ img_exists r = false \/ ref_img_in_world_folder r = false ->
  convert_one_image E (p, first :: rest) (fs, w) = Ok (fs, w).
Proof.
  intros Hfirst Hcase. unfold convert_one_image, the_ref. rewrite Hfirst. simpl.
  destruct Hcase as [-> | [-> | ->]]; [done| |].
  - by rewrite andb_false_r.
  - by rewrite andb_false_r.
Qed.

Lemma convert_all_images_settled E fs w :
  (forall r, r ∈ all_img_refs w ->
     is_webp r = true \/ img_exists r = false \/ ref_img_in_world_folder r = false) ->
  convert_all_images_to_webp_and_update_refs E fs w = Ok (fs, w).
Proof.
  intros Hrefs. unfold convert_all_images_to_webp_and_update_refs.
  apply for_each_fixed. intros [p l] Hl.
  apply img_index_sound in Hl as (_ & _ & first & rest & r & -> & Hfirst & _).
  apply (convert_one_image_skips _ _ _ _ _ _ r Hfirst).
  apply Hrefs. by eapply list_elem_of_lookup_2.
Qed.

(** X16. When every reference is a [.webp] already, is missing on disk or
    is outside the world folder, the conversion pass changes nothing: the
    encoder is not run, and files, references, documents and the trash
    queue are as they were. *)
Theorem conversion_leaves_webp_and_foreign_images E fs w :
  (forall r, r ∈ all_img_refs w ->
     is_webp r = true \/ img_exists r = false \/ ref_img_in_world_folder r = false) ->
  convert_all_images_to_webp_and_update_refs E fs w = Ok (fs, w).
Proof. apply convert_all_images_settled. Qed.

Lemma conversion_leaves_webp_and_foreign_images_witness :
  convert_all_images_to_webp_and_update_refs Sample.no_encoder Sample.east_disk
    Sample.mixed_world
  = Ok (Sample.east_disk, Sample.mixed_world).
Proof.
  apply (conversion_leaves_webp_and_foreign_images Sample.no_encoder
           Sample.east_disk Sample.mixed_world).
  intros r Hr. unfold Sample.mixed_world in Hr. simpl in Hr.
  apply elem_of_cons in Hr as [->|Hr]; [right; left; reflexivity|].
  apply elem_of_cons in Hr as [->|Hr]; [right; left; reflexivity|].
  apply elem_of_cons in Hr as [->|Hr]; [left; reflexivity|].
  apply elem_of_cons in Hr as [->|Hr]; [left; reflexivity|].
  by apply elem_of_nil in Hr.
Defined.

(** ** Unused images *)

Lemma counters_init (imgs : list Path) :
  let d := foldl (fun d img => adict_set d img 0) [] imgs in
  NoDup d.*1 /\ (forall p, p ∈ d.*1 <-> p ∈ imgs)
  /\ forall p n, (p, n) ∈ d -> n = 0.
Proof.
  induction imgs as [|img imgs IH] using rev_ind; simpl.
  - split; [constructor|]. split; [done|]. intros p n H. by apply elem_of_nil in H.
  - rewrite foldl_snoc. simpl in IH. destruct IH as (Hnd & Hkeys & Hzero).
    set (d := foldl _ [] imgs) in *.
    split; [by apply adict_set_NoDup|]. split.
    + intros p. rewrite adict_set_keys, elem_of_app, list_elem_of_singleton.
      destruct (adict_mem d img) eqn:Hmem.
      * rewrite Hkeys. split; [by left|]. intros [?| ->]; [done|].
        apply Hkeys. unfold adict_mem in Hmem. apply bool_decide_eq_true in Hmem.
        destruct Hmem as [n Hn]. apply adict_get_Some_elem_of in Hn.
        apply list_elem_of_fmap. by exists (img, n).
      * rewrite elem_of_app, list_elem_of_singleton, Hkeys. done.
    + intros p n Hin. apply elem_of_adict_get in Hin; [|by apply adict_set_NoDup].
      destruct (decide (p = img)) as [->|Hne].
      * rewrite adict_get_set_eq in Hin. by injection Hin.
      * rewrite adict_get_set_ne in Hin by done.
        apply adict_get_Some_elem_of in Hin. by eapply Hzero.
Qed.

Lemma counters_counted (d0 : list (Path * nat)) (refs : list ImageReference) :
  (forall p n, adict_get d0 p = Some n -> n = 0) ->
  let d := foldl count_reference d0 refs in
  d.*1 = d0.*1
  /\ forall p n, adict_get d p = Some n ->
       (n = 0 <-> forall r, r ∈ refs -> img_path_on_disk r <> Some p).
Proof.
  intros Hzero. induction refs as [|ref refs IH] using rev_ind; simpl.
  - split; [done|]. intros p n Hp. split; [|by eauto].
    intros _ r Hr. by apply elem_of_nil in Hr.
  - rewrite foldl_snoc. simpl in IH. destruct IH as (Hkeys & Hcount).
    set (d := foldl count_reference d0 refs) in *.
    unfold count_reference.
    destruct (img_path_on_disk ref) as [q|] eqn:Hq.
    + destruct (adict_get d q) as [m|] eqn:Hm.
      * split.
        { rewrite adict_set_keys. unfold adict_mem. rewrite Hm.
          by rewrite bool_decide_eq_true_2 by eauto. }
        intros p n Hp. destruct (decide (p = q)) as [->|Hne].
        { rewrite adict_get_set_eq in Hp. injection Hp as <-. split; [done|].
          intros H. destruct (H ref); [|done]. apply elem_of_app. right. by left. }
        rewrite adict_get_set_ne in Hp by done. rewrite (Hcount p n Hp).
        split.
        { intros H r Hr. apply elem_of_app in Hr as [Hr|Hr]; [by apply H|].
          apply list_elem_of_singleton in Hr as ->. congruence. }
        { intros H r Hr. apply H. apply elem_of_app. by left. }
      * split; [done|]. intros p n Hp. rewrite (Hcount p n Hp). split.
        { intros H r Hr. apply elem_of_app in Hr as [Hr|Hr]; [by apply H|].
          apply list_elem_of_singleton in Hr as ->. congruence. }
        { intros H r Hr. apply H. apply elem_of_app. by left. }
    + split; [done|]. intros p n Hp. rewrite (Hcount p n Hp). split.
      { intros H r Hr. apply elem_of_app in Hr as [Hr|Hr]; [by apply H|].
        apply list_elem_of_singleton in Hr as ->. congruence. }
      { intros H r Hr. apply H. apply elem_of_app. by left. }
Qed.

Lemma omap_zero_counters (d : list (Path * nat)) :
  omap (fun '(image, n) => if decide (n = 0) then Some image else None) d
  = (filter (fun x => x.2 = 0) d).*1.
Proof.
  induction d as [|[p n] d IH]; [done|]. csimpl. rewrite filter_cons. simpl.
  destruct (decide (n = 0)); csimpl; by rewrite IH.
Qed.

Lemma find_all_images_in_world_folder_patterns rglob fs w :
  find_all_images_in_world_folder rglob fs w
  = rglob fs (world_folder w) "*.jpg" ++ rglob fs (world_folder w) "*.jpeg"
    ++ rglob fs (world_folder w) "*.png" ++ rglob fs (world_folder w) "*.webp".
Proof. unfold find_all_images_in_world_folder. simpl. by rewrite <- !app_assoc. Qed.

Lemma elem_of_unused_images rglob fs w :
  NoDup (get_all_unused_images_in_world_folder rglob fs w)
  /\ forall p,
       p ∈ get_all_unused_images_in_world_folder rglob fs w <->
       p ∈ find_all_images_in_world_folder rglob fs w
       /\ forall r, r ∈ all_img_refs w -> img_path_on_disk r <> Some p.
Proof.
  unfold get_all_unused_images_in_world_folder.
  set (imgs := find_all_images_in_world_folder rglob fs w).
  destruct (counters_init imgs) as (Hnd & Hkeys & Hzero). simpl in *.
  set (d0 := foldl (fun d img => adict_set d img 0) [] imgs) in *.
  destruct (counters_counted d0 (all_img_refs w)) as (Hsame & Hcount).
  { intros p n Hp. apply (Hzero p). by apply adict_get_Some_elem_of. }
  simpl in *.
  set (d := foldl count_reference d0 (all_img_refs w)) in *.
  rewrite omap_zero_counters. split.
  - eapply sublist_NoDup; [|apply fmap_sublist, sublist_filter]. by rewrite Hsame.
  - intros p. rewrite list_elem_of_fmap. split.
    + intros ([q n] & -> & Hin). apply list_elem_of_filter in Hin as [Hn Hin].
      simpl in *. split.
      * apply Hkeys. rewrite <- Hsame. apply list_elem_of_fmap. by exists (q, n).
      * apply (Hcount q n); [|done]. apply elem_of_adict_get; [by rewrite Hsame|done].
    + intros [Hin Hnone]. apply Hkeys in Hin. rewrite <- Hsame in Hin.
      apply list_elem_of_fmap in Hin as ([q n] & -> & Hin). simpl in *.
      exists (q, n). split; [done|]. apply list_elem_of_filter. split; [|done].
      simpl. apply (Hcount q n); [|done].
      apply elem_of_adict_get; [by rewrite Hsame|done].
Qed.

(** X17. The unused images are the images enumerated under the world
    folder (the files matching one of the four patterns) that no reference
    resolves to, each listed once; [add_unused_images_to_trash_queue] adds
    exactly those to the trash queue and changes neither the references
    nor the documents. *)
Theorem unused_images_are_queued rglob fs w :
  NoDup (get_all_unused_images_in_world_folder rglob fs w)
  /\ (forall p,
        p ∈ get_all_unused_images_in_world_folder rglob fs w <->
        (exists pattern, pattern ∈ ["*.jpg"; "*.jpeg"; "*.png"; "*.webp"]
                         /\ p ∈ rglob fs (world_folder w) pattern)
        /\ forall r, r ∈ all_img_refs w -> img_path_on_disk r <> Some p)
  /\ all_img_refs (add_unused_images_to_trash_queue rglob fs w) = all_img_refs w
  /\ files (add_unused_images_to_trash_queue rglob fs w) = files w
  /\ forall p,
       p ∈ trash_queue (add_unused_images_to_trash_queue rglob fs w) <->
       p ∈ trash_queue w \/ p ∈ get_all_unused_images_in_world_folder rglob fs w.
Proof.
  destruct (elem_of_unused_images rglob fs w) as [Hnd Hin].
  split; [done|]. split; [|split; [done|split; [done|]]].
  - intros p. rewrite Hin, find_all_images_in_world_folder_patterns.
    rewrite !elem_of_app. split.
    + intros [Hp Hnone]. split; [|done].
      destruct Hp as [Hp|[Hp|[Hp|Hp]]]; eexists; (split; [|exact Hp]);
        repeat constructor.
    + intros [(pattern & Hpat & Hp) Hnone]. split; [|done].
      repeat (apply elem_of_cons in Hpat as [->|Hpat]; [by auto|]).
      by apply elem_of_nil in Hpat.
  - intros p. unfold add_unused_images_to_trash_queue. simpl.
    by rewrite elem_of_foldl_set_add.
Qed.

(** ** The trash folder *)

(** X18. Files are moved to the trash folder by name alone: of two queued
    files of the same name in different folders, the one visited second
    takes the place of the first in the trash folder. After the pass the
    first file is neither where it was nor in the trash folder: every file
    is the second one, in the trash folder, or a file that was there
    before, the first apart. *)
Theorem files_of_one_name_collide_in_the_trash E fs w p q dp dq :
  trash_queue w = [p; q] ->
  fs p = Some dp -> fs q = Some dq -> p <> q ->
  Pathlib.name p = Pathlib.name q ->
  re_match E (".*" +:+ Pathlib.str (world_folder w) +:+ ".*") (Pathlib.str p) = true ->
  re_match E (".*" +:+ Pathlib.str (world_folder w) +:+ ".*") (Pathlib.str q) = true ->
  Pathlib.joinstr (trash w) (Pathlib.name p) <> p ->
  Pathlib.joinstr (trash w) (Pathlib.name p) <> q ->
  exists fs',
    move_all_imgs_in_trash_queue_to_trash E fs w = Ok fs'
    /\ fs' p = None /\ fs' q = None
    /\ fs' (Pathlib.joinstr (trash w) (Pathlib.name p)) = Some dq
    /\ forall x data, fs' x = Some data ->
         x = Pathlib.joinstr (trash w) (Pathlib.name p) \/ (fs x = Some data /\ x <> p).
Proof.
  intros Hqueue Hp Hq Hne Hname Hmp Hmq Htp Htq.
  set (t := Pathlib.joinstr (trash w) (Pathlib.name p)) in *.
  unfold move_all_imgs_in_trash_queue_to_trash. rewrite Hqueue.
  rewrite for_each_cons, (matched_file_is_moved E w p fs dp Hp Hmp). fold t.
  cbn [mbind result_bind].
  assert (fs_write (fs_remove fs p) t dp q = Some dq) as Hq1.
  { unfold fs_write, fs_remove. rewrite !decide_False by congruence. done. }
  rewrite for_each_cons, (matched_file_is_moved E w q _ dq Hq1 Hmq).
  rewrite <- Hname. fold t. cbn [mbind result_bind for_each].
  eexists. split; [reflexivity|]. unfold fs_write, fs_remove.
  split; [by rewrite decide_False, decide_False, decide_False, decide_True by congruence|].
  split; [by rewrite decide_False, decide_True by congruence|].
  split; [by rewrite decide_True|].
  intros x data. destruct (decide (x = t)) as [->|Hxt]; [by left|].
  destruct (decide (x = q)) as [->|Hxq]; [done|].
  destruct (decide (x = p)) as [->|Hxp]; [done|]. by right.
Qed.

Lemma files_of_one_name_collide_in_the_trash_witness :
  exists fs',
    move_all_imgs_in_trash_queue_to_trash Sample.no_encoder Sample.tokens_disk
      Sample.tokens_world = Ok fs'
    /\ fs' (Sample.P "worlds/w/a/token.png") = None
    /\ fs' (Sample.P "worlds/w/b/token.png") = None
    /\ fs' (Pathlib.joinstr (trash Sample.tokens_world)
              (Pathlib.name (Sample.P "worlds/w/a/token.png"))) = Some "PNG-two"
    /\ forall x data, fs' x = Some data ->
         x = Pathlib.joinstr (trash Sample.tokens_world)
               (Pathlib.name (Sample.P "worlds/w/a/token.png"))
         \/ (Sample.tokens_disk x = Some data /\ x <> Sample.P "worlds/w/a/token.png").
Proof.
  apply (files_of_one_name_collide_in_the_trash Sample.no_encoder
           Sample.tokens_disk Sample.tokens_world
           (Sample.P "worlds/w/a/token.png") (Sample.P "worlds/w/b/token.png")
           "PNG-one" "PNG-two"); try reflexivity; discriminate.
Defined.

(** ** Restoring the backups *)

Lemma backup_name_nonempty q : is_backup_path q -> Pathlib.name q <> "".
Proof.
  intros Hq Hname. unfold is_backup_path, Pathlib.suffix in Hq.
  rewrite Hname in Hq. simpl in Hq. by destruct Hq.
Qed.

Lemma restored_is_document q : is_backup_path q -> is_document_path (restored q).
Proof.
  intros Hq. pose proof (stem_nonempty q (backup_name_nonempty q Hq)) as Hstem.
  unfold is_document_path, restored.
  destruct Hq as [Hq|Hq]; rewrite Hq; simpl Str.take.
  - left. by apply (stem_suffix_plain _ (Pathlib.stem q) "db"); [apply name_sibling| |].
  - right. by apply (stem_suffix_plain _ (Pathlib.stem q) "json"); [apply name_sibling| |].
Qed.

Lemma bak_of_restored q : is_backup_path q -> bak_of (restored q) = q.
Proof.
  intros Hq. pose proof (backup_name_nonempty q Hq) as Hname.
  unfold bak_of, restored. rewrite name_sibling. unfold sibling. simpl.
  rewrite removelast_last.
  assert ((Pathlib.stem q +:+ Str.take (String.length (Pathlib.suffix q) - 3)
                                (Pathlib.suffix q)) +:+ "bak" = Pathlib.name q) as ->.
  { rewrite str_app_assoc. rewrite <- (stem_suffix_name q). f_equal.
    by destruct Hq as [-> | ->]. }
  rewrite <- (name_nonempty_parts q Hname). by destruct q.
Qed.

Lemma restore_one_bak_file_moves q fs data :
  is_backup_path q -> fs q = Some data ->
  restore_one_bak_file q fs = Ok (fs_write (fs_remove fs q) (restored q) data).
Proof.
  intros Hq Hdata. pose proof (backup_name_nonempty q Hq) as Hname.
  unfold restore_one_bak_file, restored.
  destruct Hq as [Hq|Hq]; rewrite Hq; simpl Str.take.
  - pose proof (with_suffix_plain q "db" Hname eq_refl) as H.
    change ("." +:+ "db") with ".db" in H. rewrite H. simpl.
    unfold shutil_move. by rewrite Hdata.
  - pose proof (with_suffix_plain q "json" Hname eq_refl) as H.
    change ("." +:+ "json") with ".json" in H. rewrite H. simpl.
    unfold shutil_move. by rewrite Hdata.
Qed.

Lemma backup_is_no_document q t :
  is_backup_path q -> is_document_path t -> q <> t.
Proof.
  intros Hq Ht ->. destruct Hq as [Hq|Hq], Ht as [Ht|Ht]; rewrite Hq in Ht; done.
Qed.

Lemma restored_inj q q' :
  is_backup_path q -> is_backup_path q' -> restored q = restored q' -> q = q'.
Proof.
  intros Hq Hq' Heq. rewrite <- (bak_of_restored q Hq), <- (bak_of_restored q' Hq').
  by rewrite Heq.
Qed.

Lemma restore_loop baks : forall fs,
  NoDup baks ->
  (forall q, q ∈ baks -> is_Some (fs q) /\ is_backup_path q) ->
  exists fs',
    for_each restore_one_bak_file baks fs = Ok fs'
    /\ (forall q, q ∈ baks -> fs' q = None /\ fs' (restored q) = fs q)
    /\ (forall x, x ∉ baks -> x ∉ restored <$> baks -> fs' x = fs x).
Proof.
  induction baks as [|q baks IH]; intros fs Hnd Hbaks.
  - exists fs. split; [done|]. split; [|done]. intros q Hq. by apply elem_of_nil in Hq.
  - apply NoDup_cons in Hnd as [Hq_fresh Hnd].
    destruct (Hbaks q) as [[data Hdata] Hq]; [by left|].
    set (fs1 := fs_write (fs_remove fs q) (restored q) data).
    pose proof (restored_is_document q Hq) as Hdoc.
    assert (forall x, x <> q -> x <> restored q -> fs1 x = fs x) as Hfs1.
    { intros x H1 H2. unfold fs1, fs_write, fs_remove. by rewrite !decide_False. }
    assert (forall q', q' ∈ baks -> q' <> q /\ is_backup_path q') as Hrest.
    { intros q' Hin. split; [by intros ->|]. apply Hbaks. by right. }
    destruct (IH fs1 Hnd) as (fs' & Hrun & Hmoved & Hframe).
    { intros q' Hin. destruct (Hrest q' Hin) as [Hne Hq']. split; [|done].
      rewrite Hfs1; [|done|by apply backup_is_no_document].
      apply Hbaks. by right. }
    exists fs'. split.
    { rewrite for_each_cons, (restore_one_bak_file_moves q fs data Hq Hdata).
      exact Hrun. }
    assert (q ∉ restored <$> baks) as Hq_notarget.
    { intros Hin. apply list_elem_of_fmap in Hin as (q' & Heq & Hq').
      destruct (Hrest q' Hq') as [_ Hb].
      apply (backup_is_no_document q (restored q') Hq); [|done].
      by apply restored_is_document. }
    assert (restored q ∉ baks) as Ht_nobak.
    { intros Hin. destruct (Hrest _ Hin) as [_ Hb].
      by apply (backup_is_no_document (restored q) (restored q) Hb Hdoc). }
    assert (restored q ∉ restored <$> baks) as Ht_fresh.
    { intros Hin. apply list_elem_of_fmap in Hin as (q' & Heq & Hq').
      destruct (Hrest q' Hq') as [Hne Hb]. apply Hne. symmetry.
      by apply restored_inj. }
    split.
    + intros q' Hin. apply elem_of_cons in Hin as [->|Hin].
      * rewrite (Hframe q Hq_fresh Hq_notarget), (Hframe _ Ht_nobak Ht_fresh).
        unfold fs1, fs_write, fs_remove.
        rewrite (decide_False (P := q = restored q))
          by (by apply backup_is_no_document).
        by rewrite !decide_True.
      * destruct (Hmoved q' Hin) as [Hgone Ht]. split; [done|].
        rewrite Ht. destruct (Hrest q' Hin) as [Hne Hb].
        apply Hfs1; [done|by apply backup_is_no_document].
    + intros x Hx Hxt. csimpl in *.
      apply not_elem_of_cons in Hx as [Hx1 Hx2].
      apply not_elem_of_cons in Hxt as [Hxt1 Hxt2].
      rewrite (Hframe x Hx2 Hxt2). by apply Hfs1.
Qed.

(** X19. [restore_bak_files] undoes the export: when the enumerator lists,
    once each, [.dbbak] and [.jsonbak] files among which are the backups of
    the documents, each document has after the export and the restoring the
    bytes it had on disk before the export, and its backup is gone. *)
Theorem restore_bak_files_undoes_export E (rglob : Rglob) fs w fs1 :
  NoDup (files_json (files w) ++ files_db (files w)).*1 ->
  (forall p c, (p, c) ∈ files_json (files w) ++ files_db (files w) ->
     is_Some (fs p) /\ is_document_path p) ->
  export_all_json_and_db_files E fs w = Ok fs1 ->
  NoDup (rglob fs1 (world_folder w) "*.dbbak"
         ++ rglob fs1 (world_folder w) "*.jsonbak") ->
  (forall q, q ∈ rglob fs1 (world_folder w) "*.dbbak"
                 ++ rglob fs1 (world_folder w) "*.jsonbak" ->
     is_Some (fs1 q) /\ is_backup_path q) ->
  (forall p c, (p, c) ∈ files_json (files w) ++ files_db (files w) ->
     bak_of p ∈ rglob fs1 (world_folder w) "*.dbbak"
               ++ rglob fs1 (world_folder w) "*.jsonbak") ->
  exists fs2,
    restore_bak_files rglob fs1 w = Ok fs2
    /\ forall p c, (p, c) ∈ files_json (files w) ++ files_db (files w) ->
         fs2 p = fs p /\ fs2 (bak_of p) = None.
Proof.
  intros Hnd Hdocs Hexport Hnd_baks Hbaks Hfound.
  destruct (export_loop E _ fs Hnd Hdocs) as (fs1' & Hrun & Hwritten & _).
  unfold export_all_json_and_db_files in Hexport. rewrite Hrun in Hexport.
  injection Hexport as ->.
  destruct (restore_loop _ fs1 Hnd_baks Hbaks) as (fs2 & Hrestore & Hmoved & _).
  exists fs2. split; [exact Hrestore|]. intros p c Hin.
  destruct (Hdocs p c Hin) as [_ Hdoc].
  destruct (Hbaks _ (Hfound p c Hin)) as [_ Hbak].
  destruct (Hmoved _ (Hfound p c Hin)) as [Hgone Hback].
  assert (restored (bak_of p) = p) as Heq.
  { apply bak_of_inj.
    - by apply document_name_nonempty, restored_is_document.
    - by apply document_name_nonempty.
    - by apply bak_of_restored. }
  rewrite Heq in Hback. split; [|done].
  rewrite Hback. by destruct (Hwritten p c Hin) as [-> _].
Qed.

Lemma restore_bak_files_undoes_export_witness :
  exists fs2,
    restore_bak_files (Sample.rglob_of Sample.two_documents_listing)
      Sample.two_documents_exported (Sample.world Sample.two_documents) = Ok fs2
    /\ forall p c,
         (p, c) ∈ files_json (files (Sample.world Sample.two_documents))
                  ++ files_db (files (Sample.world Sample.two_documents)) ->
         fs2 p = Sample.two_documents_disk p /\ fs2 (bak_of p) = None.
Proof.
  apply (restore_bak_files_undoes_export Sample.no_encoder
           (Sample.rglob_of Sample.two_documents_listing)
           Sample.two_documents_disk (Sample.world Sample.two_documents)
           Sample.two_documents_exported).
  - apply (bool_decide_unpack _). vm_compute. exact I.
  - intros p c Hin. simpl in Hin.
    apply elem_of_cons in Hin as [Heq|Hin];
      [injection Heq as -> ->; split; [eexists; reflexivity|right; reflexivity]|].
    apply elem_of_cons in Hin as [Heq|Hin];
      [injection Heq as -> ->; split; [eexists; reflexivity|left; reflexivity]|].
    by apply elem_of_nil in Hin.
  - reflexivity.
  - apply (bool_decide_unpack _). vm_compute. exact I.
  - intros q Hin. vm_compute in Hin.
    apply elem_of_cons in Hin as [->|Hin];
      [split; [eexists; reflexivity|left; reflexivity]|].
    apply elem_of_cons in Hin as [->|Hin];
      [split; [eexists; reflexivity|right; reflexivity]|].
    by apply elem_of_nil in Hin.
  - intros p c Hin. simpl in Hin.
    apply elem_of_cons in Hin as [Heq|Hin];
      [injection Heq as -> ->; vm_compute; repeat constructor|].
    apply elem_of_cons in Hin as [Heq|Hin];
      [injection Heq as -> ->; vm_compute; repeat constructor|].
    by apply elem_of_nil in Hin.
Defined.

(** ** Loading the documents *)

Lemma universal_newlines_id s :
  Str.contains carriage_return s = false -> universal_newlines s = s.
Proof.
  induction s as [|a s IH]; [done|]. unfold carriage_return. cbn -[Ascii.eqb].
  intros H. apply orb_false_iff in H as [H1 H2]. rewrite andb_true_r in H1.
  rewrite Ascii.eqb_sym, H1. f_equal. by apply IH.
Qed.

Lemma lines_of_app d rest :
  Str.contains line_feed d = false -> d <> "" ->
  lines_of (d +:+ rest)
  = match lines_of rest with
    | [] => [d]
    | l :: ls => (d +:+ l) :: ls
    end.
Proof.
  induction d as [|a d IH]; [done|]. unfold line_feed. cbn -[Ascii.eqb].
  intros H _. apply orb_false_iff in H as [H1 H2]. rewrite andb_true_r in H1.
  rewrite str_app_cons. cbn -[Ascii.eqb String.append]. rewrite Ascii.eqb_sym, H1.
  destruct d as [|b d].
  - change ("" +:+ rest) with rest. by destruct (lines_of rest).
  - rewrite IH by done. by destruct (lines_of rest).
Qed.

Lemma lines_of_join ds :
  (forall d, d ∈ ds -> d <> "" /\ Str.contains line_feed d = false) ->
  lines_of (Str.join line_feed ds) = with_line_ends ds.
Proof.
  induction ds as [|d ds IH]; intros H; [done|].
  destruct (H d) as [Hne Hnl]; [by left|].
  destruct ds as [|d2 ds].
  - simpl. rewrite <- (str_app_nil_r d) at 1. by rewrite lines_of_app.
  - change (Str.join line_feed (d :: d2 :: ds))
      with (d +:+ line_feed +:+ Str.join line_feed (d2 :: ds)).
    rewrite lines_of_app by done.
    change (lines_of (line_feed +:+ Str.join line_feed (d2 :: ds)))
      with (line_feed :: lines_of (Str.join line_feed (d2 :: ds))).
    rewrite IH by (intros x Hx; apply H; by right).
    done.
Qed.

Lemma map_result_with_line_ends E json_loads c :
  (forall v, v ∈ c -> reads_back E json_loads v) ->
  map_result json_loads (with_line_ends (json_dumps E <$> c)) = Ok c.
Proof.
  induction c as [|v c IH]; intros H; [done|].
  destruct (H v) as (_ & _ & _ & Hplain & Hnl); [by left|].
  destruct c as [|v2 c].
  - simpl. by rewrite Hplain.
  - change (with_line_ends (json_dumps E <$> v :: v2 :: c))
      with ((json_dumps E v +:+ line_feed) :: with_line_ends (json_dumps E <$> v2 :: c)).
    set (rest := with_line_ends (json_dumps E <$> v2 :: c)) in *.
    simpl. rewrite Hnl. simpl.
    rewrite IH by (intros x Hx; apply H; by right). done.
Qed.

(** Reading back what the export wrote for a document. *)
Lemma read_exported_text E json_loads fs p c :
  fs p = Some (export_text E c) ->
  (forall v, v ∈ c -> reads_back E json_loads v) ->
  read_text fs p = Ok (export_text E c)
  /\ map_result json_loads (lines_of (export_text E c)) = Ok c.
Proof.
  intros Hp Hc.
  assert (forall d, d ∈ map (json_dumps E) c ->
            d <> "" /\ Str.contains line_feed d = false
            /\ Str.contains carriage_return d = false) as Hd.
  { intros d Hin. apply list_elem_of_fmap in Hin as (v & -> & Hv).
    by destruct (Hc v Hv) as (? & ? & ? & _). }
  split.
  - unfold read_text. rewrite Hp. f_equal. apply universal_newlines_id.
    unfold export_text. apply contains_char_join; [done|].
    intros d Hin. by destruct (Hd d Hin) as (_ & _ & ?).
  - unfold export_text. fold line_feed. rewrite lines_of_join.
    + by apply map_result_with_line_ends.
    + intros d Hin. by destruct (Hd d Hin) as (? & ? & _).
Qed.

Lemma load_db_loop E json_loads fs settings (docs : Docs) : forall acc,
  NoDup (acc.*1 ++ docs.*1) ->
  (forall p c, (p, c) ∈ docs ->
     p <> settings /\ fs p = Some (export_text E c)
     /\ forall v, v ∈ c -> reads_back E json_loads v) ->
  for_each (fun path files_db =>
              if decide (path <> settings)
              then
                text ← read_text fs path;
                lines ← map_result json_loads (lines_of text);
                Ok (adict_set files_db path lines)
              else Ok files_db)
           docs.*1 acc = Ok (acc ++ docs).
Proof.
  induction docs as [|[p c] docs IH]; intros acc Hnd Hdocs.
  - simpl. by rewrite app_nil_r.
  - csimpl. destruct (Hdocs p c) as (Hset & Hp & Hc); [by left|].
    rewrite decide_True by done.
    destruct (read_exported_text E json_loads fs p c Hp Hc) as [Hread Hlines].
    rewrite Hread. cbn [mbind result_bind]. rewrite Hlines. cbn [mbind result_bind].
    csimpl in Hnd. apply NoDup_app in Hnd as (Hnd1 & Hdisj & Hnd2).
    apply NoDup_cons in Hnd2 as [Hfresh Hnd2].
    rewrite adict_set_fresh by (intros Hin; apply (Hdisj p Hin); by left).
    rewrite IH.
    + by rewrite <- app_assoc.
    + rewrite fmap_app. csimpl. rewrite <- app_assoc. simpl.
      apply NoDup_app. split; [done|]. split; [|by apply NoDup_cons].
      intros x Hx. by apply Hdisj.
    + intros q c' Hin. apply Hdocs. by right.
Qed.

Lemma load_json_loop E json_loads fs (docs : Docs) : forall acc,
  NoDup (acc.*1 ++ docs.*1) ->
  (forall p c, (p, c) ∈ docs ->
     fs p = Some (export_text E c)
     /\ exists v, c = [v] /\ reads_back E json_loads v) ->
  for_each (fun path files_json =>
              text ← read_text fs path;
              v ← json_loads text;
              Ok (adict_set files_json path [v]))
           docs.*1 acc = Ok (acc ++ docs).
Proof.
  induction docs as [|[p c] docs IH]; intros acc Hnd Hdocs.
  - simpl. by rewrite app_nil_r.
  - csimpl. destruct (Hdocs p c) as (Hp & v & -> & Hv); [by left|].
    destruct (read_exported_text E json_loads fs p [v] Hp) as [Hread _].
    { intros x Hx. by apply list_elem_of_singleton in Hx as ->. }
    rewrite Hread. cbn [mbind result_bind].
    change (export_text E [v]) with (json_dumps E v).
    destruct Hv as (_ & _ & _ & -> & _). cbn [mbind result_bind].
    csimpl in Hnd. apply NoDup_app in Hnd as (Hnd1 & Hdisj & Hnd2).
    apply NoDup_cons in Hnd2 as [Hfresh Hnd2].
    rewrite adict_set_fresh by (intros Hin; apply (Hdisj p Hin); by left).
    rewrite IH.
    + by rewrite <- app_assoc.
    + rewrite fmap_app. csimpl. rewrite <- app_assoc. simpl.
      apply NoDup_app. split; [done|]. split; [|by apply NoDup_cons].
      intros x Hx. by apply Hdisj.
    + intros q c' Hin. apply Hdocs. by right.
Qed.

(** X20. Loading reads back what the export wrote: when each record is
    written as a text without a raw line end that [json.loads] reads as the
    record, each [.json] document holds one record, and the enumerator
    lists the documents of the world, [load_data] over the exported files
    returns the documents of the world, record for record. *)
Theorem load_data_reads_back_the_export E (rglob : Rglob) json_loads fs w fs' :
  NoDup (files_json (files w) ++ files_db (files w)).*1 ->
  (forall p c, (p, c) ∈ files_json (files w) ++ files_db (files w) ->
     is_Some (fs p) /\ is_document_path p
     /\ forall v, v ∈ c -> reads_back E json_loads v) ->
  (forall p c, (p, c) ∈ files_json (files w) -> exists v, c = [v]) ->
  Pathlib.joinstr (world_folder w) "data/settings.db" ∉ (files_db (files w)).*1 ->
  export_all_json_and_db_files E fs w = Ok fs' ->
  rglob fs' (world_folder w) "*.db" = (files_db (files w)).*1 ->
  rglob fs' (world_folder w) "*.json" = (files_json (files w)).*1 ->
  load_data rglob json_loads fs' (world_folder w) = Ok (files w).
Proof.
  intros Hnd Hdocs Hjson Hsettings Hexport Hdb Hjs.
  destruct (export_loop E _ fs Hnd) as (fs1 & Hrun & Hwritten & _).
  { intros p c Hin. by destruct (Hdocs p c Hin) as (? & ? & _). }
  unfold export_all_json_and_db_files in Hexport. rewrite Hrun in Hexport.
  injection Hexport as ->.
  rewrite fmap_app in Hnd. apply NoDup_app in Hnd as (Hnd_json & _ & Hnd_db).
  unfold load_data. rewrite Hdb, Hjs.
  rewrite (load_db_loop E json_loads fs');
    [|done|].
  - simpl. rewrite (load_json_loop E json_loads fs'); [by destruct (files w)|done|].
    intros p c Hin.
    assert ((p, c) ∈ files_json (files w) ++ files_db (files w)) as Hin'
      by (apply elem_of_app; by left).
    destruct (Hwritten p c Hin') as [_ Hp]. split; [done|].
    destruct (Hjson p c Hin) as [v ->]. exists v. split; [done|].
    destruct (Hdocs p [v] Hin') as (_ & _ & Hv). apply Hv. by left.
  - intros p c Hin.
    assert ((p, c) ∈ files_json (files w) ++ files_db (files w)) as Hin'
      by (apply elem_of_app; by right).
    destruct (Hwritten p c Hin') as [_ Hp].
    destruct (Hdocs p c Hin') as (_ & _ & Hv).
    split; [|done]. intros ->. apply Hsettings. apply list_elem_of_fmap.
    by exists (Pathlib.joinstr (world_folder w) "data/settings.db", c).
Qed.

Lemma load_data_reads_back_the_export_witness :
  load_data (Sample.rglob_of Sample.two_documents_listing)
    (Sample.loads Sample.two_documents_records) Sample.two_documents_exported
    (world_folder (Sample.world Sample.two_documents))
  = Ok (files (Sample.world Sample.two_documents)).
Proof.
  apply (load_data_reads_back_the_export Sample.no_encoder
           (Sample.rglob_of Sample.two_documents_listing)
           (Sample.loads Sample.two_documents_records) Sample.two_documents_disk
           (Sample.world Sample.two_documents) Sample.two_documents_exported).
  - apply (bool_decide_unpack _). vm_compute. exact I.
  - intros p c Hin. simpl in Hin.
    apply elem_of_cons in Hin as [Heq|Hin].
    { injection Heq as -> ->. split; [eexists; reflexivity|].
      split; [right; reflexivity|]. intros v Hv.
      apply list_elem_of_singleton in Hv as ->.
      repeat split; (reflexivity || discriminate). }
    apply elem_of_cons in Hin as [Heq|Hin]; [|by apply elem_of_nil in Hin].
    injection Heq as -> ->. split; [eexists; reflexivity|].
    split; [left; reflexivity|]. intros v Hv.
    apply elem_of_cons in Hv as [->|Hv];
      [repeat split; (reflexivity || discriminate)|].
    apply list_elem_of_singleton in Hv as ->.
    repeat split; (reflexivity || discriminate).
  - intros p c Hin. simpl in Hin. apply list_elem_of_singleton in Hin as [= -> ->].
    by eexists.
  - apply (bool_decide_unpack _). vm_compute. exact I.
  - reflexivity.
  - reflexivity.
  - reflexivity.
Defined.

(** ** The whole run *)

Lemma get_broken_refs_nil w :
  trash_queue w = [] ->
  (forall r, r ∈ all_img_refs w ->
     img_path_on_disk r = None -> img_ref_external_web_link r = true) ->
  get_broken_refs w = [].
Proof.
  intros Hq Hrefs. apply elem_of_nil_inv. intros i Hi.
  apply elem_of_get_broken_refs in Hi as (r & Hr & [[Hd Hl]|(p & Hd & Hp)]).
  - rewrite (Hrefs r) in Hl; [done| |done]. by eapply list_elem_of_lookup_2.
  - rewrite Hq in Hp. by apply elem_of_nil in Hp.
Qed.

Lemma with_trash_queue_same w : with_trash_queue w (trash_queue w) = w.
Proof. by destruct w. Qed.

(** X21. On a world with nothing to repair, the nine passes of the run
    amount to the export: when the trash queue is empty, every reference is
    found on disk or is a link to the web, every reference found under the
    world folder is a [.webp] with a matching extension, no two declared
    paths share a digest, and every image enumerated after the export is
    one that a reference resolves to, the run ends with the files as the
    export left them, the trash folder emptied when that was asked for,
    and with the world object as it was. *)
Theorem run_on_a_settled_world_only_exports depth (rglob : Rglob) E delete fs w fs' :
  trash_queue w = [] ->
  (forall r, r ∈ all_img_refs w ->
     img_path_on_disk r = None -> img_ref_external_web_link r = true) ->
  (forall r, r ∈ all_img_refs w ->
     img_exists r = true -> ref_img_in_world_folder r = true ->
     correct_extension r = Some true /\ is_webp r = true) ->
  get_duplicated_images w = [] ->
  export_all_json_and_db_files E fs w = Ok fs' ->
  (forall p, p ∈ find_all_images_in_world_folder rglob fs' w ->
     exists r, r ∈ all_img_refs w /\ img_path_on_disk r = Some p) ->
  run_passes depth rglob E delete fs w
  = Some (Ok (empty_trash delete fs' w, w)).
Proof.
  intros Hq Hbroken Hsettled Hdup Hexport Hused.
  unfold run_passes, try_to_fix_all_broken_refs.
  rewrite (get_broken_refs_nil w Hq Hbroken). simpl for_each. cbv iota beta.
  rewrite fix_incorrect_file_extensions_settled
    by (intros r Hr He Hin; by destruct (Hsettled r Hr He Hin)).
  unfold fix_all_sets_of_duplicated_images. rewrite Hdup. simpl for_each.
  cbn [mbind result_bind].
  rewrite convert_all_images_settled.
  2:{ intros r Hr. destruct (img_exists r) eqn:He; [|by auto].
      destruct (ref_img_in_world_folder r) eqn:Hin; [|by auto].
      left. by destruct (Hsettled r Hr He Hin). }
  cbn [mbind result_bind]. cbv iota beta. rewrite Hdup. simpl for_each.
  cbn [mbind result_bind]. rewrite Hexport. cbn [mbind result_bind].
  assert (get_all_unused_images_in_world_folder rglob fs' w = []) as Hunused.
  { apply elem_of_nil_inv. intros p Hp.
    apply (proj2 (elem_of_unused_images rglob fs' w)) in Hp as [Hp Hnone].
    destruct (Hused p Hp) as (r & Hr & Hd). by apply (Hnone r Hr). }
  unfold add_unused_images_to_trash_queue. rewrite Hunused. simpl foldl.
  rewrite with_trash_queue_same.
  unfold move_all_imgs_in_trash_queue_to_trash. rewrite Hq. done.
Qed.

Lemma run_on_a_settled_world_only_exports_witness :
  run_passes 1000 (Sample.rglob_of Sample.settled_listing) Sample.no_encoder
    false Sample.settled_disk Sample.settled_world
  = Some (Ok (empty_trash false Sample.settled_exported Sample.settled_world,
              Sample.settled_world)).
Proof.
  apply (run_on_a_settled_world_only_exports 1000
           (Sample.rglob_of Sample.settled_listing) Sample.no_encoder false
           Sample.settled_disk Sample.settled_world Sample.settled_exported).
  - reflexivity.
  - intros r Hr. unfold Sample.settled_world in Hr. simpl in Hr.
    apply list_elem_of_singleton in Hr as ->. discriminate.
  - intros r Hr _ _. unfold Sample.settled_world in Hr. simpl in Hr.
    apply list_elem_of_singleton in Hr as ->. split; reflexivity.
  - reflexivity.
  - reflexivity.
  - intros p Hp. vm_compute in Hp. apply list_elem_of_singleton in Hp as ->.
    unfold Sample.settled_world. simpl all_img_refs.
    eexists. split; [by left|reflexivity].
Defined.
